(* ===================================================================== *)
(* cctv-s3-pipeline: segment lifecycle, segment store, upload worker,    *)
(* retention and capture supervision, embedded from the Python sources.  *)
(*                                                                       *)
(*   src/state/models.py        -> Module Models                         *)
(*   src/state/database.py      -> Module Db                             *)
(*   src/storage/s3_uploader.py -> Module Uploader                       *)
(*   src/storage/local_buffer.py-> Module Buffer                         *)
(*   src/capture/segmenter.py   -> Module Monitor                        *)
(*                                                                       *)
(* Conventions of the embedding.                                         *)
(*  - Python ints are unbounded: Z.                                      *)
(*  - A naive datetime is the number of microseconds it denotes (Z);     *)
(*    its isoformat() text orders as the instant does, so ORDER BY on    *)
(*    the TEXT column is ORDER BY on that number.                        *)
(*  - Optional[...] is option, None is None.                             *)
(*  - A method that mutates self returns the new object; a method that   *)
(*    can raise returns a [result].                                      *)
(*  - The SQLite table is the list of its rows in rowid order together   *)
(*    with the AUTOINCREMENT counter of sqlite_sequence.                 *)
(*  - The local disk is a finite map from paths to file sizes.           *)
(* ===================================================================== *)

From stdpp Require Import gmap strings list fin_maps pretty sorting.
From Stdlib Require Import ZArith.

Local Open Scope Z_scope.

(* --------------------------------------------------------------------- *)
(* utils/exceptions.py and the foreign exceptions the pipeline meets     *)
(* --------------------------------------------------------------------- *)

Inductive Exn : Type :=
| DatabaseError (msg : string)
| RetryExhaustedError (msg : string) (attempts : Z)
| ClientError (msg : string)          (* botocore ClientError / BotoCoreError *)
| S3UploadFailedError (msg : string)  (* boto3.exceptions, no subclass of those *)
| FileNotFoundError (path : string).  (* OSError raised by Path.stat() *)

Inductive result (A : Type) : Type :=
| Ok (a : A)
| Raise (e : Exn).
Arguments Ok {A} a.
Arguments Raise {A} e.

Definition is_raise {A} (r : result A) : bool :=
  match r with Raise _ => true | Ok _ => false end.

(* ===================================================================== *)
Module Models.
(* ===================================================================== *)

Inductive SegmentState : Type :=
| CREATED | UPLOADING | UPLOADED | FAILED | CLEANED.

#[global] Instance SegmentState_eq_dec : EqDecision SegmentState.
Proof. solve_decision. Defined.

Definition datetime := Z.

Record Segment : Type := mkSegment {
  filename : string;
  filepath : string;
  created_at : datetime;
  uploaded_at : option datetime;
  state : SegmentState;
  upload_attempts : Z;
  last_error : option string;
  s3_key : option string;
  s3_bucket : option string;
  file_size : Z;
  id : option Z
}.

(* Segment.from_file: datetime.now() is the argument [now]; __post_init__
   reads the size of the file when it exists. *)
Definition from_file (now : datetime) (path name : string) (size : Z) : Segment :=
  {| filename := name; filepath := path; created_at := now;
     uploaded_at := None; state := CREATED; upload_attempts := 0;
     last_error := None; s3_key := None; s3_bucket := None;
     file_size := size; id := None |}.

Definition mark_uploading (s : Segment) : Segment :=
  {| filename := filename s; filepath := filepath s; created_at := created_at s;
     uploaded_at := uploaded_at s;
     state := UPLOADING;
     upload_attempts := upload_attempts s + 1;
     last_error := last_error s; s3_key := s3_key s; s3_bucket := s3_bucket s;
     file_size := file_size s; id := id s |}.

Definition mark_uploaded (now : datetime) (key bucket : string) (s : Segment) : Segment :=
  {| filename := filename s; filepath := filepath s; created_at := created_at s;
     uploaded_at := Some now;
     state := UPLOADED;
     upload_attempts := upload_attempts s;
     last_error := None; s3_key := Some key; s3_bucket := Some bucket;
     file_size := file_size s; id := id s |}.

Definition mark_failed (error : string) (s : Segment) : Segment :=
  {| filename := filename s; filepath := filepath s; created_at := created_at s;
     uploaded_at := uploaded_at s;
     state := FAILED;
     upload_attempts := upload_attempts s;
     last_error := Some error; s3_key := s3_key s; s3_bucket := s3_bucket s;
     file_size := file_size s; id := id s |}.

Definition mark_cleaned (s : Segment) : Segment :=
  {| filename := filename s; filepath := filepath s; created_at := created_at s;
     uploaded_at := uploaded_at s;
     state := CLEANED;
     upload_attempts := upload_attempts s;
     last_error := last_error s; s3_key := s3_key s; s3_bucket := s3_bucket s;
     file_size := file_size s; id := id s |}.

Definition can_retry (max_retries : Z) (s : Segment) : bool :=
  upload_attempts s <? max_retries.

Definition is_pending (s : Segment) : bool :=
  bool_decide (state s = CREATED ∨ state s = UPLOADING).

End Models.
Export Models.

(* ===================================================================== *)
Module Db.
(* ===================================================================== *)

(* One row of table segments.  id is INTEGER PRIMARY KEY AUTOINCREMENT,
   filename is NOT NULL UNIQUE. *)
Record Row : Type := mkRow {
  row_id : Z;
  row_filename : string;
  row_filepath : string;
  row_created_at : datetime;
  row_uploaded_at : option datetime;
  row_state : SegmentState;
  row_upload_attempts : Z;
  row_last_error : option string;
  row_s3_key : option string;
  row_s3_bucket : option string;
  row_file_size : Z
}.

Record Database : Type := mkDatabase {
  rows : list Row;
  sqlite_sequence : Z   (* largest id AUTOINCREMENT has handed out *)
}.

(* _init_schema on a fresh file *)
Definition empty_db : Database := {| rows := []; sqlite_sequence := 0 |}.

(* Segment.from_dict(dict(row)), with file_size as the row has it.
   (__post_init__ replaces a file_size of 0 by the size on disk when the
   file exists; nothing below reads file_size from a segment made here.) *)
Definition from_dict (r : Row) : Segment :=
  {| filename := row_filename r; filepath := row_filepath r;
     created_at := row_created_at r; uploaded_at := row_uploaded_at r;
     state := row_state r; upload_attempts := row_upload_attempts r;
     last_error := row_last_error r; s3_key := row_s3_key r;
     s3_bucket := row_s3_bucket r; file_size := row_file_size r;
     id := Some (row_id r) |}.

Definition filenames (db : Database) : list string := row_filename <$> rows db.
Definition ids (db : Database) : list Z := row_id <$> rows db.

Definition max_rowid (db : Database) : Z :=
  foldr Z.max 0 (ids db).

Definition unique_violation : string :=
  "Database operation failed: UNIQUE constraint failed: segments.filename".

(* add_segment: INSERT (filename, filepath, created_at, state, file_size);
   the other columns take their defaults.  The UNIQUE index on filename
   makes sqlite raise IntegrityError, which _cursor rolls back and turns
   into DatabaseError.  On success segment.id = cursor.lastrowid. *)
Definition add_segment (seg : Segment) (db : Database) : result (Segment * Database) :=
  if bool_decide (filename seg ∈ filenames db) then
    Raise (DatabaseError unique_violation)
  else
    let new_id := Z.max (max_rowid db) (sqlite_sequence db) + 1 in
    let r := {| row_id := new_id;
                row_filename := filename seg;
                row_filepath := filepath seg;
                row_created_at := created_at seg;
                row_uploaded_at := None;
                row_state := state seg;
                row_upload_attempts := 0;
                row_last_error := None;
                row_s3_key := None;
                row_s3_bucket := None;
                row_file_size := file_size seg |} in
    let seg' := {| filename := filename seg; filepath := filepath seg;
                   created_at := created_at seg; uploaded_at := uploaded_at seg;
                   state := state seg; upload_attempts := upload_attempts seg;
                   last_error := last_error seg; s3_key := s3_key seg;
                   s3_bucket := s3_bucket seg; file_size := file_size seg;
                   id := Some new_id |} in
    Ok (seg', {| rows := rows db ++ [r]; sqlite_sequence := new_id |}).

(* The SET clause of update_segment applied to one row. *)
Definition overwrite (seg : Segment) (r : Row) : Row :=
  {| row_id := row_id r;
     row_filename := row_filename r;
     row_filepath := row_filepath r;
     row_created_at := row_created_at r;
     row_uploaded_at := uploaded_at seg;
     row_state := state seg;
     row_upload_attempts := upload_attempts seg;
     row_last_error := last_error seg;
     row_s3_key := s3_key seg;
     row_s3_bucket := s3_bucket seg;
     row_file_size := row_file_size r |}.

Definition no_id : string := "Cannot update segment without ID".

(* What SQLite does with the statement it is given: it executes it, or
   it raises an sqlite3.Error (database locked, disk I/O error, no such
   table, ...) with the given text. *)
Inductive Sqlite : Type :=
| Executes
| Fails (msg : string).

Definition operation_failed (msg : string) : string :=
  "Database operation failed: " +:+ msg.

(* update_segment.  A segment without id raises before SQLite is asked.
   Otherwise UPDATE ... WHERE id = ? touches the rows with that id,
   possibly none; an sqlite3.Error is rolled back by _cursor and raised
   again as DatabaseError. *)
Definition update_segment_on (sqlite : Sqlite) (seg : Segment) (db : Database)
  : result Database :=
  match id seg with
  | None => Raise (DatabaseError no_id)
  | Some n =>
      match sqlite with
      | Fails msg => Raise (DatabaseError (operation_failed msg))
      | Executes =>
          Ok {| rows := (λ r, if bool_decide (row_id r = n) then overwrite seg r else r)
                          <$> rows db;
                sqlite_sequence := sqlite_sequence db |}
      end
  end.

(* update_segment on a store whose SQLite executes the statement, which
   is the store of everything that follows. *)
Definition update_segment (seg : Segment) (db : Database) : result Database :=
  update_segment_on Executes seg db.

Definition get_segment_by_filename (name : string) (db : Database) : option Segment :=
  from_dict <$> head (filter (λ r, row_filename r = name) (rows db)).

Definition get_segment_by_id (n : Z) (db : Database) : option Segment :=
  from_dict <$> head (filter (λ r, row_id r = n) (rows db)).

(* ORDER BY key ASC: a stable insertion sort of the rows on a Z key; rows
   with equal keys stay in rowid order, as a scan of the index on the
   column yields them. *)
Fixpoint insert_by (key : Row → Z) (r : Row) (l : list Row) : list Row :=
  match l with
  | [] => [r]
  | x :: l' => if key r <=? key x then r :: l else x :: insert_by key r l'
  end.

Definition order_by (key : Row → Z) (l : list Row) : list Row :=
  foldr (insert_by key) [] l.

(* SELECT * WHERE state = ? ORDER BY created_at ASC LIMIT ? ; a negative
   LIMIT means no limit in SQLite. *)
Definition get_segments_by_state (st : SegmentState) (limit : Z) (db : Database)
  : list Segment :=
  let sel := order_by row_created_at (filter (λ r, row_state r = st) (rows db)) in
  from_dict <$> (if limit <? 0 then sel else take (Z.to_nat limit) sel).

(* datetime(x) of SQLite on the isoformat() text of x, without modifier:
   the text is parsed and printed again with the fraction of the seconds
   cut off.  The result is in seconds. *)
Definition sql_datetime (t : datetime) : Z := t `div` 1000000.

(* datetime(x, '-N minutes'): a modifier makes SQLite turn x into its
   count of milliseconds first, (int)(seconds * 1000 + 0.5), so the
   fraction is rounded to milliseconds and .9995 s or more counts as the
   next second; the shifted time is printed with the fraction cut off. *)
Definition sql_datetime_minus (t : datetime) (seconds : Z) : Z :=
  ((t + 500) `div` 1000) `div` 1000 - seconds.

(* datetime('now', '-N days'): SQLite's own clock in UTC, which counts
   whole milliseconds. *)
Definition sql_now_minus (utc_now : datetime) (seconds : Z) : Z :=
  utc_now `div` 1000000 - seconds.

(* f'-{n} minutes', f'-{n} days': for a negative n the text starts with
   two minus signs, which is no modifier; datetime() is then NULL and the
   comparison true of no row. *)
Definition modifier_ok (n : Z) : bool := 0 <=? n.

(* get_uploaded_segments: state = 'uploaded' AND datetime(uploaded_at) <
   datetime(now, '-N minutes') ORDER BY uploaded_at ASC; a NULL
   uploaded_at never satisfies the comparison. *)
Definition get_uploaded_segments (now : datetime) (older_than_minutes : Z)
    (db : Database) : list Segment :=
  let old r := match row_uploaded_at r with
               | Some t => modifier_ok older_than_minutes
                           && (sql_datetime t
                               <? sql_datetime_minus now (60 * older_than_minutes))
               | None => false
               end in
  from_dict <$>
    order_by (λ r, default 0 (row_uploaded_at r))
      (filter (λ r, row_state r = UPLOADED ∧ old r = true) (rows db)).

(* cleanup_old_records: DELETE WHERE state = 'cleaned' AND
   datetime(created_at) < datetime('now', '-N days'); returns rowcount.
   created_at holds the local wall-clock time of datetime.now(), 'now'
   is UTC: the two are compared as they stand. *)
Definition cleanup_old_records (utc_now : datetime) (days : Z) (db : Database)
  : Z * Database :=
  let stale r := bool_decide (row_state r = CLEANED) &&
                 (modifier_ok days
                  && (sql_datetime (row_created_at r)
                      <? sql_now_minus utc_now (86400 * days))) in
  (Z.of_nat (length (filter (λ r, stale r = true) (rows db))),
   {| rows := filter (λ r, stale r = false) (rows db);
      sqlite_sequence := sqlite_sequence db |}).

Definition reset_row (r : Row) : Row :=
  if bool_decide (row_state r = UPLOADING) then
    {| row_id := row_id r; row_filename := row_filename r;
       row_filepath := row_filepath r; row_created_at := row_created_at r;
       row_uploaded_at := row_uploaded_at r;
       row_state := CREATED;
       row_upload_attempts := row_upload_attempts r;
       row_last_error := row_last_error r; row_s3_key := row_s3_key r;
       row_s3_bucket := row_s3_bucket r; row_file_size := row_file_size r |}
  else r.

(* reset_uploading_segments: UPDATE SET state = 'created' WHERE state =
   'uploading'; returns cursor.rowcount. *)
Definition reset_uploading_segments (db : Database) : Z * Database :=
  (Z.of_nat (length (filter (λ r, row_state r = UPLOADING) (rows db))),
   {| rows := reset_row <$> rows db; sqlite_sequence := sqlite_sequence db |}).

(* The store as the caller finds it after a call: a raised DatabaseError
   has been rolled back. *)
Definition db_after {A} (r : result (A * Database)) (db : Database) : Database :=
  match r with Ok (_, db') => db' | Raise _ => db end.

(* A sequence of Add calls, failed ones included. *)
Definition add_all (segs : list Segment) (db : Database) : Database :=
  foldl (λ d s, db_after (add_segment s d) d) db segs.

End Db.
Export Db.

(* The local disk: path -> size in bytes of the regular file there. *)
Abbreviation FS := (gmap string Z).

Definition exists_ (fs : FS) (p : string) : bool := bool_decide (is_Some (fs !! p)).
Definition unlink (fs : FS) (p : string) : FS := delete p fs.

(* ===================================================================== *)
Module Uploader.
(* ===================================================================== *)

Record S3Config : Type := mkS3Config {
  bucket : string;
  (* prefix_template.format(camera_name=..., year=..., month=..., day=...,
     hour=...) as a function of the segment's creation time *)
  prefix : datetime → string;
  max_retries : Z;
  retry_delay : Z;
  multipart_threshold : Z
}.

(* How client.upload_file ends when the transfer does not succeed.
   botocore's own errors (BotoCoreError: no connection, timeout, ...)
   come out as they are, and so would a ClientError; the ClientError of
   a request that the service refuses is wrapped by boto3 into
   S3UploadFailedError. *)
Inductive Failure : Type :=
| Botocore (msg : string)
| UploadFailed (msg : string).

(* What the remote store answers to client.upload_file for a given key on
   a given attempt: None on success.  The flag tells a multipart transfer
   from a simple one. *)
Definition S3 := string → Z → bool → option Failure.

Record World : Type := mkWorld {
  db : Database;
  disk : FS;
  upload_count : Z;
  error_count : Z;
  clock : datetime
}.

Definition set_db (d : Database) (w : World) : World :=
  {| db := d; disk := disk w; upload_count := upload_count w;
     error_count := error_count w; clock := clock w |}.

(* time.sleep(delay), delay in seconds *)
Definition sleep (delay : Z) (w : World) : World :=
  {| db := db w; disk := disk w; upload_count := upload_count w;
     error_count := error_count w; clock := clock w + 1000000 * delay |}.

Definition build_s3_key (cfg : S3Config) (seg : Segment) : string :=
  prefix cfg (created_at seg) +:+ filename seg.

(* _upload_file: Path.stat() raises when the file is gone; above the
   threshold the transfer is multipart. *)
Definition upload_file (cfg : S3Config) (s3 : S3) (fs : FS)
    (path key : string) (attempt : Z) : result unit :=
  match fs !! path with
  | None => Raise (FileNotFoundError path)
  | Some size =>
      match s3 key attempt (multipart_threshold cfg <? size) with
      | None => Ok ()
      | Some (Botocore msg) => Raise (ClientError msg)
      | Some (UploadFailed msg) => Raise (S3UploadFailedError msg)
      end
  end.

(* State of the while loop of _upload_with_retry. *)
Record Loop : Type := mkLoop {
  seg : Segment;
  world : World;
  delay : Z
}.

Inductive Flow : Type :=
| Continue            (* back to the loop head *)
| Return              (* the success path returned *)
| Throw (e : Exn).    (* an exception left the function *)

(* One pass through the body of the while loop, on a store whose SQLite
   executes every statement (update_segment is update_segment_on
   Executes): the only DatabaseError is the one for a missing id.  The
   except clause of the loop catches ClientError and BotoCoreError; any
   other exception leaves the loop. *)
Definition attempt (cfg : S3Config) (s3 : S3) (st : Loop) : Flow * Loop :=
  let seg1 := mark_uploading (seg st) in
  let w := world st in
  match update_segment seg1 (db w) with
  | Raise e => (Throw e, {| seg := seg1; world := w; delay := delay st |})
  | Ok db1 =>
      let w1 := set_db db1 w in
      let key := build_s3_key cfg seg1 in
      match upload_file cfg s3 (disk w1) (filepath seg1) key (upload_attempts seg1) with
      | Ok _ =>
          let seg2 := mark_uploaded (clock w1) key (bucket cfg) seg1 in
          match update_segment seg2 (db w1) with
          | Raise e => (Throw e, {| seg := seg2; world := w1; delay := delay st |})
          | Ok db2 =>
              (Return,
               {| seg := seg2;
                  world := {| db := db2; disk := disk w1;
                              upload_count := upload_count w1 + 1;
                              error_count := error_count w1; clock := clock w1 |};
                  delay := delay st |})
          end
      | Raise (ClientError _) =>
          if upload_attempts seg1 <? max_retries cfg then
            (Continue, {| seg := seg1; world := sleep (delay st) w1;
                          delay := Z.min (delay st * 2) 60 |})
          else
            (Continue, {| seg := seg1; world := w1; delay := delay st |})
      | Raise e => (Throw e, {| seg := seg1; world := w1; delay := delay st |})
      end
  end.

Definition exhausted (st : Loop) : Exn :=
  RetryExhaustedError ("Failed to upload " +:+ filename (seg st)) (upload_attempts (seg st)).

(* [run n] executes at most n passes of the loop; Continue as its answer
   means that the loop is still running after n passes. *)
Fixpoint run (cfg : S3Config) (s3 : S3) (n : nat) (st : Loop) : Flow * Loop :=
  match n with
  | O => (Continue, st)
  | S n' =>
      if upload_attempts (seg st) <? max_retries cfg then
        match attempt cfg s3 st with
        | (Continue, st') => run cfg s3 n' st'
        | r => r
        end
      else (Throw (exhausted st), st)
  end.

(* Every pass increments upload_attempts, so max_retries - upload_attempts
   passes and one more test of the loop condition are enough. *)
Definition upload_with_retry (cfg : S3Config) (s3 : S3) (s : Segment) (w : World)
  : Flow * Loop :=
  run cfg s3 (S (Z.to_nat (max_retries cfg - upload_attempts s)))
      {| seg := s; world := w; delay := retry_delay cfg |}.

(* str(e) *)
Definition str (e : Exn) : string :=
  match e with
  | DatabaseError msg => msg
  | RetryExhaustedError msg _ => msg
  | ClientError msg => msg
  | S3UploadFailedError msg => msg
  | FileNotFoundError path => "[Errno 2] No such file or directory: '" +:+ path +:+ "'"
  end.

(* The body of _upload_loop for one segment taken from the queue.  Both
   except clauses do the same; an exception of the update_segment inside
   a handler leaves the loop (Raise). *)
Definition process_segment (cfg : S3Config) (s3 : S3) (s : Segment) (w : World)
  : result (Segment * World) :=
  match upload_with_retry cfg s3 s w with
  | (Throw e, st) =>
      let failed := mark_failed (str e) (seg st) in
      match update_segment failed (db (world st)) with
      | Raise e' => Raise e'
      | Ok db' =>
          Ok (failed,
              {| db := db'; disk := disk (world st);
                 upload_count := upload_count (world st);
                 error_count := error_count (world st) + 1;
                 clock := clock (world st) |})
      end
  | (_, st) => Ok (seg st, world st)
  end.

End Uploader.
Export Uploader.

(* ===================================================================== *)
Module Buffer.
(* ===================================================================== *)

Record StorageConfig : Type := mkStorageConfig {
  segments_dir : string;
  local_buffer_minutes : Z;
  max_disk_usage_mb : Z
}.

Definition slash : Ascii.ascii := Ascii.ascii_of_nat 47.

(* Path.parent, for the paths with a directory part: the text before the
   last slash ("." when there is none). *)
Fixpoint before_last_slash (p : string) : option string :=
  match p with
  | EmptyString => None
  | String c p' =>
      match before_last_slash p' with
      | Some d => Some (String c d)
      | None => if Ascii.eqb c slash then Some EmptyString else None
      end
  end.

Definition parent (p : string) : string := default "." (before_last_slash p).

(* The sum of get_disk_usage_mb, in bytes: st_size of every regular file
   that segments_dir.iterdir() lists. *)
Definition disk_usage_bytes (cfg : StorageConfig) (fs : FS) : Z :=
  map_fold (λ p size acc, if bool_decide (parent p = segments_dir cfg)
                          then acc + size else acc) 0 fs.

(* get_disk_usage_mb() is bytes / (1024 * 1024).  The two comparisons of
   the code are taken over the rationals, with 0.9 read as 9/10:
     usage_mb > max_disk_usage_mb        and
     usage_mb < max_disk_usage_mb * 0.9                                  *)
Definition over_limit (cfg : StorageConfig) (fs : FS) : bool :=
  max_disk_usage_mb cfg * 1048576 <? disk_usage_bytes cfg fs.

Definition under_target (cfg : StorageConfig) (fs : FS) : bool :=
  10 * disk_usage_bytes cfg fs <? 9 * max_disk_usage_mb cfg * 1048576.

(* Body of the for loop of _perform_cleanup.  The except clause swallows a
   failed update_segment, after the file has been deleted. *)
Definition cleanup_one (st : FS * Database) (s : Segment) : FS * Database :=
  let fs1 := if exists_ st.1 (filepath s) then unlink st.1 (filepath s) else st.1 in
  match update_segment (mark_cleaned s) st.2 with
  | Ok db' => (fs1, db')
  | Raise _ => (fs1, st.2)
  end.

(* Body of the for loop of _emergency_cleanup, before the usage test. *)
Definition emergency_one (st : FS * Database) (s : Segment) : FS * Database :=
  if exists_ st.1 (filepath s) then
    let fs1 := unlink st.1 (filepath s) in
    match update_segment (mark_cleaned s) st.2 with
    | Ok db' => (fs1, db')
    | Raise _ => (fs1, st.2)
    end
  else st.

(* for segment in segments: ...; if usage < 0.9 * limit: break *)
Fixpoint emergency_loop (cfg : StorageConfig) (segments : list Segment)
    (st : FS * Database) : FS * Database :=
  match segments with
  | [] => st
  | s :: rest =>
      let st1 := emergency_one st s in
      if under_target cfg st1.1 then st1 else emergency_loop cfg rest st1
  end.

Definition emergency_cleanup (cfg : StorageConfig) (st : FS * Database) : FS * Database :=
  emergency_loop cfg (get_segments_by_state UPLOADED 50 st.2) st.

Definition check_disk_usage (cfg : StorageConfig) (st : FS * Database) : FS * Database :=
  if over_limit cfg st.1 then emergency_cleanup cfg st else st.

(* _perform_cleanup; [now] is datetime.now() and [utc_now] is SQLite's
   'now'. *)
Definition perform_cleanup (cfg : StorageConfig) (now utc_now : datetime)
    (st : FS * Database) : FS * Database :=
  let segments := get_uploaded_segments now (local_buffer_minutes cfg) st.2 in
  let st1 := foldl cleanup_one st segments in
  let st2 := check_disk_usage cfg st1 in
  (st2.1, (cleanup_old_records utc_now 7 st2.2).2).

End Buffer.
Export Buffer.

(* ===================================================================== *)
Module Monitor.
(* ===================================================================== *)

Record HealthConfig : Type := mkHealthConfig {
  max_restarts : Z;
  restart_window : Z      (* seconds *)
}.

(* SegmenterManager as _monitor_loop sees it.  [now] is time.time() in
   seconds, [restarts] the times at which the loop went through its
   Restart branch (newest first). *)
Record Manager : Type := mkManager {
  should_run : bool;
  restart_count : Z;
  window_start : Z;
  now : Z;
  restarts : list Z
}.

(* What one poll of the loop meets: whether stop() was called during the
   sleep, whether the FFmpeg process is still running, and whether
   Segmenter(...).start() raises. *)
Record Poll : Type := mkPoll {
  stopped : bool;
  is_running : bool;
  start_raises : bool
}.

(* self.start() sets _should_run, clears _restart_count; the loop then
   takes window_start = time.time(). *)
Definition start (t0 : Z) : Manager :=
  {| should_run := true; restart_count := 0; window_start := t0; now := t0;
     restarts := [] |}.

(* One iteration of the while loop; once _should_run is false the loop
   has ended and nothing happens any more. *)
Definition iteration (cfg : HealthConfig) (m : Manager) (p : Poll) : Manager :=
  if negb (should_run m) then m
  else
    let t := now m + 5 in                                   (* time.sleep(5) *)
    if stopped p then
      {| should_run := false; restart_count := restart_count m;
         window_start := window_start m; now := t; restarts := restarts m |}
    else
      let expired := restart_window cfg <? t - window_start m in
      let count := if expired then 0 else restart_count m in
      let wstart := if expired then t else window_start m in
      if is_running p then
        {| should_run := true; restart_count := count; window_start := wstart;
           now := t; restarts := restarts m |}
      else if max_restarts cfg <=? count then
        {| should_run := false; restart_count := count; window_start := wstart;
           now := t; restarts := restarts m |}
      else
        {| should_run := true; restart_count := count + 1; window_start := wstart;
           now := if start_raises p then t + 5 else t;
           restarts := t :: restarts m |}.

Definition monitor_loop (cfg : HealthConfig) (polls : list Poll) (m : Manager) : Manager :=
  foldl (iteration cfg) m polls.

(* A process that exits immediately on every start, never stopped by hand. *)
Definition dies_at_once : Poll :=
  {| stopped := false; is_running := false; start_raises := false |}.

End Monitor.
Export Monitor.


(* ===================================================================== *)
Module Queries.
(* ===================================================================== *)
(* src/state/database.py, the read-only queries. *)

#[global] Instance SegmentState_countable : Countable SegmentState.
Proof.
  refine (inj_countable'
    (λ s, match s with
          | CREATED => 0 | UPLOADING => 1 | UPLOADED => 2 | FAILED => 3 | CLEANED => 4
          end%nat)
    (λ n, match n with
          | 0 => CREATED | 1 => UPLOADING | 2 => UPLOADED | 3 => FAILED | _ => CLEANED
          end%nat) _).
  by intros [].
Defined.

Definition get_pending_segments (limit : Z) (db : Database) : list Segment :=
  get_segments_by_state CREATED limit db.

Definition get_failed_segments (limit : Z) (db : Database) : list Segment :=
  get_segments_by_state FAILED limit db.

(* count_by_state: SELECT state, COUNT( * ) GROUP BY state, as the dict
   {row['state']: row['count']}; a state without rows has no key. *)
Definition count_by_state (db : Database) : gmap SegmentState Z :=
  foldr (λ r m, <[row_state r := default 0 (m !! row_state r) + 1]> m) ∅ (rows db).

(* get_total_pending_size: COALESCE(SUM(file_size), 0) WHERE state IN
   ('created', 'uploading'). *)
Definition get_total_pending_size (db : Database) : Z :=
  foldr (λ r total, row_file_size r + total) 0
    (filter (λ r, row_state r = CREATED ∨ row_state r = UPLOADING) (rows db)).

End Queries.
Export Queries.

(* ===================================================================== *)
Module Ingest.
(* ===================================================================== *)
(* src/storage/local_buffer.py, the registration of new files. *)

(* Path.name of the path of a file: the text after the last slash. *)
Fixpoint after_last_slash (p : string) : option string :=
  match p with
  | EmptyString => None
  | String c p' =>
      match after_last_slash p' with
      | Some n => Some n
      | None => if Ascii.eqb c slash then Some p' else None
      end
  end.

Definition name (p : string) : string := default p (after_last_slash p).

(* Segment.from_file(path) with its __post_init__: the size is read from
   the file when the file exists. *)
Definition from_path (now : datetime) (fs : FS) (path : string) : Segment :=
  from_file now path (name path) (default 0 (fs !! path)).

(* LocalBuffer as _handle_new_segment changes it.  The callback
   on_new_segment is Pipeline._on_new_segment, which puts the segment on
   the queue of the uploader: [queue] lists those calls, oldest first. *)
Record Watcher : Type := mkWatcher {
  store : Database;
  segments_processed : Z;
  queue : list Segment
}.

(* _handle_new_segment; the except clause logs and drops a DatabaseError. *)
Definition handle_new_segment (now : datetime) (fs : FS) (w : Watcher) (path : string)
  : Watcher :=
  match get_segment_by_filename (name path) (store w) with
  | Some _ => w
  | None =>
      match add_segment (from_path now fs path) (store w) with
      | Ok (segment, db') =>
          {| store := db';
             segments_processed := segments_processed w + 1;
             queue := queue w ++ [segment] |}
      | Raise _ => w
      end
  end.

(* _process_existing_segments; [existing_files] is
   sorted(self.segments_dir.glob('*.ts')), each path with what
   datetime.now() returns when its turn comes. *)
Definition process_existing_segments (fs : FS)
    (existing_files : list (datetime * string)) (w : Watcher) : Watcher :=
  foldl (λ w f, handle_new_segment f.1 fs w f.2) w existing_files.

(* get_pending_count: counts.get('created', 0) *)
Definition get_pending_count (w : Watcher) : Z :=
  default 0 (count_by_state (store w) !! CREATED).

(* What Pipeline.start does to the store and to the upload queue before
   capture begins: reset_uploading_segments, a fresh uploader with an
   empty queue, then LocalBuffer.start with its scan of the directory. *)
Definition startup (fs : FS) (existing_files : list (datetime * string))
    (db : Database) : Watcher :=
  process_existing_segments fs existing_files
    {| store := (reset_uploading_segments db).2; segments_processed := 0; queue := [] |}.

End Ingest.
Export Ingest.

(* ===================================================================== *)
Module Health.
(* ===================================================================== *)
(* src/capture/health_check.py *)

(* HealthChecker: its own fields, the fields of HealthStatus that
   _perform_check writes, and the messages given to on_health_issue. *)
Record HealthChecker : Type := mkHealthChecker {
  stale_threshold : Z;                       (* seconds *)
  last_segment_time : option datetime;
  last_segment_count : Z;
  capture_running : bool;
  ffmpeg_restarts : Z;
  status_last_segment_time : option datetime;
  issues : list string
}.

(* What one check reads: the segmenter manager, the directory (None when
   it does not exist, else the st_mtime of every *.ts file in it) and the
   clock. *)
Record Probe : Type := mkProbe {
  segmenter_is_running : bool;
  segmenter_restart_count : Z;
  ts_mtimes : option (list datetime);
  probed_at : datetime
}.

Definition new_checker (threshold : Z) : HealthChecker :=
  {| stale_threshold := threshold; last_segment_time := None;
     last_segment_count := 0; capture_running := false; ffmpeg_restarts := 0;
     status_last_segment_time := None; issues := [] |}.

(* the st_mtime of max(ts_files, key=mtime) *)
Definition newest_mtime (first : datetime) (others : list datetime) : datetime :=
  foldl Z.max first others.

Definition check_segments (p : Probe) (h : HealthChecker) : HealthChecker :=
  match ts_mtimes p with
  | None => h
  | Some files =>
      let seen :=
        match files with
        | [] => (last_segment_time h, status_last_segment_time h)
        | t :: rest =>
            let newest := newest_mtime t rest in
            match last_segment_time h with
            | None => (Some newest, Some newest)
            | Some last =>
                if last <? newest then (Some newest, Some newest)
                else (last_segment_time h, status_last_segment_time h)
            end
        end in
      {| stale_threshold := stale_threshold h;
         last_segment_time := seen.1;
         last_segment_count := Z.of_nat (length files);
         capture_running := capture_running h;
         ffmpeg_restarts := ffmpeg_restarts h;
         status_last_segment_time := seen.2;
         issues := issues h |}
  end.

(* (datetime.now() - last_segment_time).total_seconds() > stale_threshold *)
Definition is_stale (now : datetime) (h : HealthChecker) : bool :=
  match last_segment_time h with
  | None => false
  | Some last => 1000000 * stale_threshold h <? now - last
  end.

Definition report_issue (message : string) (h : HealthChecker) : HealthChecker :=
  {| stale_threshold := stale_threshold h;
     last_segment_time := last_segment_time h;
     last_segment_count := last_segment_count h;
     capture_running := capture_running h;
     ffmpeg_restarts := ffmpeg_restarts h;
     status_last_segment_time := status_last_segment_time h;
     issues := issues h ++ [message] |}.

Definition not_running_message : string := "Capture process not running".

Definition stale_message (threshold : Z) : string :=
  "Stale segments - no new files in " +:+ pretty threshold +:+ "s".

Definition perform_check (h : HealthChecker) (p : Probe) : HealthChecker :=
  let h1 := {| stale_threshold := stale_threshold h;
               last_segment_time := last_segment_time h;
               last_segment_count := last_segment_count h;
               capture_running := segmenter_is_running p;
               ffmpeg_restarts := segmenter_restart_count p;
               status_last_segment_time := status_last_segment_time h;
               issues := issues h |} in
  let h2 := check_segments p h1 in
  if negb (capture_running h2) then report_issue not_running_message h2
  else if is_stale (probed_at p) h2 then report_issue (stale_message (stale_threshold h2)) h2
  else h2.

(* _check_loop over the checks it makes *)
Definition check_loop (probes : list Probe) (h : HealthChecker) : HealthChecker :=
  foldl perform_check h probes.

End Health.

(* ===================================================================== *)
Module Capture.
(* ===================================================================== *)
(* src/capture/segmenter.py, class Segmenter: the process handle. *)

Inductive CaptureExn : Type :=
| SegmentationError (msg : string).

(* What subprocess.Popen does with the FFmpeg command. *)
Inductive Popen : Type :=
| Spawned (pid : Z)
| NoSuchFile                   (* FileNotFoundError *)
| OtherFailure (msg : string). (* any other exception, with its text *)

Record Segmenter : Type := mkSegmenter {
  process : option Z;
  running : bool
}.

(* __init__, with ffmpeg on the PATH *)
Definition new_segmenter : Segmenter := {| process := None; running := false |}.

(* is_running; [exited] tells whether process.poll() returns an exit code *)
Definition is_running (exited : bool) (s : Segmenter) : bool :=
  running s && bool_decide (is_Some (process s)) && negb exited.

Definition start (popen : Popen) (s : Segmenter) : CaptureExn + Segmenter :=
  if running s then inl (SegmentationError "Segmenter already running")
  else
    match popen with
    | Spawned pid => inr {| process := Some pid; running := true |}
    | NoSuchFile => inl (SegmentationError "ffmpeg not found")
    | OtherFailure msg => inl (SegmentationError ("Failed to start FFmpeg: " +:+ msg))
    end.

(* stop: whatever the signals and waits do, the finally clause clears the
   handle. *)
Definition stop (s : Segmenter) : Segmenter :=
  if negb (running s) || negb (bool_decide (is_Some (process s))) then s
  else {| process := None; running := false |}.

End Capture.

(* ===================================================================== *)
Module Manifest.
(* ===================================================================== *)
(* src/storage/manifest.py, class ManifestGenerator *)

Record ManifestConfig : Type := mkManifestConfig {
  segment_duration : Z;     (* capture.segment_duration, an int *)
  playlist_segments : Z     (* server.playlist_segments *)
}.

Definition nl : string := String (Ascii.ascii_of_nat 10) EmptyString.

(* PLAYLIST_HEADER.format(target_duration=..., media_sequence=...) *)
Definition playlist_header (target_duration media_sequence : Z) : string :=
  "#EXTM3U" +:+ nl +:+
  "#EXT-X-VERSION:3" +:+ nl +:+
  "#EXT-X-TARGETDURATION:" +:+ pretty target_duration +:+ nl +:+
  "#EXT-X-MEDIA-SEQUENCE:" +:+ pretty media_sequence +:+ nl.

(* SEGMENT_ENTRY.format(duration=float(d), filename=...): an int d prints
   under :.3f as its digits followed by .000 *)
Definition segment_entry (duration : Z) (file : string) : string :=
  "#EXTINF:" +:+ pretty duration +:+ ".000," +:+ nl +:+ file +:+ nl.

(* segments[-n:] of Python: the last n items for n > 0, everything for
   n = 0, and segments[k:] for n = -k < 0. *)
Definition last_slice {A} (n : Z) (l : list A) : list A :=
  if 0 <? n then drop (length l - Z.to_nat n) l
  else drop (Z.to_nat (- n)) l.

Definition generate_live_playlist (cfg : ManifestConfig) (segments : list string)
    (media_sequence : Z) : string :=
  foldl (λ content f, content +:+ segment_entry (segment_duration cfg) f)
    (playlist_header (segment_duration cfg) media_sequence)
    (last_slice (playlist_segments cfg) segments).

Definition generate_vod_playlist (cfg : ManifestConfig) (segments : list Segment)
    (include_endlist : bool) : string :=
  match segments with
  | [] => ""
  | _ =>
      let content :=
        foldl (λ content s, content +:+ segment_entry (segment_duration cfg) (filename s))
          (playlist_header (segment_duration cfg) 0 +:+ "#EXT-X-PLAYLIST-TYPE:VOD" +:+ nl)
          segments in
      if include_endlist then content +:+ "#EXT-X-ENDLIST" +:+ nl else content
  end.

(* sorted(segments, key=lambda s: s.created_at): stable *)
Fixpoint insert_sorted (s : Segment) (l : list Segment) : list Segment :=
  match l with
  | [] => [s]
  | x :: l' => if created_at s <=? created_at x then s :: l else x :: insert_sorted s l'
  end.

Definition sorted_by_created_at (l : list Segment) : list Segment :=
  foldr insert_sorted [] l.

Definition generate_hourly_manifest (cfg : ManifestConfig) (segments : list Segment)
    (hour : datetime) : string :=
  generate_vod_playlist cfg (sorted_by_created_at segments) true.

End Manifest.

(* ===================================================================== *)
(* Vocabulary of the properties                                          *)
(* ===================================================================== *)

(* uploadedAt and remoteKey are both non-null *)
Definition uploaded_fields_set (s : Segment) : Prop :=
  is_Some (uploaded_at s) ∧ is_Some (s3_key s).

#[global] Instance uploaded_fields_set_dec s : Decision (uploaded_fields_set s).
Proof. unfold uploaded_fields_set. apply _. Defined.

(* The calls that move a segment through its lifecycle: the four mark_*
   methods of Segment.  None of them looks at the state it is called in. *)
Inductive Transition : Type :=
| MarkUploading
| MarkUploaded (now : datetime) (key bucket : string)
| MarkFailed (error : string)
| MarkCleaned.

Definition transition (s : Segment) (t : Transition) : Segment :=
  match t with
  | MarkUploading => mark_uploading s
  | MarkUploaded now key bucket => mark_uploaded now key bucket s
  | MarkFailed error => mark_failed error s
  | MarkCleaned => mark_cleaned s
  end.

Definition transitions (s : Segment) (ts : list Transition) : Segment :=
  foldl transition s ts.

(* ORDER BY key ASC *)
Definition ascending (key : Row → Z) : Row → Row → Prop := λ a b, key a ≤ key b.

(* The disk once the local files of the given segments are gone. *)
Definition without_files (segs : list Segment) (fs : FS) : FS :=
  foldl (λ f s, unlink f (filepath s)) fs segs.

(* ===================================================================== *)
Module Examples.
(* ===================================================================== *)

Definition seg_a : Segment := from_file 100 "/buf/a.ts" "a.ts" 1000.

Definition row_a : Row :=
  mkRow 1 "a.ts" "/buf/a.ts" 100 None CREATED 0 None None None 1000.
Definition row_b : Row :=
  mkRow 2 "b.ts" "/buf/b.ts" 200 None UPLOADING 1 None None None 3000.
Definition row_c : Row :=
  mkRow 3 "c.ts" "/buf/c.ts" 300 (Some 400) UPLOADED 1 None
        (Some "cam/c.ts") (Some "bkt") 5000.

(* c.ts after its first upload attempt succeeded *)
Definition seg_c_uploaded : Segment :=
  mark_uploaded 400 "cam/c.ts" "bkt"
    (mark_uploading (from_file 300 "/buf/c.ts" "c.ts" 5000)).

Definition db_abc : Database := {| rows := [row_a; row_b; row_c]; sqlite_sequence := 3 |}.

(* a segment carrying an id that no row has *)
Definition seg_stray : Segment :=
  {| filename := "z.ts"; filepath := "/buf/z.ts"; created_at := 100;
     uploaded_at := None; state := UPLOADING; upload_attempts := 1;
     last_error := None; s3_key := None; s3_bucket := None;
     file_size := 10; id := Some 99999 |}.

Definition s3_cfg : S3Config :=
  {| bucket := "bkt"; prefix := λ _, "cam/"; max_retries := 5;
     retry_delay := 5; multipart_threshold := 8388608 |}.

Definition s3_always_ok : S3 := λ _ _ _, None.
Definition s3_always_down : S3 := λ _ _ _, Some (Botocore "EndpointConnectionError").

Definition world_with (fs : FS) : World :=
  {| db := db_abc; disk := fs; upload_count := 0; error_count := 0; clock := 500 |}.

Definition disk_abc : FS :=
  {[ "/buf/a.ts" := 1000; "/buf/b.ts" := 3000; "/buf/c.ts" := 5000;
     "/buf/live.m3u8" := 200 ]}.

Definition buf_cfg : StorageConfig :=
  {| segments_dir := "/buf"; local_buffer_minutes := 30; max_disk_usage_mb := 2000 |}.

(* Fifty-one uploaded segments of one mebibyte each under a ceiling of
   one megabyte. *)
Definition tiny_cfg : StorageConfig :=
  {| segments_dir := "/buf"; local_buffer_minutes := 30; max_disk_usage_mb := 1 |}.

Definition nth_name (i : nat) : string := "seg_" +:+ pretty i +:+ ".ts".

Definition nth_row (i : nat) : Row :=
  mkRow (Z.of_nat i) (nth_name i) ("/buf/" +:+ nth_name i) (Z.of_nat i)
        (Some 1000) UPLOADED 1 None (Some ("cam/" +:+ nth_name i)) (Some "bkt") 1048576.

Definition db_51 : Database :=
  {| rows := nth_row <$> seq 1 51; sqlite_sequence := 51 |}.

Definition disk_51 : FS :=
  list_to_map ((λ r, (row_filepath r, row_file_size r)) <$> rows db_51).

(* The same disk under a ceiling of forty megabytes. *)
Definition mid_cfg : StorageConfig :=
  {| segments_dir := "/buf"; local_buffer_minutes := 30; max_disk_usage_mb := 40 |}.

(* one hour after the epoch of the example timestamps, in microseconds *)
Definition one_hour : datetime := 3600000000.

Definition quota_cfg : HealthConfig := {| max_restarts := 3; restart_window := 300 |}.

End Examples.

(* ===================================================================== *)
(* Vocabulary of the further properties                                  *)
(* ===================================================================== *)

(* The calls that write to the store. *)
Inductive StoreOp : Type :=
| OpAdd (s : Segment)
| OpUpdate (s : Segment)
| OpReset
| OpPurge (utc_now : datetime) (days : Z).

(* The store after one call; a call that raises has been rolled back. *)
Definition apply_op (d : Database) (o : StoreOp) : Database :=
  match o with
  | OpAdd s => db_after (add_segment s d) d
  | OpUpdate s => match update_segment s d with Ok d' => d' | Raise _ => d end
  | OpReset => (reset_uploading_segments d).2
  | OpPurge utc_now days => (cleanup_old_records utc_now days d).2
  end.

Definition apply_ops (ops : list StoreOp) (d : Database) : Database :=
  foldl apply_op d ops.

(* PRIMARY KEY on id, UNIQUE on filename, and AUTOINCREMENT's counter at
   or above every id in use. *)
Definition store_ok (d : Database) : Prop :=
  NoDup (ids d) ∧ NoDup (filenames d) ∧ ∀ i, i ∈ ids d → 0 < i ≤ sqlite_sequence d.

(* The rows in a given state. *)
Definition in_state (st : SegmentState) (d : Database) : list Row :=
  filter (λ r, row_state r = st) (rows d).

(* A row that get_uploaded_segments takes for old enough. *)
Definition past_buffer (now : datetime) (minutes : Z) (r : Row) : Prop :=
  0 ≤ minutes
  ∧ ∃ t, row_uploaded_at r = Some t
         ∧ sql_datetime t < sql_datetime_minus now (60 * minutes).

(* The newest of the mtimes seen, if any. *)
Definition newest_of (l : list datetime) : option datetime :=
  match l with
  | [] => None
  | t :: rest => Some (foldl Z.max t rest)
  end.

(* The mtimes that a run of checks has met. *)
Definition mtimes_seen (probes : list Health.Probe) : list datetime :=
  concat ((λ p, default [] (Health.ts_mtimes p)) <$> probes).

(* What a check reports, given the newest mtime met so far. *)
Definition issue_of (threshold : Z) (p : Health.Probe) (newest : option datetime) : list string :=
  if negb (Health.segmenter_is_running p) then [Health.not_running_message]
  else match newest with
       | Some t => if 1000000 * threshold <? Health.probed_at p - t
                   then [Health.stale_message threshold] else []
       | None => []
       end.

(* The calls made on a Segmenter; a start() that raises leaves it as it was. *)
Inductive SegmenterCall : Type :=
| CallStart (popen : Capture.Popen)
| CallStop.

Definition after_call (s : Capture.Segmenter) (c : SegmenterCall) : Capture.Segmenter :=
  match c with
  | CallStart popen => match Capture.start popen s with inr s' => s' | inl _ => s end
  | CallStop => Capture.stop s
  end.

(* Created strictly earlier. *)
Definition older_than (a b : Segment) : Prop := created_at a < created_at b.

(* The restarts made since the current window began. *)
Definition restarts_in_window (m : Manager) : list Z :=
  filter (λ t, window_start m ≤ t) (restarts m).

(* What every iteration of the monitor loop keeps true: the counter is the
   number of restarts made since the window began, it stays within the
   quota, and no restart lies in the future. *)
Definition quota_kept (cfg : HealthConfig) (m : Manager) : Prop :=
  restart_count m = Z.of_nat (length (restarts_in_window m))
  ∧ 0 ≤ restart_count m ≤ max_restarts cfg
  ∧ window_start m ≤ now m
  ∧ ∀ t, t ∈ restarts m → t ≤ now m.

(* ===================================================================== *)
Module MoreExamples.
(* ===================================================================== *)

(* a.ts with fields that add_segment does not write *)
Definition seg_a_dirty : Segment :=
  {| filename := "a.ts"; filepath := "/buf/a.ts"; created_at := 100;
     uploaded_at := Some 7; state := CREATED; upload_attempts := 3;
     last_error := Some "old"; s3_key := Some "k"; s3_bucket := Some "b";
     file_size := 1000; id := None |}.

(* row b of the example store after a successful upload, renamed in memory *)
Definition seg_b_done : Segment :=
  {| filename := "renamed.ts"; filepath := "/elsewhere/b.ts"; created_at := 999;
     uploaded_at := Some 450; state := UPLOADED; upload_attempts := 2;
     last_error := None; s3_key := Some "cam/b.ts"; s3_bucket := Some "bkt";
     file_size := 1; id := Some 2 |}.

Definition row_d : Row :=
  mkRow 4 "d.ts" "/buf/d.ts" 50 (Some 60) CLEANED 1 None
        (Some "cam/d.ts") (Some "bkt") 700.

Definition db_abcd : Database :=
  {| rows := [Examples.row_a; Examples.row_b; Examples.row_c; row_d];
     sqlite_sequence := 4 |}.

(* eight days, in microseconds *)
Definition eight_days : datetime := 8 * 86400 * 1000000.

(* A cleaned row written where the local clock is five hours behind UTC,
   6 days and 21 hours before eight_days on the UTC clock. *)
Definition five_hours_west : Z := - (5 * 3600 * 1000000).
Definition created_utc_w : datetime := eight_days - (6 * 86400 + 21 * 3600) * 1000000.
Definition row_w : Row :=
  mkRow 5 "w.ts" "/buf/w.ts" (created_utc_w + five_hours_west) (Some 60) CLEANED 1 None
        (Some "cam/w.ts") (Some "bkt") 700.
Definition db_w : Database := {| rows := [row_w]; sqlite_sequence := 5 |}.

(* no connection twice, then accepts *)
Definition s3_third_time : S3 :=
  λ _ attempt _, if attempt <? 3 then Some (Botocore "ConnectTimeoutError") else None.

(* the service refuses every request *)
Definition s3_access_denied : S3 := λ _ _ _, Some (UploadFailed "AccessDenied").

Definition watcher_abc : Watcher :=
  {| store := Examples.db_abc; segments_processed := 0; queue := [] |}.

Definition probe_fresh : Health.Probe :=
  {| Health.segmenter_is_running := true; Health.segmenter_restart_count := 0;
     Health.ts_mtimes := Some [10000000; 25000000; 20000000];
     Health.probed_at := 40000000 |}.

Definition probe_quiet : Health.Probe :=
  {| Health.segmenter_is_running := true; Health.segmenter_restart_count := 0;
     Health.ts_mtimes := Some [10000000];
     Health.probed_at := 90000000 |}.

Definition manifest_cfg : Manifest.ManifestConfig :=
  {| Manifest.segment_duration := 10; Manifest.playlist_segments := 2 |}.

End MoreExamples.
(* ===================================================================== *)
(* Facts about the segment store                                         *)
(* ===================================================================== *)

Section StoreFacts.

Implicit Types (db : Database) (s : Segment) (r : Row).

Lemma add_segment_fresh s db :
  filename s ∉ filenames db →
  ∃ s' db', add_segment s db = Ok (s', db')
    ∧ filenames db' = filenames db ++ [filename s].
Proof.
  intros Hfresh. unfold add_segment.
  rewrite bool_decide_eq_false_2 by done.
  eexists _, _. split; [reflexivity|].
  unfold filenames; simpl. by rewrite fmap_app.
Qed.

Lemma add_segment_known s db :
  filename s ∈ filenames db →
  add_segment s db = Raise (DatabaseError unique_violation).
Proof.
  intros Hin. unfold add_segment. by rewrite bool_decide_eq_true_2.
Qed.

(* The UNIQUE index: no Add breaks it. *)
Lemma add_segment_keeps_unique s db :
  NoDup (filenames db) → NoDup (filenames (db_after (add_segment s db) db)).
Proof.
  intros Hnd. destruct (decide (filename s ∈ filenames db)) as [Hin|Hout].
  - by rewrite add_segment_known.
  - destruct (add_segment_fresh s db Hout) as (s' & db' & -> & Hnames).
    simpl. rewrite Hnames. apply NoDup_app. split_and!; [done| |apply NoDup_singleton].
    intros x Hx ->%list_elem_of_singleton. done.
Qed.

Lemma add_all_keeps_unique segs db :
  NoDup (filenames db) → NoDup (filenames (add_all segs db)).
Proof.
  revert db. induction segs as [|s segs IH]; intros db Hnd; [done|].
  apply IH. by apply add_segment_keeps_unique.
Qed.

Lemma unique_filename_one_row (l : list Row) (name : string) :
  NoDup (row_filename <$> l) → name ∈ (row_filename <$> l) →
  length (filter (λ r, row_filename r = name) l) = 1%nat.
Proof.
  induction l as [|r l IH]; simpl; intros Hnd Hin.
  - by apply elem_of_nil in Hin.
  - apply NoDup_cons in Hnd as [Hr Hnd].
    destruct (decide (row_filename r = name)) as [Heq|Hne].
    + rewrite filter_cons_True by done. simpl. f_equal.
      assert (filter (λ r0, row_filename r0 = name) l = []) as ->; [|done].
      destruct (filter _ l) as [|x xs] eqn:Hf; [done|].
      assert (x ∈ filter (λ r0, row_filename r0 = name) l) as Hx
        by (rewrite Hf; left).
      apply list_elem_of_filter in Hx as [Hxn Hxl].
      exfalso. apply Hr. rewrite Heq, <- Hxn. by apply list_elem_of_fmap_2.
    + rewrite filter_cons_False by done. apply IH; [done|].
      apply elem_of_cons in Hin as [Hin|Hin]; [congruence|done].
Qed.

Lemma update_segment_ok s db n :
  id s = Some n →
  update_segment s db =
    Ok {| rows := (λ r, if bool_decide (row_id r = n) then overwrite s r else r) <$> rows db;
          sqlite_sequence := sqlite_sequence db |}.
Proof. intros Hid. unfold update_segment, update_segment_on. by rewrite Hid. Qed.

Lemma update_segment_absent s db n :
  id s = Some n → n ∉ ids db → update_segment s db = Ok db.
Proof.
  intros Hid Hout. rewrite (update_segment_ok s db n Hid).
  f_equal. destruct db as [l q]; simpl in *. f_equal.
  unfold ids in Hout; simpl in Hout.
  induction l as [|r l IH]; [done|]. simpl.
  rewrite fmap_cons in Hout. apply not_elem_of_cons in Hout as [Hne Hout].
  rewrite bool_decide_eq_false_2 by congruence. f_equal. by apply IH.
Qed.

Lemma reset_row_state r : row_state (reset_row r) ≠ UPLOADING.
Proof.
  unfold reset_row. case_bool_decide; simpl; [done|done].
Qed.

Lemma reset_row_fixed r : row_state r ≠ UPLOADING → reset_row r = r.
Proof. intros H. unfold reset_row. by rewrite bool_decide_eq_false_2. Qed.

Lemma filter_none_length {A} (P : A → Prop) `{!∀ x, Decision (P x)} (l : list A) :
  (∀ x, x ∈ l → ¬ P x) → filter P l = [].
Proof.
  induction l as [|x l IH]; intros Hno; [done|].
  rewrite filter_cons_False by (apply Hno; left).
  apply IH. intros y Hy. apply Hno. by right.
Qed.

End StoreFacts.

(* ===================================================================== *)
(* SegmentStore: the claims about add, update and reset                  *)
(* ===================================================================== *)

(** C2. On a store that satisfies its UNIQUE constraint on filename, and
    after any sequence of add_segment calls on it, adding a segment whose
    filename is already present raises DatabaseError (the UNIQUE
    constraint failure, the store's duplicate-segment error), leaves the
    store as it was, and that filename still has exactly one row. *)
Theorem add_segment_duplicate_rejected (d0 : Database) (segs : list Segment) (s : Segment) :
  NoDup (filenames d0) →
  filename s ∈ filenames (add_all segs d0) →
  add_segment s (add_all segs d0) = Raise (DatabaseError unique_violation)
  ∧ add_all (segs ++ [s]) d0 = add_all segs d0
  ∧ length (filter (λ r, row_filename r = filename s)
              (rows (add_all (segs ++ [s]) d0))) = 1%nat.
Proof.
  intros Hunique Hin.
  pose proof (add_segment_known s _ Hin) as Hraise.
  assert (add_all (segs ++ [s]) d0 = add_all segs d0) as Hsame.
  { unfold add_all. rewrite foldl_snoc. fold (add_all segs d0).
    by rewrite Hraise. }
  split_and!; [done|done|].
  rewrite Hsame. apply unique_filename_one_row; [|done].
  by apply add_all_keeps_unique.
Qed.

Lemma add_segment_duplicate_rejected_witness :
  NoDup (filenames empty_db)
  ∧ filename Examples.seg_a ∈ filenames (add_all [Examples.seg_a] empty_db)
  ∧ add_segment Examples.seg_a (add_all [Examples.seg_a] empty_db)
      = Raise (DatabaseError unique_violation)
  ∧ add_all ([Examples.seg_a] ++ [Examples.seg_a]) empty_db
      = add_all [Examples.seg_a] empty_db
  ∧ length (filter (λ r, row_filename r = filename Examples.seg_a)
              (rows (add_all ([Examples.seg_a] ++ [Examples.seg_a]) empty_db))) = 1%nat.
Proof.
  assert (NoDup (filenames empty_db)) as Hunique by (vm_compute; constructor).
  assert (filename Examples.seg_a ∈ filenames (add_all [Examples.seg_a] empty_db)) as Hin
    by (vm_compute; left).
  split; [exact Hunique|]. split; [exact Hin|].
  exact (add_segment_duplicate_rejected empty_db [Examples.seg_a] Examples.seg_a Hunique Hin).
Defined.

(** C7. reset_uploading_segments is idempotent: a second run resets
    nothing and changes nothing; after one run no row is UPLOADING; the
    first run counts the UPLOADING rows, turns each of them into CREATED
    with its other columns kept, and leaves every other row as it was. *)
Theorem reset_uploading_segments_idempotent (db : Database) :
  let once := reset_uploading_segments db in
  let twice := reset_uploading_segments once.2 in
  twice.1 = 0
  ∧ twice.2 = once.2
  ∧ (∀ r, r ∈ rows once.2 → row_state r ≠ UPLOADING)
  ∧ once.1 = Z.of_nat (length (filter (λ r, row_state r = UPLOADING) (rows db)))
  ∧ length (rows once.2) = length (rows db)
  ∧ sqlite_sequence once.2 = sqlite_sequence db
  ∧ (∀ (i : nat) r, rows db !! i = Some r →
       ∃ r', rows once.2 !! i = Some r'
         ∧ (row_state r ≠ UPLOADING → r' = r)
         ∧ (row_state r = UPLOADING →
              row_state r' = CREATED
              ∧ row_id r' = row_id r
              ∧ row_filename r' = row_filename r
              ∧ row_filepath r' = row_filepath r
              ∧ row_created_at r' = row_created_at r
              ∧ row_uploaded_at r' = row_uploaded_at r
              ∧ row_upload_attempts r' = row_upload_attempts r
              ∧ row_last_error r' = row_last_error r
              ∧ row_s3_key r' = row_s3_key r
              ∧ row_s3_bucket r' = row_s3_bucket r
              ∧ row_file_size r' = row_file_size r)).
Proof.
  intros once twice. subst once twice. simpl.
  assert (∀ r, r ∈ reset_row <$> rows db → row_state r ≠ UPLOADING) as Hnone.
  { intros r (r0 & -> & _)%list_elem_of_fmap. apply reset_row_state. }
  split_and!.
  - rewrite filter_none_length; [done|]. intros r Hr. by apply Hnone.
  - f_equal. rewrite <- list_fmap_compose. apply list_fmap_ext.
    intros i r _. simpl. apply reset_row_fixed, reset_row_state.
  - done.
  - done.
  - by rewrite length_fmap.
  - done.
  - intros i r Hi. exists (reset_row r). split_and!.
    + by rewrite list_lookup_fmap, Hi.
    + apply reset_row_fixed.
    + intros Hup. unfold reset_row. rewrite bool_decide_eq_true_2 by done.
      simpl. done.
Qed.

(** C10. update_segment on a segment that has an id keeps the number and
    order of the rows; every row keeps its id, filename, filepath,
    created_at and file_size; a row with another id is untouched; the row
    with the segment's id gets the segment's state, upload_attempts,
    last_error, uploaded_at, s3_key and s3_bucket. *)
Theorem update_segment_frame (s : Segment) (db : Database) (n : Z) :
  id s = Some n →
  ∃ db', update_segment s db = Ok db'
    ∧ length (rows db') = length (rows db)
    ∧ sqlite_sequence db' = sqlite_sequence db
    ∧ ∀ (i : nat) (r : Row), rows db !! i = Some r →
        ∃ r', rows db' !! i = Some r'
          ∧ row_id r' = row_id r
          ∧ row_filename r' = row_filename r
          ∧ row_filepath r' = row_filepath r
          ∧ row_created_at r' = row_created_at r
          ∧ row_file_size r' = row_file_size r
          ∧ (row_id r ≠ n → r' = r)
          ∧ (row_id r = n →
               row_state r' = state s
               ∧ row_upload_attempts r' = upload_attempts s
               ∧ row_last_error r' = last_error s
               ∧ row_uploaded_at r' = uploaded_at s
               ∧ row_s3_key r' = s3_key s
               ∧ row_s3_bucket r' = s3_bucket s).
Proof.
  intros Hid. eexists. split; [by apply update_segment_ok|]. simpl.
  split_and!; [by rewrite length_fmap|done|].
  intros i r Hi. eexists. split; [by rewrite list_lookup_fmap, Hi|].
  case_bool_decide as Hn; simpl; split_and!; try done.
Qed.

Lemma update_segment_frame_witness :
  id (mark_uploading (from_dict Examples.row_b)) = Some 2
  ∧ ∃ db', update_segment (mark_uploading (from_dict Examples.row_b)) Examples.db_abc = Ok db'
      ∧ rows db' !! 0%nat = Some Examples.row_a
      ∧ rows db' !! 2%nat = Some Examples.row_c
      ∧ ∃ r', rows db' !! 1%nat = Some r'
          ∧ row_filename r' = "b.ts" ∧ row_upload_attempts r' = 2.
Proof.
  split; [reflexivity|].
  destruct (update_segment_frame (mark_uploading (from_dict Examples.row_b))
              Examples.db_abc 2 eq_refl) as (db' & Hup & _ & _ & Hrows).
  exists db'. split; [exact Hup|].
  destruct (Hrows 0%nat Examples.row_a eq_refl) as (ra & Ha & _ & _ & _ & _ & _ & Hsame_a & _).
  destruct (Hrows 2%nat Examples.row_c eq_refl) as (rc & Hc & _ & _ & _ & _ & _ & Hsame_c & _).
  destruct (Hrows 1%nat Examples.row_b eq_refl)
    as (rb & Hb & _ & Hname & _ & _ & _ & _ & Hnew).
  split_and!.
  - rewrite Ha. f_equal. apply Hsame_a. vm_compute. discriminate.
  - rewrite Hc. f_equal. apply Hsame_c. vm_compute. discriminate.
  - exists rb. split_and!; [exact Hb|exact Hname|].
    destruct (Hnew eq_refl) as (_ & Hatt & _). exact Hatt.
Defined.

(* The reset at a concrete store: rows a (CREATED), b (UPLOADING), c (UPLOADED). *)
Lemma reset_uploading_segments_idempotent_witness :
  (reset_uploading_segments (reset_uploading_segments Examples.db_abc).2).1 = 0
  ∧ (reset_uploading_segments Examples.db_abc).1 = 1
  ∧ ∃ r', rows (reset_uploading_segments Examples.db_abc).2 !! 1%nat = Some r'
      ∧ row_state r' = CREATED ∧ row_upload_attempts r' = 1.
Proof.
  destruct (reset_uploading_segments_idempotent Examples.db_abc)
    as (Hzero & _ & _ & Hcount & _ & _ & Hrows).
  split; [exact Hzero|]. split; [rewrite Hcount; reflexivity|].
  destruct (Hrows 1%nat Examples.row_b eq_refl) as (r' & Hr' & _ & Hup).
  exists r'. split; [exact Hr'|].
  destruct (Hup eq_refl) as (Hst & _ & _ & _ & _ & _ & Hatt & _).
  split; [exact Hst|rewrite Hatt; reflexivity].
Defined.

(* Counterexample to C8 as stated: a segment whose id no row has is
   updated without any error, and nothing is written. *)
Lemma update_segment_absent_id_counterexample :
  id Examples.seg_stray = Some 99999
  ∧ (99999 ∉ ids Examples.db_abc)
  ∧ is_raise (update_segment Examples.seg_stray Examples.db_abc) = false
  ∧ update_segment Examples.seg_stray Examples.db_abc = Ok Examples.db_abc.
Proof.
  split_and!; [reflexivity| |reflexivity|reflexivity].
  vm_compute. intros H. repeat (apply elem_of_cons in H as [H|H]; [discriminate|]).
  by apply elem_of_nil in H.
Qed.

(** C8, amended. update_segment raises DatabaseError in two cases and in
    no other: the segment has no id (the check made before SQLite is
    asked), or SQLite itself raises an error on the UPDATE, which _cursor
    rolls back.  An id that no row of the store carries is not an error:
    when SQLite executes the UPDATE it matches no row, the call returns
    normally and the store is unchanged. *)
Theorem update_segment_not_found (sqlite : Sqlite) (s : Segment) (db : Database) :
  (id s = None → update_segment_on sqlite s db = Raise (DatabaseError no_id))
  ∧ (∀ n msg, id s = Some n → sqlite = Fails msg →
       update_segment_on sqlite s db = Raise (DatabaseError (operation_failed msg)))
  ∧ (∀ n, id s = Some n → sqlite = Executes → n ∉ ids db →
       update_segment_on sqlite s db = Ok db)
  ∧ (is_raise (update_segment_on sqlite s db) = true
     ↔ id s = None ∨ ∃ msg, sqlite = Fails msg).
Proof.
  split_and!.
  - intros Hid. unfold update_segment_on. by rewrite Hid.
  - intros n msg Hid ->. unfold update_segment_on. by rewrite Hid.
  - intros n Hid -> Hout. by apply (update_segment_absent s db n).
  - unfold update_segment_on.
    destruct (id s) as [n|]; [|split; [by left|done]].
    destruct sqlite as [|msg]; simpl.
    + split; [done|]. by intros [|[? ?]].
    + split; [|done]. intros _. right. by eexists.
Qed.

Lemma update_segment_not_found_witness :
  update_segment_on Executes Examples.seg_a Examples.db_abc = Raise (DatabaseError no_id)
  ∧ update_segment_on (Fails "database is locked") Examples.seg_stray Examples.db_abc
    = Raise (DatabaseError "Database operation failed: database is locked")
  ∧ update_segment_on Executes Examples.seg_stray empty_db = Ok empty_db.
Proof.
  split_and!.
  - exact (proj1 (update_segment_not_found Executes Examples.seg_a Examples.db_abc) eq_refl).
  - exact (proj1 (proj2 (update_segment_not_found (Fails "database is locked")
                           Examples.seg_stray Examples.db_abc))
             99999 "database is locked" eq_refl eq_refl).
  - apply (proj1 (proj2 (proj2 (update_segment_not_found Executes Examples.seg_stray
                                  empty_db))) 99999).
    + reflexivity.
    + reflexivity.
    + vm_compute. apply not_elem_of_nil.
Defined.

(* ===================================================================== *)
(* Segment lifecycle: state against uploaded_at and s3_key               *)
(* ===================================================================== *)

Section LifecycleFacts.

Lemma head_filter_fmap_overwrite (s : Segment) (n : Z) (l : list Row) (r' : Row) :
  head (filter (λ r, row_id r = n)
          ((λ r, if bool_decide (row_id r = n) then overwrite s r else r) <$> l)) = Some r' →
  row_state r' = state s
  ∧ row_uploaded_at r' = uploaded_at s
  ∧ row_s3_key r' = s3_key s.
Proof.
  induction l as [|r l IH]; [done|].
  rewrite fmap_cons.
  destruct (decide (row_id r = n)) as [Heq|Hne].
  - rewrite bool_decide_eq_true_2 by done.
    rewrite filter_cons_True by done. simpl. by intros [= <-].
  - rewrite bool_decide_eq_false_2 by done.
    rewrite filter_cons_False by done. apply IH.
Qed.

(* What update_segment wrote is what get_segment_by_id reads back. *)
Lemma persisted_fields s n d d' s' :
  id s = Some n → update_segment s d = Ok d' → get_segment_by_id n d' = Some s' →
  state s' = state s ∧ uploaded_at s' = uploaded_at s ∧ s3_key s' = s3_key s.
Proof.
  intros Hid Hup Hget. rewrite (update_segment_ok s d n Hid) in Hup.
  injection Hup as <-. unfold get_segment_by_id in Hget. simpl in Hget.
  destruct (head _) as [r'|] eqn:Hhead; [|done].
  simpl in Hget. injection Hget as <-.
  apply head_filter_fmap_overwrite in Hhead. by simpl.
Qed.

Lemma transition_uploaded (s : Segment) (t : Transition) :
  state (transition s t) = UPLOADED ↔ ∃ now key bucket, t = MarkUploaded now key bucket.
Proof.
  destruct t as [|now key bucket|error|]; simpl; split; try done.
  - by intros (? & ? & ? & [=]).
  - intros _. by eexists _, _, _.
  - by intros (? & ? & ? & [=]).
  - by intros (? & ? & ? & [=]).
Qed.

(* No method clears uploaded_at or s3_key. *)
Lemma transition_keeps_fields (s : Segment) (t : Transition) :
  uploaded_fields_set s → uploaded_fields_set (transition s t).
Proof.
  unfold uploaded_fields_set. destruct t; simpl; try done.
  all: intros _; split; by eexists.
Qed.

Lemma transitions_keep_fields (s : Segment) (ts : list Transition) :
  uploaded_fields_set s → uploaded_fields_set (transitions s ts).
Proof.
  revert s. induction ts as [|t ts IH]; intros s Hs; [done|].
  apply IH. by apply transition_keeps_fields.
Qed.

Lemma transition_uploaded_fields (s : Segment) (t : Transition) :
  state (transition s t) = UPLOADED → uploaded_fields_set (transition s t).
Proof.
  unfold uploaded_fields_set. destruct t; simpl; try done.
  all: intros _; split; by eexists.
Qed.

End LifecycleFacts.

(* Counterexample to C1 as stated: c.ts is registered, mark_uploading and
   mark_uploaded are called, and the two sides agree; then mark_cleaned
   leaves uploaded_at and s3_key set while the state is CLEANED, so both
   fields are set and the state is not UPLOADED. *)
Lemma mark_cleaned_keeps_upload_fields_counterexample :
  Examples.seg_c_uploaded
    = transitions (from_file 300 "/buf/c.ts" "c.ts" 5000)
        [MarkUploading; MarkUploaded 400 "cam/c.ts" "bkt"]
  ∧ (state Examples.seg_c_uploaded = UPLOADED
     ↔ uploaded_fields_set Examples.seg_c_uploaded)
  ∧ state (mark_cleaned Examples.seg_c_uploaded) = CLEANED
  ∧ uploaded_fields_set (mark_cleaned Examples.seg_c_uploaded)
  ∧ ¬ (state (mark_cleaned Examples.seg_c_uploaded) = UPLOADED
       ↔ uploaded_fields_set (mark_cleaned Examples.seg_c_uploaded)).
Proof.
  split_and!.
  - reflexivity.
  - split; [intros _; split; by eexists|done].
  - reflexivity.
  - split; by eexists.
  - intros [_ Hback]. discriminate Hback. split; by eexists.
Qed.

(** C1, amended. Take any segment, in whatever state and with whatever
    fields, and any non-empty sequence of lifecycle transitions
    (mark_uploading, mark_uploaded, mark_failed, mark_cleaned).
    Afterwards, if the state is UPLOADED then uploaded_at and s3_key are
    both set, and the state is UPLOADED exactly when the last transition
    was mark_uploaded.  No transition clears the two fields: once set
    they stay set, whatever the state becomes, which is why the converse
    fails.  The update_segment that persists the segment, read back by
    get_segment_by_id, gives a segment with the same state for which the
    implication holds as well. *)
Theorem lifecycle_keeps_upload_fields (s : Segment) (ts : list Transition) (t : Transition) :
  (state (transitions s (ts ++ [t])) = UPLOADED →
     uploaded_fields_set (transitions s (ts ++ [t])))
  ∧ (state (transitions s (ts ++ [t])) = UPLOADED
     ↔ ∃ now key bucket, t = MarkUploaded now key bucket)
  ∧ (uploaded_fields_set s → uploaded_fields_set (transitions s (ts ++ [t])))
  ∧ (∀ n d d' got,
       id (transitions s (ts ++ [t])) = Some n →
       update_segment (transitions s (ts ++ [t])) d = Ok d' →
       get_segment_by_id n d' = Some got →
       state got = state (transitions s (ts ++ [t]))
       ∧ (state got = UPLOADED → uploaded_fields_set got)).
Proof.
  unfold transitions. rewrite foldl_snoc. fold (transitions s ts).
  split_and!.
  - apply transition_uploaded_fields.
  - apply transition_uploaded.
  - intros Hs. by apply transition_keeps_fields, transitions_keep_fields.
  - intros n d d' got Hid Hup Hget.
    destruct (persisted_fields _ n d d' got Hid Hup Hget) as (Hst & Hat & Hkey).
    split; [done|]. intros Hgot. rewrite Hst in Hgot.
    apply transition_uploaded_fields in Hgot.
    unfold uploaded_fields_set in *. by rewrite Hat, Hkey.
Qed.

Lemma lifecycle_keeps_upload_fields_witness :
  uploaded_fields_set Examples.seg_c_uploaded
  ∧ uploaded_fields_set
      (transitions Examples.seg_c_uploaded [MarkCleaned; MarkUploading; MarkFailed "late"])
  ∧ state (transitions Examples.seg_c_uploaded [MarkCleaned; MarkUploading; MarkFailed "late"])
    ≠ UPLOADED.
Proof.
  assert (uploaded_fields_set Examples.seg_c_uploaded) as Hset.
  { exact (proj1 (lifecycle_keeps_upload_fields
                    (from_file 300 "/buf/c.ts" "c.ts" 5000) [MarkUploading]
                    (MarkUploaded 400 "cam/c.ts" "bkt")) eq_refl). }
  destruct (lifecycle_keeps_upload_fields Examples.seg_c_uploaded
              [MarkCleaned; MarkUploading] (MarkFailed "late"))
    as (_ & Hiff & Hkeep & _).
  split; [exact Hset|]. split; [exact (Hkeep Hset)|].
  intros Hup. apply Hiff in Hup as (now & key & bucket & Heq). discriminate Heq.
Defined.

(* ===================================================================== *)
(* Upload worker: the retry loop                                         *)
(* ===================================================================== *)

Section UploaderFacts.

Context (cfg : S3Config) (s3 : S3).

Lemma update_segment_with_id s d :
  is_Some (id s) → ∃ d', update_segment s d = Ok d'.
Proof. intros [n Hn]. eexists. by apply update_segment_ok. Qed.

Lemma update_segment_raises s d e :
  update_segment s d = Raise e → e = DatabaseError no_id ∧ id s = None.
Proof. unfold update_segment, update_segment_on. destruct (id s); [done|]. by intros [= <-]. Qed.

Lemma upload_file_raises fs path key k e :
  upload_file cfg s3 fs path key k = Raise e →
  (e = FileNotFoundError path ∧ fs !! path = None)
  ∨ (∃ msg, e = ClientError msg)
  ∨ (∃ msg, e = S3UploadFailedError msg).
Proof.
  unfold upload_file. destruct (fs !! path); [|intros [= <-]; by left].
  destruct (s3 _ _ _) as [[msg|msg]|]; [| |done]; intros [= <-]; right.
  - left. by eexists.
  - right. by eexists.
Qed.

(* Split on every branch of one pass of the loop. *)
Ltac split_attempt :=
  unfold attempt;
  repeat match goal with
         | |- context [match update_segment ?s ?d with _ => _ end] =>
             let H := fresh "Hupd" in destruct (update_segment s d) eqn:H; simpl
         | |- context [match upload_file ?c ?r ?f ?p ?k ?a with _ => _ end] =>
             let H := fresh "Hfile" in
             destruct (upload_file c r f p k a) as [[]|[]] eqn:H; simpl
         | |- context [if ?b then _ else _] => destruct b; simpl
         end.

Lemma attempt_counts st :
  upload_attempts (seg (attempt cfg s3 st).2) = upload_attempts (seg st) + 1.
Proof. split_attempt; reflexivity. Qed.

Lemma attempt_keeps_id st : id (seg (attempt cfg s3 st).2) = id (seg st).
Proof. split_attempt; reflexivity. Qed.


Lemma attempt_return st :
  (attempt cfg s3 st).1 = Return → state (seg (attempt cfg s3 st).2) = UPLOADED.
Proof. split_attempt; done. Qed.

Lemma attempt_not_exhausted st msg k :
  (attempt cfg s3 st).1 ≠ Throw (RetryExhaustedError msg k).
Proof.
  split_attempt; try done.
  all: intros [= ->];
    match goal with
    | H : update_segment _ _ = Raise _ |- _ => by apply update_segment_raises in H as [? _]
    | H : upload_file _ _ _ _ _ _ = Raise _ |- _ =>
        by apply upload_file_raises in H as [[? _]|[[? ?]|[? ?]]]
    end.
Qed.

Lemma run_attempts_le n st :
  upload_attempts (seg st) ≤ max_retries cfg →
  upload_attempts (seg (run cfg s3 n st).2) ≤ max_retries cfg.
Proof.
  revert st. induction n as [|n IH]; intros st Hle; simpl; [done|].
  destruct (Z.ltb_spec (upload_attempts (seg st)) (max_retries cfg)) as [Hlt|Hge]; [|done].
  pose proof (attempt_counts st) as Hcount.
  destruct (attempt cfg s3 st) as [[| |e] st'] eqn:Hatt; simpl in *; [|lia|lia].
  apply IH. lia.
Qed.

Lemma run_keeps_id n st : id (seg (run cfg s3 n st).2) = id (seg st).
Proof.
  revert st. induction n as [|n IH]; intros st; simpl; [done|].
  destruct (upload_attempts (seg st) <? max_retries cfg); [|done].
  pose proof (attempt_keeps_id st) as Hid.
  destruct (attempt cfg s3 st) as [[| |e] st'] eqn:Hatt; simpl in *; [|done|done].
  by rewrite IH.
Qed.


(* The loop ends: with more passes allowed than attempts are left, the
   answer is a return or an exception. *)
Lemma run_finishes n st :
  (0 < n)%nat →
  max_retries cfg - upload_attempts (seg st) < Z.of_nat n →
  (run cfg s3 n st).1 ≠ Continue.
Proof.
  revert st. induction n as [|n IH]; intros st Hpos Hfuel; simpl; [lia|].
  destruct (Z.ltb_spec (upload_attempts (seg st)) (max_retries cfg)) as [Hlt|Hge]; [|done].
  pose proof (attempt_counts st) as Hcount.
  destruct (attempt cfg s3 st) as [[| |e] st'] eqn:Hatt; simpl in *; [|done|done].
  apply IH; lia.
Qed.

Lemma run_return n st :
  (run cfg s3 n st).1 = Return → state (seg (run cfg s3 n st).2) = UPLOADED.
Proof.
  revert st. induction n as [|n IH]; intros st; simpl; [done|].
  destruct (upload_attempts (seg st) <? max_retries cfg); [|done].
  pose proof (attempt_return st) as Hret.
  destruct (attempt cfg s3 st) as [[| |e] st'] eqn:Hatt; simpl in *; [|done|done].
  apply IH.
Qed.

(* RetryExhaustedError leaves the loop only through its condition. *)
Lemma run_exhausted n st msg k :
  upload_attempts (seg st) ≤ max_retries cfg →
  (run cfg s3 n st).1 = Throw (RetryExhaustedError msg k) →
  upload_attempts (seg (run cfg s3 n st).2) = max_retries cfg ∧ k = max_retries cfg.
Proof.
  revert st. induction n as [|n IH]; intros st Hle; simpl; [done|].
  destruct (Z.ltb_spec (upload_attempts (seg st)) (max_retries cfg)) as [Hlt|Hge].
  - pose proof (attempt_counts st) as Hcount.
    pose proof (attempt_not_exhausted st msg k) as Hnot.
    destruct (attempt cfg s3 st) as [[| |e] st'] eqn:Hatt; simpl in *; [|done|done].
    apply IH. lia.
  - simpl. unfold exhausted. intros [= _ <-]. lia.
Qed.

(* An exception other than RetryExhaustedError comes out of a pass of the
   loop, so at least one attempt has been counted. *)
Lemma run_throw_counts n st e :
  (run cfg s3 n st).1 = Throw e →
  (∀ msg k, e ≠ RetryExhaustedError msg k) →
  upload_attempts (seg st) < upload_attempts (seg (run cfg s3 n st).2).
Proof.
  revert st. induction n as [|n IH]; intros st; simpl; [done|].
  destruct (upload_attempts (seg st) <? max_retries cfg).
  - pose proof (attempt_counts st) as Hcount.
    destruct (attempt cfg s3 st) as [[| |e'] st'] eqn:Hatt; simpl in *; [|done|].
    + intros Hrun Hne. specialize (IH st' Hrun Hne). lia.
    + intros _ _. lia.
  - simpl. unfold exhausted. intros [= <-] Hne. exfalso. by eapply Hne.
Qed.

(* A pass in which client.upload_file raises S3UploadFailedError leaves
   the loop with that exception. *)
Lemma attempt_upload_failed st i size msg :
  id (seg st) = Some i →
  disk (world st) !! filepath (seg st) = Some size →
  s3 (build_s3_key cfg (seg st)) (upload_attempts (seg st) + 1)
     (multipart_threshold cfg <? size) = Some (UploadFailed msg) →
  (attempt cfg s3 st).1 = Throw (S3UploadFailedError msg)
  ∧ seg (attempt cfg s3 st).2 = mark_uploading (seg st).
Proof.
  intros Hid Hfile Hs3. unfold attempt.
  rewrite (update_segment_ok (mark_uploading (seg st)) _ i) by done. simpl.
  unfold upload_file. simpl. rewrite Hfile.
  replace (build_s3_key cfg (mark_uploading (seg st))) with (build_s3_key cfg (seg st))
    by done.
  by rewrite Hs3.
Qed.

(* A pass that finds the local file gone leaves the loop with
   FileNotFoundError. *)
Lemma attempt_missing_file st i :
  id (seg st) = Some i →
  disk (world st) !! filepath (seg st) = None →
  (attempt cfg s3 st).1 = Throw (FileNotFoundError (filepath (seg st)))
  ∧ seg (attempt cfg s3 st).2 = mark_uploading (seg st).
Proof.
  intros Hid Hgone. unfold attempt.
  rewrite (update_segment_ok (mark_uploading (seg st)) _ i) by done. simpl.
  unfold upload_file. simpl. by rewrite Hgone.
Qed.

End UploaderFacts.

(* ===================================================================== *)
(* Retention: what the queries return and what the loops delete          *)
(* ===================================================================== *)

Section QueryFacts.

Implicit Types (key : Row → Z) (r x : Row) (l : list Row).

Lemma elem_of_insert_by key r l x : x ∈ insert_by key r l ↔ x = r ∨ x ∈ l.
Proof.
  induction l as [|y l IH]; simpl.
  - rewrite list_elem_of_singleton, elem_of_nil. tauto.
  - destruct (key r <=? key y).
    + by rewrite elem_of_cons.
    + rewrite !elem_of_cons, IH. tauto.
Qed.

Lemma elem_of_order_by key l x : x ∈ order_by key l ↔ x ∈ l.
Proof.
  induction l as [|y l IH]; simpl; [done|].
  unfold order_by in *. simpl. rewrite elem_of_insert_by, elem_of_cons, IH. tauto.
Qed.

Lemma insert_by_sorted key r l :
  StronglySorted (ascending key) l → StronglySorted (ascending key) (insert_by key r l).
Proof.
  induction l as [|y l IH]; simpl; intros Hs.
  - repeat constructor.
  - apply StronglySorted_cons in Hs as [Hall Hs].
    destruct (Z.leb_spec (key r) (key y)) as [Hlt|Hge].
    + apply StronglySorted_cons. split.
      * constructor; [unfold ascending; lia|].
        eapply Forall_impl; [exact Hall|]. unfold ascending. intros z Hz. simpl in *. lia.
      * by apply StronglySorted_cons.
    + apply StronglySorted_cons. split; [|by apply IH].
      apply Forall_forall. intros z [->|Hz]%elem_of_insert_by.
      * unfold ascending. lia.
      * by eapply Forall_forall in Hall.
Qed.

Lemma order_by_sorted key l : StronglySorted (ascending key) (order_by key l).
Proof.
  induction l as [|y l IH]; [constructor|]. by apply insert_by_sorted.
Qed.

Lemma take_sorted {A} (R : relation A) (n : nat) (l : list A) :
  StronglySorted R l → StronglySorted R (take n l).
Proof.
  revert n. induction l as [|y l IH]; intros [|n] Hs; simpl; try constructor.
  - apply IH. by apply StronglySorted_cons in Hs as [_ ?].
  - apply Forall_take. by apply StronglySorted_cons in Hs as [? _].
Qed.

Lemma fmap_sorted (f : Row → Segment) (R : relation Row) (R' : relation Segment) l :
  (∀ a b, R a b → R' (f a) (f b)) →
  StronglySorted R l → StronglySorted R' (f <$> l).
Proof.
  intros Hf. induction 1 as [|y l Hs IH Hall]; simpl; constructor; [done|].
  apply Forall_fmap. eapply Forall_impl; [exact Hall|]. intros z. apply Hf.
Qed.

(* Oldest first: the list that _emergency_cleanup walks. *)
Lemma get_segments_by_state_sorted st limit d :
  StronglySorted (λ a b, created_at a ≤ created_at b) (get_segments_by_state st limit d).
Proof.
  unfold get_segments_by_state.
  apply (fmap_sorted from_dict (ascending row_created_at)); [done|].
  destruct (limit <? 0); [|apply take_sorted]; apply order_by_sorted.
Qed.

Lemma get_segments_by_state_rows st limit d s :
  s ∈ get_segments_by_state st limit d →
  ∃ r, r ∈ rows d ∧ s = from_dict r ∧ row_state r = st.
Proof.
  unfold get_segments_by_state. intros (r & -> & Hr)%list_elem_of_fmap.
  exists r. split_and!; [|done|].
  - destruct (limit <? 0); [|apply subseteq_take in Hr];
      by apply elem_of_order_by, list_elem_of_filter in Hr as [_ ?].
  - destruct (limit <? 0); [|apply subseteq_take in Hr];
      by apply elem_of_order_by, list_elem_of_filter in Hr as [? _].
Qed.

Lemma get_segments_by_state_limit st limit d :
  0 ≤ limit → (length (get_segments_by_state st limit d) ≤ Z.to_nat limit)%nat.
Proof.
  intros Hl. unfold get_segments_by_state.
  destruct (Z.ltb_spec limit 0); [lia|].
  rewrite length_fmap, length_take. lia.
Qed.

Lemma get_uploaded_segments_rows now minutes d s :
  s ∈ get_uploaded_segments now minutes d →
  ∃ r, r ∈ rows d ∧ s = from_dict r ∧ row_state r = UPLOADED.
Proof.
  unfold get_uploaded_segments. intros (r & -> & Hr)%list_elem_of_fmap.
  apply elem_of_order_by, list_elem_of_filter in Hr as [[Hst _] Hr].
  by exists r.
Qed.

End QueryFacts.

Section RetentionFacts.

Implicit Types (fs : FS) (d : Database) (s : Segment) (st : FS * Database).

Lemma unlink_if_exists fs p :
  (if exists_ fs p then unlink fs p else fs) = unlink fs p.
Proof.
  unfold exists_, unlink. case_bool_decide as Hex; [done|].
  symmetry. apply delete_id. by apply eq_None_not_Some.
Qed.

Lemma cleanup_one_disk st s : (cleanup_one st s).1 = unlink st.1 (filepath s).
Proof.
  unfold cleanup_one. rewrite unlink_if_exists. by destruct (update_segment _ _).
Qed.

Lemma emergency_one_disk st s : (emergency_one st s).1 = unlink st.1 (filepath s).
Proof.
  unfold emergency_one. rewrite <- (unlink_if_exists st.1).
  destruct (exists_ st.1 (filepath s)); [|done]. by destruct (update_segment _ _).
Qed.

Lemma cleanup_all_disk segs st :
  (foldl cleanup_one st segs).1 = without_files segs st.1.
Proof.
  revert st. induction segs as [|s segs IH]; intros st; simpl; [done|].
  unfold without_files in *. simpl. by rewrite IH, cleanup_one_disk.
Qed.

Lemma without_files_other segs fs p :
  p ∉ filepath <$> segs → without_files segs fs !! p = fs !! p.
Proof.
  revert fs. induction segs as [|s segs IH]; intros fs Hout; [done|].
  rewrite fmap_cons in Hout. apply not_elem_of_cons in Hout as [Hne Hout].
  unfold without_files in *. simpl. rewrite IH by done.
  unfold unlink. by apply lookup_delete_ne.
Qed.

Lemma without_files_gone segs fs p :
  p ∈ filepath <$> segs → without_files segs fs !! p = None.
Proof.
  revert fs. induction segs as [|s segs IH]; intros fs Hin.
  - by apply elem_of_nil in Hin.
  - unfold without_files in *. simpl.
    destruct (decide (p ∈ filepath <$> segs)) as [Hrest|Hrest]; [by apply IH|].
    rewrite fmap_cons in Hin. apply elem_of_cons in Hin as [->|Hin]; [|done].
    fold (without_files segs (unlink fs (filepath s))).
    rewrite without_files_other by done. apply lookup_delete_eq.
Qed.

(* A path whose file changed belongs to one of the segments walked. *)
Lemma without_files_changed segs fs p :
  without_files segs fs !! p ≠ fs !! p → p ∈ filepath <$> segs.
Proof.
  intros Hne. destruct (decide (p ∈ filepath <$> segs)); [done|].
  by rewrite without_files_other in Hne.
Qed.

Lemma without_files_app segs1 segs2 fs :
  without_files (segs1 ++ segs2) fs = without_files segs2 (without_files segs1 fs).
Proof. unfold without_files. apply foldl_app. Qed.

(* The emergency loop removes the files of a prefix of its list: the
   shortest non-empty prefix after which the usage test succeeds, or the
   whole list when no prefix makes it succeed. *)
Lemma emergency_loop_prefix cfg segs st :
  ∃ k : nat,
    (k ≤ length segs)%nat
    ∧ (segs ≠ [] → (1 ≤ k)%nat)
    ∧ (emergency_loop cfg segs st).1 = without_files (take k segs) st.1
    ∧ (∀ j : nat, (1 ≤ j < k)%nat →
         under_target cfg (without_files (take j segs) st.1) = false)
    ∧ (k = length segs ∨ under_target cfg (without_files (take k segs) st.1) = true).
Proof.
  revert st. induction segs as [|s segs IH]; intros st.
  - exists 0%nat. simpl. split_and!; [lia|done|done|lia|by left].
  - simpl. pose proof (emergency_one_disk st s) as Hone.
    destruct (under_target cfg (emergency_one st s).1) eqn:Hunder.
    + exists 1%nat. simpl. split_and!; [lia|lia|by rewrite Hone|lia|].
      right. unfold without_files. simpl. by rewrite <- Hone.
    + destruct (IH (emergency_one st s)) as (k & Hk & _ & Hfs & Hmin & Hend).
      rewrite Hone in Hfs, Hmin, Hend.
      exists (S k). simpl. split_and!; [lia|lia|done| |].
      * intros [|j] Hj; [lia|]. simpl. unfold without_files at 1. simpl.
        destruct j as [|j]; [simpl; by rewrite <- Hone|].
        apply (Hmin (S j)). lia.
      * destruct Hend as [->|Hend]; [by left|by right].
Qed.

(* Writing a CLEANED segment never makes a row UPLOADED. *)
Lemma update_cleaned_uploaded s d d' r :
  update_segment (mark_cleaned s) d = Ok d' →
  r ∈ rows d' → row_state r = UPLOADED → r ∈ rows d.
Proof.
  unfold update_segment, update_segment_on. destruct (id (mark_cleaned s)) as [n|]; [|done].
  intros [= <-]. simpl. intros (r0 & -> & Hr0)%list_elem_of_fmap.
  case_bool_decide; simpl; [done|]. by intros _.
Qed.

Lemma cleanup_one_uploaded st s r :
  r ∈ rows (cleanup_one st s).2 → row_state r = UPLOADED → r ∈ rows st.2.
Proof.
  unfold cleanup_one.
  destruct (update_segment (mark_cleaned s) st.2) as [d'|e] eqn:Hupd; simpl; [|done].
  by apply (update_cleaned_uploaded s).
Qed.

Lemma cleanup_all_uploaded segs st r :
  r ∈ rows (foldl cleanup_one st segs).2 → row_state r = UPLOADED → r ∈ rows st.2.
Proof.
  revert st. induction segs as [|s segs IH]; intros st Hr Hst; [done|].
  simpl in Hr. apply (cleanup_one_uploaded st s); [|done]. by apply IH.
Qed.

Lemma without_files_lookup segs fs p :
  without_files segs fs !! p = fs !! p
  ∨ (without_files segs fs !! p = None ∧ p ∈ filepath <$> segs).
Proof.
  destruct (decide (p ∈ filepath <$> segs)) as [Hin|Hout].
  - right. split; [by apply without_files_gone|done].
  - left. by apply without_files_other.
Qed.

(* A path is left alone by the emergency pass, or its file is removed and
   it is the filepath of a row in state UPLOADED. *)
Lemma emergency_cleanup_lookup cfg st p :
  (emergency_cleanup cfg st).1 !! p = st.1 !! p
  ∨ ((emergency_cleanup cfg st).1 !! p = None
     ∧ ∃ r, r ∈ rows st.2 ∧ row_filepath r = p ∧ row_state r = UPLOADED).
Proof.
  unfold emergency_cleanup.
  destruct (emergency_loop_prefix cfg (get_segments_by_state UPLOADED 50 st.2) st)
    as (k & _ & _ & -> & _ & _).
  destruct (without_files_lookup (take k (get_segments_by_state UPLOADED 50 st.2)) st.1 p)
    as [Hsame|[Hgone Hin]]; [by left|right].
  split; [done|].
  apply list_elem_of_fmap in Hin as (s & -> & Hs).
  apply subseteq_take, get_segments_by_state_rows in Hs as (r & Hr & -> & Hst).
  by exists r.
Qed.

Lemma check_disk_usage_lookup cfg st p :
  (check_disk_usage cfg st).1 !! p = st.1 !! p
  ∨ ((check_disk_usage cfg st).1 !! p = None
     ∧ ∃ r, r ∈ rows st.2 ∧ row_filepath r = p ∧ row_state r = UPLOADED).
Proof.
  unfold check_disk_usage. destruct (over_limit cfg st.1); [|by left].
  apply emergency_cleanup_lookup.
Qed.

Lemma perform_cleanup_lookup cfg now utc_now st p :
  (perform_cleanup cfg now utc_now st).1 !! p = st.1 !! p
  ∨ ((perform_cleanup cfg now utc_now st).1 !! p = None
     ∧ ∃ r, r ∈ rows st.2 ∧ row_filepath r = p ∧ row_state r = UPLOADED).
Proof.
  unfold perform_cleanup. simpl.
  set (segs := get_uploaded_segments now (local_buffer_minutes cfg) st.2).
  destruct (check_disk_usage_lookup cfg (foldl cleanup_one st segs) p)
    as [Hsame|[Hgone (r & Hr & Hp & Hst)]].
  - rewrite Hsame, cleanup_all_disk.
    destruct (without_files_lookup segs st.1 p) as [Hkeep|[Hgone Hin]]; [by left|right].
    split; [done|].
    apply list_elem_of_fmap in Hin as (s & -> & Hs).
    apply get_uploaded_segments_rows in Hs as (r & Hr & -> & Hst). by exists r.
  - right. split; [done|]. exists r. split_and!; [|done|done].
    by apply (cleanup_all_uploaded segs st).
Qed.

End RetentionFacts.

(** C4. Retention, on its periodic path (_perform_cleanup, which ends in
    the disk-usage check) and on its disk-pressure path alone
    (_emergency_cleanup), leaves every path as it was or removes the file
    there, and a removed file is always the filepath of a row whose state
    is UPLOADED.  The file of a segment in any other state (CREATED,
    UPLOADING, FAILED), whose filepath no other row shares, is never
    removed. *)
Theorem retention_deletes_only_uploaded
    (cfg : StorageConfig) (now utc_now : datetime) (fs : FS) (d : Database) :
  (∀ p, (perform_cleanup cfg now utc_now (fs, d)).1 !! p = fs !! p
        ∨ ((perform_cleanup cfg now utc_now (fs, d)).1 !! p = None
           ∧ ∃ r, r ∈ rows d ∧ row_filepath r = p ∧ row_state r = UPLOADED))
  ∧ (∀ p, (emergency_cleanup cfg (fs, d)).1 !! p = fs !! p
          ∨ ((emergency_cleanup cfg (fs, d)).1 !! p = None
             ∧ ∃ r, r ∈ rows d ∧ row_filepath r = p ∧ row_state r = UPLOADED))
  ∧ (∀ r, r ∈ rows d →
          row_state r ≠ UPLOADED →
          (∀ r', r' ∈ rows d → row_filepath r' = row_filepath r → r' = r) →
          (perform_cleanup cfg now utc_now (fs, d)).1 !! row_filepath r
            = fs !! row_filepath r
          ∧ (emergency_cleanup cfg (fs, d)).1 !! row_filepath r
            = fs !! row_filepath r).
Proof.
  pose proof (λ p, perform_cleanup_lookup cfg now utc_now (fs, d) p) as Hperiodic.
  pose proof (λ p, emergency_cleanup_lookup cfg (fs, d) p) as Hpressure.
  simpl in *. split_and!; [done|done|].
  intros r Hr Hstate Hown. split.
  - destruct (Hperiodic (row_filepath r)) as [?|[_ (r' & Hr' & Hp & Hst)]]; [done|].
    rewrite (Hown r' Hr' Hp) in Hst. done.
  - destruct (Hpressure (row_filepath r)) as [?|[_ (r' & Hr' & Hp & Hst)]]; [done|].
    rewrite (Hown r' Hr' Hp) in Hst. done.
Qed.

Lemma retention_deletes_only_uploaded_witness :
  (perform_cleanup Examples.buf_cfg Examples.one_hour Examples.one_hour
     (Examples.disk_abc, Examples.db_abc)).1 !! "/buf/a.ts" = Some 1000
  ∧ (perform_cleanup Examples.buf_cfg Examples.one_hour Examples.one_hour
       (Examples.disk_abc, Examples.db_abc)).1 !! "/buf/c.ts" = None.
Proof.
  split.
  - destruct (retention_deletes_only_uploaded Examples.buf_cfg Examples.one_hour
                Examples.one_hour Examples.disk_abc Examples.db_abc)
      as (_ & _ & Hkeep).
    destruct (Hkeep Examples.row_a) as [Hfile _].
    + left.
    + discriminate.
    + intros r' Hr' Hp. vm_compute in Hr'.
      repeat (apply elem_of_cons in Hr' as [->|Hr']; [first [reflexivity|discriminate Hp]|]).
      by apply elem_of_nil in Hr'.
    + exact Hfile.
  - vm_compute. reflexivity.
Defined.

(* Counterexample to C5 as stated: fifty-one UPLOADED segments of one
   mebibyte under a ceiling of one megabyte. The shortest prefix of the
   oldest-first list that brings the usage under 90% of the ceiling is
   the whole list of fifty-one; the pass walks LIMIT 50 rows, deletes
   fifty files and stops with the usage still above the target. *)
Lemma emergency_cleanup_batch_counterexample :
  over_limit Examples.tiny_cfg Examples.disk_51 = true
  ∧ length (get_segments_by_state UPLOADED (-1) Examples.db_51) = 51%nat
  ∧ under_target Examples.tiny_cfg
      (without_files (get_segments_by_state UPLOADED (-1) Examples.db_51)
         Examples.disk_51) = true
  ∧ forallb (λ j, negb (under_target Examples.tiny_cfg
                          (without_files
                             (take j (get_segments_by_state UPLOADED (-1) Examples.db_51))
                             Examples.disk_51)))
      (seq 0 51) = true
  ∧ (check_disk_usage Examples.tiny_cfg (Examples.disk_51, Examples.db_51)).1
      = without_files (take 50 (get_segments_by_state UPLOADED (-1) Examples.db_51))
          Examples.disk_51
  ∧ under_target Examples.tiny_cfg
      (check_disk_usage Examples.tiny_cfg (Examples.disk_51, Examples.db_51)).1 = false
  ∧ (check_disk_usage Examples.tiny_cfg (Examples.disk_51, Examples.db_51)).1
      !! "/buf/seg_51.ts" = Some 1048576
  ∧ (check_disk_usage Examples.tiny_cfg (Examples.disk_51, Examples.db_51)).1
      ≠ without_files (get_segments_by_state UPLOADED (-1) Examples.db_51) Examples.disk_51.
Proof.
  split_and!; try (vm_compute; reflexivity).
  intros Heq. apply (f_equal (λ m : FS, m !! "/buf/seg_51.ts")) in Heq.
  vm_compute in Heq. discriminate Heq.
Qed.

(** C5, amended. When the usage is over a non-negative ceiling, the
    disk-pressure pass walks the at most fifty oldest UPLOADED segments,
    oldest first, and removes the files of exactly a prefix of that list:
    the shortest prefix after which the usage is under 90% of the
    ceiling, or all of the list when no prefix of it gets there.  No file
    outside that prefix is touched. *)
Theorem emergency_cleanup_minimal_prefix (cfg : StorageConfig) (fs : FS) (d : Database) :
  over_limit cfg fs = true →
  0 ≤ max_disk_usage_mb cfg →
  (length (get_segments_by_state UPLOADED 50 d) ≤ 50)%nat
  ∧ StronglySorted (λ a b, created_at a ≤ created_at b) (get_segments_by_state UPLOADED 50 d)
  ∧ (∀ s, s ∈ get_segments_by_state UPLOADED 50 d → state s = UPLOADED)
  ∧ ∃ k : nat,
      (k ≤ length (get_segments_by_state UPLOADED 50 d))%nat
      ∧ (check_disk_usage cfg (fs, d)).1
          = without_files (take k (get_segments_by_state UPLOADED 50 d)) fs
      ∧ (∀ j : nat, (j < k)%nat →
           under_target cfg
             (without_files (take j (get_segments_by_state UPLOADED 50 d)) fs) = false)
      ∧ (k = length (get_segments_by_state UPLOADED 50 d)
         ∨ under_target cfg (check_disk_usage cfg (fs, d)).1 = true)
      ∧ (∀ p, p ∉ filepath <$> take k (get_segments_by_state UPLOADED 50 d) →
           (check_disk_usage cfg (fs, d)).1 !! p = fs !! p).
Proof.
  intros Hover Hmax.
  split_and!.
  - by apply (get_segments_by_state_limit UPLOADED 50 d).
  - apply get_segments_by_state_sorted.
  - intros s (r & _ & -> & Hst)%get_segments_by_state_rows. done.
  - unfold check_disk_usage, emergency_cleanup. simpl. rewrite Hover.
    destruct (emergency_loop_prefix cfg (get_segments_by_state UPLOADED 50 d) (fs, d))
      as (k & Hk & _ & Hfs & Hmin & Hend). simpl in *.
    exists k. rewrite Hfs. split_and!; [done|done| |done|].
    + intros [|j] Hj; [|apply Hmin; lia]. simpl.
      unfold over_limit in Hover. unfold under_target.
      apply Z.ltb_lt in Hover. apply Z.ltb_ge. unfold without_files. simpl. lia.
    + intros p Hp. by apply without_files_other.
Qed.

Lemma emergency_cleanup_minimal_prefix_witness :
  over_limit Examples.mid_cfg Examples.disk_51 = true
  ∧ 0 ≤ max_disk_usage_mb Examples.mid_cfg
  ∧ ∃ k : nat,
      (k ≤ length (get_segments_by_state UPLOADED 50 Examples.db_51))%nat
      ∧ (check_disk_usage Examples.mid_cfg (Examples.disk_51, Examples.db_51)).1
          = without_files (take k (get_segments_by_state UPLOADED 50 Examples.db_51))
              Examples.disk_51
      ∧ (k = length (get_segments_by_state UPLOADED 50 Examples.db_51)
         ∨ under_target Examples.mid_cfg
             (check_disk_usage Examples.mid_cfg (Examples.disk_51, Examples.db_51)).1 = true).
Proof.
  assert (over_limit Examples.mid_cfg Examples.disk_51 = true) as Hover
    by (vm_compute; reflexivity).
  assert (0 ≤ max_disk_usage_mb Examples.mid_cfg) as Hmax by (vm_compute; discriminate).
  split; [exact Hover|]. split; [exact Hmax|].
  destruct (emergency_cleanup_minimal_prefix Examples.mid_cfg Examples.disk_51
              Examples.db_51 Hover Hmax)
    as (_ & _ & _ & k & Hk & Hfs & _ & Hend & _).
  exists k. split; [exact Hk|]. split; [exact Hfs|exact Hend].
Defined.

(* ===================================================================== *)
(* A local file that is gone                                             *)
(* ===================================================================== *)

Section MissingFile.

Context (cfg : S3Config) (s3 : S3).

(* The upload worker meets a missing file in Path.stat(): one attempt is
   counted, FileNotFoundError reaches the catch-all handler of the loop,
   and the segment ends FAILED. *)
Lemma process_segment_missing_file s w i :
  id s = Some i →
  upload_attempts s < max_retries cfg →
  disk w !! filepath s = None →
  ∃ w', process_segment cfg s3 s w
          = Ok (mark_failed (str (FileNotFoundError (filepath s))) (mark_uploading s), w')
    ∧ error_count w' = error_count w + 1
    ∧ upload_count w' = upload_count w
    ∧ disk w' = disk w.
Proof.
  intros Hid Hlt Hgone.
  unfold process_segment, upload_with_retry. simpl.
  rewrite (proj2 (Z.ltb_lt _ _) Hlt).
  unfold attempt. simpl.
  rewrite (update_segment_ok (mark_uploading s) (db w) i) by done. simpl.
  unfold upload_file. rewrite Hgone. simpl.
  unfold update_segment, update_segment_on. simpl. rewrite Hid.
  eexists. split; [reflexivity|]. by simpl.
Qed.

End MissingFile.

(* Counterexample to C9 as stated on the upload path: the file of a
   CREATED segment is gone, the remote store would accept the transfer,
   and the worker ends the segment in FAILED after one attempt and counts
   an error. *)
Lemma upload_of_missing_file_counterexample :
  state (from_dict Examples.row_a) = CREATED
  ∧ disk (Examples.world_with ∅) !! filepath (from_dict Examples.row_a) = None
  ∧ ∃ s' w',
      process_segment Examples.s3_cfg Examples.s3_always_ok
        (from_dict Examples.row_a) (Examples.world_with ∅) = Ok (s', w')
      ∧ state s' = FAILED
      ∧ last_error s' = Some "[Errno 2] No such file or directory: '/buf/a.ts'"
      ∧ error_count w' = 1
      ∧ upload_count w' = 0
      ∧ (get_segment_by_id 1 (db w')) = Some s'.
Proof.
  split; [reflexivity|]. split; [reflexivity|].
  eexists _, _. split; [vm_compute; reflexivity|].
  split_and!; reflexivity.
Qed.

(** C9, amended. For a segment with an id whose local file is absent:
    the periodic cleanup tolerates it (no deletion, the segment is still
    written back CLEANED); the disk-pressure cleanup skips the segment
    and changes nothing; the upload worker does not tolerate it: the
    attempt is counted, the segment is marked FAILED with the
    file-not-found error, the error counter goes up by one and no retry
    is made. *)
Theorem missing_local_file
    (cfg : S3Config) (s3 : S3) (s : Segment) (w : World) (fs : FS) (d : Database) (i : Z) :
  id s = Some i →
  (fs !! filepath s = None →
     (∃ d', update_segment (mark_cleaned s) d = Ok d' ∧ cleanup_one (fs, d) s = (fs, d'))
     ∧ emergency_one (fs, d) s = (fs, d))
  ∧ (disk w !! filepath s = None → upload_attempts s < max_retries cfg →
     ∃ w', process_segment cfg s3 s w
             = Ok (mark_failed (str (FileNotFoundError (filepath s))) (mark_uploading s), w')
       ∧ state (mark_failed (str (FileNotFoundError (filepath s))) (mark_uploading s)) = FAILED
       ∧ error_count w' = error_count w + 1
       ∧ upload_count w' = upload_count w
       ∧ disk w' = disk w).
Proof.
  intros Hid. split.
  - intros Hgone.
    assert (exists_ fs (filepath s) = false) as Hex.
    { unfold exists_. apply bool_decide_eq_false_2. rewrite Hgone. by intros [? ?]. }
    split.
    + destruct (update_segment_with_id (mark_cleaned s) d) as [d' Hupd];
        [simpl; rewrite Hid; by eexists|].
      exists d'. split; [done|]. unfold cleanup_one. simpl. by rewrite Hex, Hupd.
    + unfold emergency_one. simpl. by rewrite Hex.
  - intros Hgone Hlt.
    destruct (process_segment_missing_file cfg s3 s w i Hid Hlt Hgone)
      as (w' & Hproc & Herr & Hup & Hdisk).
    exists w'. by split_and!.
Qed.

Lemma missing_local_file_witness :
  id (from_dict Examples.row_c) = Some 3
  ∧ emergency_one (∅, Examples.db_abc) (from_dict Examples.row_c) = (∅, Examples.db_abc)
  ∧ (∃ d', cleanup_one (∅, Examples.db_abc) (from_dict Examples.row_c) = (∅, d'))
  ∧ ∃ w', process_segment Examples.s3_cfg Examples.s3_always_ok
            (from_dict Examples.row_c) (Examples.world_with ∅)
          = Ok (mark_failed (str (FileNotFoundError "/buf/c.ts"))
                  (mark_uploading (from_dict Examples.row_c)), w').
Proof.
  destruct (missing_local_file Examples.s3_cfg Examples.s3_always_ok
              (from_dict Examples.row_c) (Examples.world_with ∅) ∅ Examples.db_abc 3 eq_refl)
    as [Hretention Hupload].
  split; [reflexivity|].
  destruct (Hretention eq_refl) as [(d' & _ & Hone) Hskip].
  split; [exact Hskip|]. split; [exists d'; exact Hone|].
  destruct Hupload as (w' & Hproc & _); [reflexivity|vm_compute; reflexivity|].
  exists w'. exact Hproc.
Defined.

(* ===================================================================== *)
(* Upload attempts against max_retries                                   *)
(* ===================================================================== *)

(* Counterexample to C3 as stated: with max_retries = 5 and the local
   file gone, the first attempt raises FileNotFoundError, which is no
   transfer error; the worker marks the segment FAILED with
   upload_attempts = 1. *)
Lemma failed_before_max_retries_counterexample :
  max_retries Examples.s3_cfg = 5
  ∧ ∃ s' w',
      process_segment Examples.s3_cfg Examples.s3_always_down
        (from_dict Examples.row_a) (Examples.world_with ∅) = Ok (s', w')
      ∧ state s' = FAILED
      ∧ upload_attempts s' = 1.
Proof.
  split; [reflexivity|]. eexists _, _. split; [vm_compute; reflexivity|]. by split.
Qed.

(** C3, amended. For a segment taken from the queue with an id and with
    upload_attempts <= max_retries: upload_attempts never exceeds
    max_retries at any point of the retry loop; the worker ends with the
    segment UPLOADED or FAILED and still within max_retries; and when
    FAILED is reached because the retries are exhausted
    (RetryExhaustedError), upload_attempts equals max_retries exactly.
    When FAILED is reached through any other exception (one that the
    retry clause does not catch), last_error is the text of that
    exception, at least one attempt has been counted, and
    upload_attempts can be anything up to max_retries: if the next
    attempt finds the local file gone, or boto3 raises
    S3UploadFailedError in it, the segment is FAILED with
    upload_attempts one more than before, which is below max_retries
    unless that attempt was the last one allowed. *)
Theorem upload_attempts_bounded (cfg : S3Config) (s3 : S3) (s : Segment) (w : World) (i : Z) :
  id s = Some i →
  upload_attempts s ≤ max_retries cfg →
  (∀ n, upload_attempts
          (seg (run cfg s3 n {| seg := s; world := w; delay := retry_delay cfg |}).2)
        ≤ max_retries cfg)
  ∧ (upload_with_retry cfg s3 s w).1 ≠ Continue
  ∧ ∃ s' w',
      process_segment cfg s3 s w = Ok (s', w')
      ∧ upload_attempts s' ≤ max_retries cfg
      ∧ (state s' = UPLOADED ∨ state s' = FAILED)
      ∧ (state s' = FAILED ↔ ∃ e, (upload_with_retry cfg s3 s w).1 = Throw e)
      ∧ (∀ msg k, (upload_with_retry cfg s3 s w).1 = Throw (RetryExhaustedError msg k) →
           state s' = FAILED ∧ upload_attempts s' = max_retries cfg ∧ k = max_retries cfg)
      ∧ (∀ e, (upload_with_retry cfg s3 s w).1 = Throw e →
           (∀ msg k, e ≠ RetryExhaustedError msg k) →
           state s' = FAILED
           ∧ last_error s' = Some (str e)
           ∧ upload_attempts s < upload_attempts s' ≤ max_retries cfg)
      ∧ (upload_attempts s < max_retries cfg →
         (disk w !! filepath s = None
          ∨ ∃ size msg,
              disk w !! filepath s = Some size
              ∧ s3 (build_s3_key cfg s) (upload_attempts s + 1)
                   (multipart_threshold cfg <? size) = Some (UploadFailed msg)) →
         state s' = FAILED ∧ upload_attempts s' = upload_attempts s + 1).
Proof.
  intros Hid Hle.
  set (st0 := {| seg := s; world := w; delay := retry_delay cfg |}).
  assert ((upload_with_retry cfg s3 s w).1 ≠ Continue) as Hfin.
  { unfold upload_with_retry. apply run_finishes; simpl; lia. }
  split_and!; [intros n; by apply run_attempts_le|done|].
  assert (upload_attempts s < max_retries cfg →
          (disk w !! filepath s = None
           ∨ ∃ size msg,
               disk w !! filepath s = Some size
               ∧ s3 (build_s3_key cfg s) (upload_attempts s + 1)
                    (multipart_threshold cfg <? size) = Some (UploadFailed msg)) →
          ∃ e, (upload_with_retry cfg s3 s w).1 = Throw e
               ∧ (∀ msg k, e ≠ RetryExhaustedError msg k)
               ∧ upload_attempts (seg (upload_with_retry cfg s3 s w).2)
                 = upload_attempts s + 1) as Hnext.
  { intros Hlt Hcause. unfold upload_with_retry. fold st0. simpl.
    rewrite (proj2 (Z.ltb_lt _ _) Hlt).
    destruct Hcause as [Hgone|(size & msg & Hfile & Hs3)].
    - destruct (attempt_missing_file cfg s3 st0 i Hid Hgone) as [Hflow Hseg].
      destruct (attempt cfg s3 st0) as [f st'] eqn:Hatt. simpl in *. subst f. simpl.
      eexists. split; [done|]. split; [done|]. by rewrite Hseg.
    - destruct (attempt_upload_failed cfg s3 st0 i size msg Hid Hfile Hs3) as [Hflow Hseg].
      destruct (attempt cfg s3 st0) as [f st'] eqn:Hatt. simpl in *. subst f. simpl.
      eexists. split; [done|]. split; [done|]. by rewrite Hseg. }
  unfold process_segment. unfold upload_with_retry in *. fold st0 in Hfin, Hnext |- *.
  set (fuel := S (Z.to_nat (max_retries cfg - upload_attempts s))) in *.
  pose proof (run_attempts_le cfg s3 fuel st0 Hle) as Hbound.
  pose proof (run_keeps_id cfg s3 fuel st0) as Hkeep.
  pose proof (run_return cfg s3 fuel st0) as Hret.
  pose proof (λ msg k, run_exhausted cfg s3 fuel st0 msg k Hle) as Hexh.
  pose proof (run_throw_counts cfg s3 fuel st0) as Hcounts.
  revert Hfin Hbound Hkeep Hret Hexh Hcounts Hnext.
  destruct (run cfg s3 fuel st0) as [[| |e] st] eqn:Hrun; simpl;
    intros Hfin Hbound Hkeep Hret Hexh Hcounts Hnext; [done| |].
  - eexists _, _. split; [reflexivity|].
    split_and!; [done|left; by apply Hret| |done|done|].
    + rewrite Hret by done. split; [done|]. by intros [e [=]].
    + intros Hlt Hcause. by destruct (Hnext Hlt Hcause) as (e & [=] & _).
  - destruct (update_segment_with_id (mark_failed (str e) (seg st)) (db (world st)))
      as [d' Hupd]; [simpl; rewrite Hkeep, Hid; by eexists|].
    rewrite Hupd. eexists _, _. split; [reflexivity|]. simpl.
    split_and!; [done|by right|split; [by eexists|done]| | |].
    + intros msg k [= ->]. destruct (Hexh msg k eq_refl) as [-> ->]. done.
    + intros e' [= <-] Hne. specialize (Hcounts e eq_refl Hne). simpl in Hcounts.
      split_and!; [done|done|lia|done].
    + intros Hlt Hcause. destruct (Hnext Hlt Hcause) as (e' & _ & _ & Hatt). by split.
Qed.

Lemma upload_attempts_bounded_witness :
  id (from_dict Examples.row_a) = Some 1
  ∧ upload_attempts (from_dict Examples.row_a) ≤ max_retries Examples.s3_cfg
  ∧ (∃ s' w',
       process_segment Examples.s3_cfg Examples.s3_always_down
         (from_dict Examples.row_a) (Examples.world_with Examples.disk_abc) = Ok (s', w')
       ∧ state s' = FAILED
       ∧ upload_attempts s' = 5)
  ∧ ∃ s' w',
      process_segment Examples.s3_cfg MoreExamples.s3_access_denied
        (from_dict Examples.row_a) (Examples.world_with Examples.disk_abc) = Ok (s', w')
      ∧ state s' = FAILED
      ∧ upload_attempts s' = 0 + 1.
Proof.
  assert (upload_attempts (from_dict Examples.row_a) ≤ max_retries Examples.s3_cfg) as Hle
    by (vm_compute; discriminate).
  split; [reflexivity|]. split; [exact Hle|]. split.
  - destruct (upload_attempts_bounded Examples.s3_cfg Examples.s3_always_down
                (from_dict Examples.row_a) (Examples.world_with Examples.disk_abc) 1
                eq_refl Hle)
      as (_ & _ & s' & w' & Hproc & _ & _ & _ & Hexh & _).
    exists s', w'. split; [exact Hproc|].
    destruct (Hexh "Failed to upload a.ts" 5) as (Hst & Hatt & _);
      [vm_compute; reflexivity|].
    split; [exact Hst|exact Hatt].
  - destruct (upload_attempts_bounded Examples.s3_cfg MoreExamples.s3_access_denied
                (from_dict Examples.row_a) (Examples.world_with Examples.disk_abc) 1
                eq_refl Hle)
      as (_ & _ & s' & w' & Hproc & _ & _ & _ & _ & _ & Hnext).
    exists s', w'. split; [exact Hproc|].
    apply Hnext; [vm_compute; reflexivity|].
    right. exists 1000, "AccessDenied". split; reflexivity.
Defined.

(* ===================================================================== *)
(* Capture supervision: the restart quota                                *)
(* ===================================================================== *)

Section MonitorFacts.

Context (cfg : HealthConfig).

(* After the loop has left through its break nothing runs any more. *)
Lemma iteration_after_exit m p : should_run m = false → iteration cfg m p = m.
Proof. intros Hoff. unfold iteration. by rewrite Hoff. Qed.

Lemma monitor_loop_after_exit polls m :
  should_run m = false → monitor_loop cfg polls m = m.
Proof.
  revert m. induction polls as [|p polls IH]; intros m Hoff; [done|].
  unfold monitor_loop in *. simpl. rewrite iteration_after_exit by done. by apply IH.
Qed.

Lemma monitor_loop_app polls1 polls2 m :
  monitor_loop cfg (polls1 ++ polls2) m = monitor_loop cfg polls2 (monitor_loop cfg polls1 m).
Proof. unfold monitor_loop. apply foldl_app. Qed.

(* A poll that finds the process dead, inside the window. *)
Lemma iteration_dead_in_window m :
  should_run m = true →
  now m + 5 - window_start m ≤ restart_window cfg →
  iteration cfg m dies_at_once =
    if max_restarts cfg <=? restart_count m then
      {| should_run := false; restart_count := restart_count m;
         window_start := window_start m; now := now m + 5; restarts := restarts m |}
    else
      {| should_run := true; restart_count := restart_count m + 1;
         window_start := window_start m; now := now m + 5;
         restarts := (now m + 5) :: restarts m |}.
Proof.
  intros Hon Hwin. unfold iteration. rewrite Hon. simpl.
  by rewrite (proj2 (Z.ltb_ge _ _) Hwin).
Qed.

End MonitorFacts.

(* The first four polls of a process that dies at once, quota three. *)
Lemma four_polls_quota_three (w t0 : Z) :
  20 ≤ w →
  monitor_loop {| max_restarts := 3; restart_window := w |}
    (replicate 4 dies_at_once) (start t0) =
  {| should_run := false; restart_count := 3; window_start := t0;
     now := t0 + 5 + 5 + 5 + 5; restarts := [t0 + 5 + 5 + 5; t0 + 5 + 5; t0 + 5] |}.
Proof.
  intros Hw. unfold monitor_loop, start. simpl.
  repeat (rewrite (iteration_dead_in_window _ (mkManager _ _ _ _ _))
            by (simpl; first [reflexivity|lia]); simpl).
  reflexivity.
Qed.

(* Counterexample to C6 as stated in its last part: with max_restarts =
   3, a window of 300 seconds and a process that dies at once, the fourth
   death ends the monitor loop for good; whatever is polled afterwards,
   no restart is ever made after the third one, also not once the window
   is over. *)
Lemma restarts_never_resume_counterexample :
  restarts (monitor_loop Examples.quota_cfg (replicate 100 dies_at_once) (start 0))
    = [15; 10; 5]
  ∧ should_run (monitor_loop Examples.quota_cfg (replicate 100 dies_at_once) (start 0))
    = false
  ∧ ¬ ∃ (later : list Poll) (t : Z),
        t ∈ restarts (monitor_loop Examples.quota_cfg
                        (replicate 4 dies_at_once ++ later) (start 0))
        ∧ 300 < t.
Proof.
  split; [vm_compute; reflexivity|]. split; [vm_compute; reflexivity|].
  intros (later & t & Hin & Hlate).
  unfold Examples.quota_cfg in Hin. rewrite monitor_loop_app in Hin.
  rewrite (four_polls_quota_three 300 0) in Hin by lia.
  rewrite monitor_loop_after_exit in Hin by done. simpl in Hin.
  repeat (apply elem_of_cons in Hin as [->|Hin]; [lia|]).
  by apply elem_of_nil in Hin.
Qed.

(** C6, amended. With max_restarts = 3, a window that covers the first
    four polls (20 seconds) and a process that exits at once on every
    start: each of the first three polls restarts it, so exactly three
    restarts are made; the fourth death stops the monitor loop with
    capture down, and from then on no restart is made whatever happens,
    the window running out included. *)
Theorem restart_quota_three (w t0 : Z) (later : list Poll) :
  20 ≤ w →
  (∀ n : nat, (n ≤ 3)%nat →
     length (restarts (monitor_loop {| max_restarts := 3; restart_window := w |}
                         (replicate n dies_at_once) (start t0))) = n
     ∧ restart_count (monitor_loop {| max_restarts := 3; restart_window := w |}
                        (replicate n dies_at_once) (start t0)) = Z.of_nat n
     ∧ should_run (monitor_loop {| max_restarts := 3; restart_window := w |}
                     (replicate n dies_at_once) (start t0)) = true)
  ∧ restarts (monitor_loop {| max_restarts := 3; restart_window := w |}
                (replicate 4 dies_at_once ++ later) (start t0))
      = [t0 + 15; t0 + 10; t0 + 5]
  ∧ should_run (monitor_loop {| max_restarts := 3; restart_window := w |}
                  (replicate 4 dies_at_once ++ later) (start t0)) = false.
Proof.
  intros Hw. split.
  - intros n Hn. unfold monitor_loop, start.
    destruct n as [|[|[|[|n]]]]; [| | | |lia]; simpl;
      repeat (rewrite (iteration_dead_in_window _ (mkManager _ _ _ _ _))
                by (simpl; first [reflexivity|lia]); simpl);
      done.
  - rewrite monitor_loop_app, (four_polls_quota_three w t0 Hw).
    rewrite monitor_loop_after_exit by done. simpl.
    split; [|done].
    replace (t0 + 5 + 5 + 5) with (t0 + 15) by lia.
    by replace (t0 + 5 + 5) with (t0 + 10) by lia.
Qed.

Lemma restart_quota_three_witness :
  20 ≤ 300
  ∧ length (restarts (monitor_loop Examples.quota_cfg
                        (replicate 3 dies_at_once) (start 0))) = 3%nat
  ∧ restarts (monitor_loop Examples.quota_cfg
                (replicate 4 dies_at_once ++ replicate 96 dies_at_once) (start 0))
      = [0 + 15; 0 + 10; 0 + 5]
  ∧ should_run (monitor_loop Examples.quota_cfg
                  (replicate 4 dies_at_once ++ replicate 96 dies_at_once) (start 0)) = false.
Proof.
  assert (20 ≤ 300) as Hw by (vm_compute; discriminate).
  split; [exact Hw|].
  destruct (restart_quota_three 300 0 (replicate 96 dies_at_once) Hw)
    as (Hfirst & Hlist & Hoff).
  split; [exact (proj1 (Hfirst 3%nat (le_n 3)))|].
  split; [exact Hlist|exact Hoff].
Defined.

(* ===================================================================== *)
(* More about the segment store                                          *)
(* ===================================================================== *)

Section StoreMoreFacts.

Implicit Types (db d : Database) (s : Segment) (r : Row) (l : list Row).

Lemma max_rowid_ge db i : i ∈ ids db → i ≤ max_rowid db.
Proof.
  unfold max_rowid. induction (ids db) as [|j js IH]; simpl.
  - by intros ?%elem_of_nil.
  - intros [->|Hin]%elem_of_cons; [lia|]. specialize (IH Hin). lia.
Qed.

Lemma max_rowid_nonneg db : 0 ≤ max_rowid db.
Proof. unfold max_rowid. induction (ids db) as [|j js IH]; simpl; lia. Qed.

Lemma add_segment_new_id s db s' db' :
  add_segment s db = Ok (s', db') →
  id s' = Some (Z.max (max_rowid db) (sqlite_sequence db) + 1)
  ∧ sqlite_sequence db' = Z.max (max_rowid db) (sqlite_sequence db) + 1
  ∧ ids db' = ids db ++ [Z.max (max_rowid db) (sqlite_sequence db) + 1]
  ∧ filenames db' = filenames db ++ [filename s]
  ∧ filename s ∉ filenames db.
Proof.
  unfold add_segment. case_bool_decide as Hin; [done|].
  intros [= <- <-]. simpl. unfold ids, filenames. simpl.
  by rewrite !fmap_app.
Qed.

Lemma overwrite_keeps_ids s n l :
  row_id <$> ((λ r, if bool_decide (row_id r = n) then overwrite s r else r) <$> l)
  = row_id <$> l.
Proof.
  rewrite <- list_fmap_compose. apply list_fmap_ext. intros i r _. simpl.
  by case_bool_decide.
Qed.

Lemma overwrite_keeps_filenames s n l :
  row_filename <$> ((λ r, if bool_decide (row_id r = n) then overwrite s r else r) <$> l)
  = row_filename <$> l.
Proof.
  rewrite <- list_fmap_compose. apply list_fmap_ext. intros i r _. simpl.
  by case_bool_decide.
Qed.

Lemma reset_keeps_ids l : row_id <$> (reset_row <$> l) = row_id <$> l.
Proof.
  rewrite <- list_fmap_compose. apply list_fmap_ext. intros i r _. simpl.
  unfold reset_row. by case_bool_decide.
Qed.

Lemma reset_keeps_filenames l : row_filename <$> (reset_row <$> l) = row_filename <$> l.
Proof.
  rewrite <- list_fmap_compose. apply list_fmap_ext. intros i r _. simpl.
  unfold reset_row. by case_bool_decide.
Qed.

Lemma NoDup_fmap_filter {B} (f : Row → B) (P : Row → Prop) `{!∀ r, Decision (P r)} l :
  NoDup (f <$> l) → NoDup (f <$> filter P l).
Proof.
  induction l as [|r l IH]; [done|]. rewrite fmap_cons.
  intros [Hr Hnd]%NoDup_cons. rewrite filter_cons.
  destruct (decide (P r)); [|by apply IH].
  rewrite fmap_cons. apply NoDup_cons. split; [|by apply IH].
  intros (r' & Heq & Hr')%list_elem_of_fmap. apply Hr.
  apply list_elem_of_filter in Hr' as [_ Hr']. rewrite Heq. by apply list_elem_of_fmap_2.
Qed.

(* Every call keeps the constraints of the schema and never lowers the
   AUTOINCREMENT counter. *)
Lemma apply_op_ok d o :
  store_ok d → store_ok (apply_op d o) ∧ sqlite_sequence d ≤ sqlite_sequence (apply_op d o).
Proof.
  intros (Hids & Hnames & Hbound). destruct o as [s|s| |now days]; simpl.
  - destruct (add_segment s d) as [[s' d']|e] eqn:Hadd; simpl; [|by split; [split_and!|lia]].
    destruct (add_segment_new_id s d s' d' Hadd) as (_ & Hseq & Hnew & Hfn & Hfresh).
    pose proof (max_rowid_ge d) as Hmax.
    split; [|lia]. split_and!.
    + rewrite Hnew. apply NoDup_app. split_and!; [done| |apply NoDup_singleton].
      intros i Hi ->%list_elem_of_singleton. specialize (Hmax _ Hi). lia.
    + rewrite Hfn. apply NoDup_app. split_and!; [done| |apply NoDup_singleton].
      by intros x Hx ->%list_elem_of_singleton.
    + intros i. rewrite Hnew, Hseq. intros [Hi| ->%list_elem_of_singleton]%elem_of_app.
      * specialize (Hbound i Hi). lia.
      * pose proof (max_rowid_nonneg d). lia.
  - unfold update_segment, update_segment_on. destruct (id s) as [n|]; simpl; [|by split; [split_and!|lia]].
    split; [|lia]. unfold store_ok, ids, filenames. simpl.
    by rewrite overwrite_keeps_ids, overwrite_keeps_filenames.
  - split; [|lia]. unfold store_ok, ids, filenames. simpl.
    by rewrite reset_keeps_ids, reset_keeps_filenames.
  - split; [|lia]. unfold store_ok, ids, filenames. simpl. split_and!.
    + by apply NoDup_fmap_filter.
    + by apply NoDup_fmap_filter.
    + intros i (r & -> & Hr)%list_elem_of_fmap.
      apply list_elem_of_filter in Hr as [_ Hr]. apply Hbound. by apply list_elem_of_fmap_2.
Qed.

Lemma apply_ops_ok ops d :
  store_ok d →
  store_ok (apply_ops ops d) ∧ sqlite_sequence d ≤ sqlite_sequence (apply_ops ops d).
Proof.
  revert d. induction ops as [|o ops IH]; intros d Hok; simpl; [by split; [|lia]|].
  destruct (apply_op_ok d o Hok) as [Hok1 Hle1].
  destruct (IH _ Hok1) as [Hok2 Hle2]. split; [done|]. unfold apply_ops in *. simpl. lia.
Qed.

Lemma empty_db_ok : store_ok empty_db.
Proof.
  split_and!; [constructor|constructor|]. by intros i ?%elem_of_nil.
Qed.

Lemma head_filter_unique_id l r :
  NoDup (row_id <$> l) → r ∈ l → head (filter (λ x, row_id x = row_id r) l) = Some r.
Proof.
  induction l as [|x l IH]; [by intros _ ?%elem_of_nil|].
  rewrite fmap_cons. intros [Hx Hnd]%NoDup_cons [->|Hin]%elem_of_cons.
  - by rewrite filter_cons_True.
  - rewrite filter_cons_False; [by apply IH|].
    intros Heq. apply Hx. rewrite Heq. by apply list_elem_of_fmap_2.
Qed.

Lemma from_dict_inj r1 r2 : from_dict r1 = from_dict r2 → r1 = r2.
Proof. destruct r1, r2. unfold from_dict. simpl. by intros [= -> -> -> -> -> -> -> -> -> -> ->]. Qed.

Lemma length_insert_by key r l : length (insert_by key r l) = S (length l).
Proof.
  induction l as [|x l IH]; simpl; [done|]. destruct (key r <=? key x); simpl; [done|].
  by rewrite IH.
Qed.

Lemma length_order_by key l : length (order_by key l) = length l.
Proof.
  induction l as [|x l IH]; [done|]. unfold order_by in *. simpl.
  by rewrite length_insert_by, IH.
Qed.

Lemma sql_datetime_mono t1 t2 : t1 ≤ t2 → sql_datetime t1 ≤ sql_datetime t2.
Proof. intros Hle. unfold sql_datetime. apply Z.div_le_mono; lia. Qed.

Lemma sql_datetime_shift t k : sql_datetime (t + 1000000 * k) = sql_datetime t + k.
Proof.
  unfold sql_datetime.
  replace (t + 1000000 * k) with (t + k * 1000000) by lia.
  by rewrite Z.div_add by lia.
Qed.

(* Cutting the fraction off loses less than a second. *)
Lemma sql_datetime_bounds t :
  1000000 * sql_datetime t ≤ t < 1000000 * sql_datetime t + 1000000.
Proof.
  unfold sql_datetime.
  pose proof (Z.mul_div_le t 1000000). pose proof (Z.mul_succ_div_gt t 1000000). lia.
Qed.

(* Rounding to milliseconds first adds at most half a millisecond. *)
Lemma sql_datetime_minus_bounds t k :
  1000000 * sql_datetime_minus t k ≤ t + 500 - 1000000 * k
  ∧ t + 500 - 1000000 * k < 1000000 * sql_datetime_minus t k + 1000000.
Proof.
  unfold sql_datetime_minus.
  replace (((t + 500) `div` 1000) `div` 1000) with ((t + 500) `div` 1000000)
    by (rewrite Z.div_div by lia; reflexivity).
  pose proof (Z.mul_div_le (t + 500) 1000000).
  pose proof (Z.mul_succ_div_gt (t + 500) 1000000). lia.
Qed.

Lemma sql_now_minus_bounds t k :
  1000000 * sql_now_minus t k ≤ t - 1000000 * k
  ∧ t - 1000000 * k < 1000000 * sql_now_minus t k + 1000000.
Proof.
  unfold sql_now_minus.
  pose proof (Z.mul_div_le t 1000000). pose proof (Z.mul_succ_div_gt t 1000000). lia.
Qed.

(* get_uploaded_segments selects the UPLOADED rows past the buffer. *)
Lemma get_uploaded_segments_past now minutes d s :
  s ∈ get_uploaded_segments now minutes d →
  ∃ r, r ∈ rows d ∧ s = from_dict r ∧ row_state r = UPLOADED ∧ past_buffer now minutes r.
Proof.
  unfold get_uploaded_segments, past_buffer. intros (r & -> & Hr)%list_elem_of_fmap.
  apply elem_of_order_by, list_elem_of_filter in Hr as [[Hst Hold] Hr].
  exists r. split_and!; [done|done|done| |].
  - destruct (row_uploaded_at r); [|done].
    apply andb_true_iff in Hold as [Hok _]. by apply Z.leb_le in Hok.
  - destruct (row_uploaded_at r) as [t|]; [|done].
    apply andb_true_iff in Hold as [_ Hold].
    exists t. split; [done|]. by apply Z.ltb_lt.
Qed.

Lemma past_get_uploaded_segments now minutes d r :
  r ∈ rows d → row_state r = UPLOADED → past_buffer now minutes r →
  from_dict r ∈ get_uploaded_segments now minutes d.
Proof.
  intros Hr Hst (Hmin & t & Ht & Hold). unfold get_uploaded_segments.
  apply list_elem_of_fmap_2, elem_of_order_by, list_elem_of_filter.
  split; [|done]. split; [done|]. rewrite Ht.
  apply andb_true_iff. split; [by apply Z.leb_le|by apply Z.ltb_lt].
Qed.

(* A row past the buffer was uploaded more than [minutes] minutes less
   half a millisecond ago. *)
Lemma past_buffer_age now minutes r :
  past_buffer now minutes r →
  ∃ t, row_uploaded_at r = Some t ∧ 60000000 * minutes - 500 < now - t.
Proof.
  intros (_ & t & Ht & Hold). exists t. split; [done|].
  pose proof (sql_datetime_bounds t).
  pose proof (sql_datetime_minus_bounds now (60 * minutes)). lia.
Qed.

End StoreMoreFacts.

(** X1. add_segment with a filename the store does not hold succeeds: the
    segment gets an id above the AUTOINCREMENT counter and above every id
    in use, one row is added, and the row is found again by filename and
    by id.  Only filename, filepath, created_at and state come from the
    segment that was passed; upload_attempts, uploaded_at, last_error,
    s3_key and s3_bucket read back as their column defaults whatever the
    segment carried. *)
Theorem add_segment_then_lookup (s : Segment) (db : Database) :
  filename s ∉ filenames db →
  ∃ (s' : Segment) (db' : Database) (i : Z),
    add_segment s db = Ok (s', db')
    ∧ id s' = Some i
    ∧ sqlite_sequence db < i
    ∧ (∀ j, j ∈ ids db → j < i)
    ∧ length (rows db') = S (length (rows db))
    ∧ ∃ got,
        get_segment_by_filename (filename s) db' = Some got
        ∧ get_segment_by_id i db' = Some got
        ∧ id got = Some i
        ∧ filename got = filename s
        ∧ filepath got = filepath s
        ∧ created_at got = created_at s
        ∧ state got = state s
        ∧ upload_attempts got = 0
        ∧ uploaded_at got = None
        ∧ last_error got = None
        ∧ s3_key got = None
        ∧ s3_bucket got = None.
Proof.
  intros Hfresh.
  pose proof (max_rowid_ge db) as Hmax.
  unfold add_segment. rewrite bool_decide_eq_false_2 by done.
  set (i := Z.max (max_rowid db) (sqlite_sequence db) + 1).
  eexists _, _, i. split; [reflexivity|]. simpl.
  split_and!; [done|lia|intros j Hj; specialize (Hmax j Hj); lia| |].
  { rewrite length_app. simpl. lia. }
  eexists. unfold get_segment_by_filename, get_segment_by_id. simpl.
  rewrite !filter_app.
  rewrite (filter_none_length (λ r, row_filename r = filename s) (rows db)).
  2:{ intros r Hr Heq. apply Hfresh. rewrite <- Heq. by apply list_elem_of_fmap_2. }
  rewrite (filter_none_length (λ r, row_id r = i) (rows db)).
  2:{ intros r Hr Heq. assert (row_id r ∈ ids db) as Hin by by apply list_elem_of_fmap_2.
      specialize (Hmax _ Hin). lia. }
  simpl. rewrite !filter_cons_True by done. simpl.
  split_and!; reflexivity.
Qed.

Lemma add_segment_then_lookup_witness :
  (filename MoreExamples.seg_a_dirty ∉ filenames empty_db)
  ∧ ∃ got, get_segment_by_filename "a.ts"
             (db_after (add_segment MoreExamples.seg_a_dirty empty_db) empty_db) = Some got
      ∧ id got = Some 1
      ∧ upload_attempts got = 0
      ∧ s3_key got = None.
Proof.
  assert (filename MoreExamples.seg_a_dirty ∉ filenames empty_db) as Hfresh
    by apply not_elem_of_nil.
  split; [exact Hfresh|].
  destruct (add_segment_then_lookup MoreExamples.seg_a_dirty empty_db Hfresh)
    as (s' & db' & i & Hadd & Hid & _ & _ & _ & got & Hname & _ & Hgid & _ & _ & _ & _
        & Hatt & _ & _ & Hkey & _).
  exists got. rewrite Hadd. simpl. split; [exact Hname|].
  vm_compute in Hadd. injection Hadd as <- <-. injection Hid as <-.
  split; [exact Hgid|]. split; [exact Hatt|exact Hkey].
Defined.

(** X2. Ids are never reused.  Whatever calls are made on a store that
    satisfies its schema (add_segment, update_segment,
    reset_uploading_segments, cleanup_old_records, in any order, failed
    calls included), the schema's constraints still hold afterwards, and
    a later successful add_segment hands out an id that is larger than
    every id the store held before those calls, also when the row of
    that id has been purged in between. *)
Theorem ids_never_reused
    (ops : list StoreOp) (d : Database) (s s' : Segment) (d' : Database) (i0 : Z) :
  store_ok d →
  i0 ∈ ids d →
  add_segment s (apply_ops ops d) = Ok (s', d') →
  store_ok (apply_ops ops d)
  ∧ store_ok d'
  ∧ ∃ i, id s' = Some i ∧ i0 < i ∧ sqlite_sequence d < i ∧ i ∉ ids (apply_ops ops d).
Proof.
  intros Hok Hi0 Hadd.
  destruct (apply_ops_ok ops d Hok) as [Hok1 Hle].
  destruct (apply_op_ok _ (OpAdd s) Hok1) as [Hok2 _]. simpl in Hok2.
  rewrite Hadd in Hok2. simpl in Hok2.
  destruct (add_segment_new_id _ _ _ _ Hadd) as (Hid & _ & _ & _ & _).
  split_and!; [done|done|].
  eexists. split; [exact Hid|].
  destruct Hok as (_ & _ & Hbound). specialize (Hbound i0 Hi0).
  split_and!; [lia|lia|].
  intros Hin. destruct Hok1 as (_ & _ & Hbound1). specialize (Hbound1 _ Hin). lia.
Qed.

Lemma example_store_ok : store_ok MoreExamples.db_abcd.
Proof.
  split_and!.
  - vm_compute. repeat (apply NoDup_cons; split;
      [intros Hin; repeat (apply elem_of_cons in Hin as [Hin|Hin]; [discriminate Hin|]);
       by apply elem_of_nil in Hin|]). apply NoDup_nil_2.
  - vm_compute. repeat (apply NoDup_cons; split;
      [intros Hin; repeat (apply elem_of_cons in Hin as [Hin|Hin]; [discriminate Hin|]);
       by apply elem_of_nil in Hin|]). apply NoDup_nil_2.
  - intros i Hin. vm_compute in Hin.
    repeat (apply elem_of_cons in Hin as [->|Hin]; [vm_compute; split; [reflexivity|discriminate]|]).
    by apply elem_of_nil in Hin.
Defined.

Lemma ids_never_reused_witness :
  store_ok MoreExamples.db_abcd
  ∧ 4 ∈ ids MoreExamples.db_abcd
  ∧ (4 ∉ ids (apply_ops [OpPurge MoreExamples.eight_days 7] MoreExamples.db_abcd))
  ∧ ∃ s' d' i,
      add_segment Examples.seg_stray
        (apply_ops [OpPurge MoreExamples.eight_days 7] MoreExamples.db_abcd) = Ok (s', d')
      ∧ id s' = Some i ∧ 4 < i.
Proof.
  assert (4 ∈ ids MoreExamples.db_abcd) as Hin by (vm_compute; do 3 right; left).
  split; [exact example_store_ok|]. split; [exact Hin|].
  split.
  { vm_compute. intros H.
    repeat (apply elem_of_cons in H as [H|H]; [discriminate H|]). by apply elem_of_nil in H. }
  destruct (add_segment Examples.seg_stray
              (apply_ops [OpPurge MoreExamples.eight_days 7] MoreExamples.db_abcd))
    as [[s' d']|e] eqn:Hadd; [|vm_compute in Hadd; discriminate Hadd].
  destruct (ids_never_reused [OpPurge MoreExamples.eight_days 7] MoreExamples.db_abcd
              Examples.seg_stray s' d' 4 example_store_ok Hin Hadd)
    as (_ & _ & i & Hid & Hlt & _).
  exists s', d', i. split; [reflexivity|]. split; [exact Hid|exact Hlt].
Defined.

(** X3. update_segment followed by get_segment_by_id, on a store with
    unique ids that holds a row with the segment's id: the segment read
    back has the state, upload_attempts, last_error, uploaded_at, s3_key
    and s3_bucket of the segment that was written, and the filename,
    filepath and created_at of the stored row, whatever the written
    segment says about those. *)
Theorem update_then_get (s : Segment) (db : Database) (r : Row) (n : Z) :
  NoDup (ids db) →
  r ∈ rows db →
  row_id r = n →
  id s = Some n →
  ∃ db' got,
    update_segment s db = Ok db'
    ∧ get_segment_by_id n db' = Some got
    ∧ id got = Some n
    ∧ state got = state s
    ∧ upload_attempts got = upload_attempts s
    ∧ last_error got = last_error s
    ∧ uploaded_at got = uploaded_at s
    ∧ s3_key got = s3_key s
    ∧ s3_bucket got = s3_bucket s
    ∧ filename got = row_filename r
    ∧ filepath got = row_filepath r
    ∧ created_at got = row_created_at r.
Proof.
  intros Hnd Hr Hn Hid.
  rewrite (update_segment_ok s db n Hid).
  eexists _, (from_dict (overwrite s r)). split; [reflexivity|].
  split; [|by simpl; rewrite Hn].
  unfold get_segment_by_id. simpl.
  set (upd := λ x, if bool_decide (row_id x = n) then overwrite s x else x).
  assert (upd r = overwrite s r) as Hupd
    by (unfold upd; by rewrite bool_decide_eq_true_2).
  replace (filter (λ x, row_id x = n) (upd <$> rows db))
    with (filter (λ x, row_id x = row_id (upd r)) (upd <$> rows db)).
  2:{ rewrite Hupd. simpl. by rewrite Hn. }
  rewrite head_filter_unique_id.
  - simpl. by rewrite Hupd.
  - unfold upd. by rewrite overwrite_keeps_ids.
  - by apply list_elem_of_fmap_2.
Qed.

Lemma update_then_get_witness :
  NoDup (ids Examples.db_abc)
  ∧ Examples.row_b ∈ rows Examples.db_abc
  ∧ ∃ db' got,
      update_segment MoreExamples.seg_b_done Examples.db_abc = Ok db'
      ∧ get_segment_by_id 2 db' = Some got
      ∧ state got = UPLOADED
      ∧ filename got = "b.ts".
Proof.
  assert (NoDup (ids Examples.db_abc)) as Hnd.
  { vm_compute. repeat (apply NoDup_cons; split;
      [intros Hin; repeat (apply elem_of_cons in Hin as [Hin|Hin]; [discriminate Hin|]);
       by apply elem_of_nil in Hin|]). apply NoDup_nil_2. }
  assert (Examples.row_b ∈ rows Examples.db_abc) as Hin by (right; left).
  split; [exact Hnd|]. split; [exact Hin|].
  destruct (update_then_get MoreExamples.seg_b_done Examples.db_abc Examples.row_b 2
              Hnd Hin eq_refl eq_refl)
    as (db' & got & Hup & Hget & _ & Hst & _ & _ & _ & _ & _ & Hname & _).
  exists db', got. split; [exact Hup|]. split; [exact Hget|].
  split; [exact Hst|exact Hname].
Defined.

Section QueryMoreFacts.

Implicit Types (db : Database) (r : Row) (l : list Row) (st : SegmentState).

(* The dict of count_by_state, state by state. *)
Lemma count_fold_lookup l st :
  foldr (λ r m, <[row_state r := default 0 (m !! row_state r) + 1]> m)
        (∅ : gmap SegmentState Z) l !! st
  = match length (filter (λ r, row_state r = st) l) with
    | O => None
    | S n => Some (Z.of_nat (S n))
    end.
Proof.
  induction l as [|r l IH]; [done|]. simpl foldr.
  destruct (decide (row_state r = st)) as [Heq|Hne].
  - rewrite filter_cons_True by done. rewrite Heq, lookup_insert_eq, IH. simpl length.
    destruct (length (filter _ l)); simpl; f_equal; lia.
  - rewrite filter_cons_False by done. by rewrite lookup_insert_ne.
Qed.

Lemma count_by_state_default db st :
  default 0 (count_by_state db !! st) = Z.of_nat (length (in_state st db)).
Proof.
  unfold count_by_state, in_state. rewrite count_fold_lookup.
  by destruct (length (filter _ (rows db))).
Qed.

Lemma count_by_state_same_length db1 db2 st :
  length (in_state st db1) = length (in_state st db2) →
  count_by_state db1 !! st = count_by_state db2 !! st.
Proof.
  unfold count_by_state, in_state. intros Hlen. by rewrite !count_fold_lookup, Hlen.
Qed.

Lemma reset_filter_other l st :
  st ≠ CREATED → st ≠ UPLOADING →
  length (filter (λ r, row_state r = st) (reset_row <$> l))
  = length (filter (λ r, row_state r = st) l).
Proof.
  intros Hc Hu. induction l as [|r l IH]; [done|]. rewrite fmap_cons.
  destruct (decide (row_state r = UPLOADING)) as [Hup|Hnup].
  - rewrite (filter_cons_False _ r) by congruence.
    rewrite filter_cons_False; [done|].
    unfold reset_row. rewrite bool_decide_eq_true_2 by done. simpl. congruence.
  - rewrite reset_row_fixed by done. rewrite !filter_cons.
    destruct (decide (row_state r = st)); simpl; by rewrite IH.
Qed.

Lemma reset_filter_created l :
  length (filter (λ r, row_state r = CREATED) (reset_row <$> l))
  = (length (filter (λ r, row_state r = CREATED) l)
     + length (filter (λ r, row_state r = UPLOADING) l))%nat.
Proof.
  induction l as [|r l IH]; [done|]. rewrite fmap_cons.
  destruct (decide (row_state r = UPLOADING)) as [Hup|Hnup].
  - rewrite (filter_cons_True (λ r, row_state r = UPLOADING)) by done.
    rewrite (filter_cons_False (λ r, row_state r = CREATED) r) by congruence.
    rewrite filter_cons_True.
    + simpl. rewrite IH. lia.
    + unfold reset_row. by rewrite bool_decide_eq_true_2.
  - rewrite reset_row_fixed by done.
    rewrite (filter_cons_False (λ r, row_state r = UPLOADING)) by done.
    rewrite !filter_cons.
    destruct (decide (row_state r = CREATED)); simpl; rewrite IH; lia.
Qed.

Lemma pending_sum_reset l :
  foldr (λ r total, row_file_size r + total) 0
    (filter (λ r, row_state r = CREATED ∨ row_state r = UPLOADING) (reset_row <$> l))
  = foldr (λ r total, row_file_size r + total) 0
      (filter (λ r, row_state r = CREATED ∨ row_state r = UPLOADING) l).
Proof.
  induction l as [|r l IH]; [done|]. rewrite fmap_cons.
  destruct (decide (row_state r = UPLOADING)) as [Hup|Hnup].
  - rewrite (filter_cons_True _ r) by by right.
    rewrite filter_cons_True.
    + simpl. rewrite IH. unfold reset_row. by rewrite bool_decide_eq_true_2.
    + left. unfold reset_row. by rewrite bool_decide_eq_true_2.
  - rewrite reset_row_fixed by done. rewrite !filter_cons.
    destruct (decide _); simpl; by rewrite IH.
Qed.

Lemma filter_split_length (stale : Row → bool) l :
  (length (filter (λ r, stale r = true) l) + length (filter (λ r, stale r = false) l))%nat
  = length l.
Proof.
  induction l as [|r l IH]; [done|]. rewrite !filter_cons.
  destruct (stale r) eqn:Hs; simpl.
  - destruct (decide (true = true)); [|done]. destruct (decide (true = false)); [done|].
    simpl. lia.
  - destruct (decide (false = true)); [done|]. destruct (decide (false = false)); [|done].
    simpl. lia.
Qed.

End QueryMoreFacts.

(** X4. get_segments_by_state returns the oldest rows of the state: the
    result is sorted by created_at, every segment in it carries the id
    and created_at of a row of that state, it has min(limit, number of
    such rows) entries (all of them for a negative limit), and a row of
    that state that was left out is not older than any row returned. *)
Theorem get_segments_by_state_oldest (st : SegmentState) (limit : Z) (db : Database) :
  StronglySorted (λ a b, created_at a ≤ created_at b) (get_segments_by_state st limit db)
  ∧ (∀ s, s ∈ get_segments_by_state st limit db →
       state s = st
       ∧ ∃ r, r ∈ rows db ∧ row_state r = st
              ∧ id s = Some (row_id r) ∧ created_at s = row_created_at r)
  ∧ length (get_segments_by_state st limit db)
      = (if limit <? 0 then length (in_state st db)
         else Nat.min (Z.to_nat limit) (length (in_state st db)))
  ∧ (∀ r, r ∈ rows db → row_state r = st →
       (∃ s, s ∈ get_segments_by_state st limit db ∧ id s = Some (row_id r))
       ∨ (∀ s, s ∈ get_segments_by_state st limit db → created_at s ≤ row_created_at r)).
Proof.
  split_and!.
  - apply get_segments_by_state_sorted.
  - intros s Hs.
    destruct (get_segments_by_state_rows st limit db s Hs) as (r & Hr & -> & Hst).
    split; [done|]. by exists r.
  - unfold get_segments_by_state, in_state. rewrite length_fmap.
    destruct (limit <? 0); [by rewrite length_order_by|].
    by rewrite length_take, length_order_by.
  - intros r Hr Hst. unfold get_segments_by_state.
    set (sel := order_by row_created_at (filter (λ x, row_state x = st) (rows db))).
    assert (r ∈ sel) as Hsel.
    { apply elem_of_order_by, list_elem_of_filter. by split. }
    destruct (limit <? 0).
    { left. exists (from_dict r). split; [by apply list_elem_of_fmap_2|done]. }
    rewrite <- (firstn_skipn (Z.to_nat limit) sel) in Hsel.
    apply elem_of_app in Hsel as [Htake|Hdrop].
    { left. exists (from_dict r). split; [by apply list_elem_of_fmap_2|done]. }
    right. intros s (r' & -> & Hr')%list_elem_of_fmap. simpl.
    pose proof (order_by_sorted row_created_at
                  (filter (λ x, row_state x = st) (rows db))) as Hsorted.
    fold sel in Hsorted. rewrite <- (firstn_skipn (Z.to_nat limit) sel) in Hsorted.
    by apply (StronglySorted_app_1_elem_of _ _ _ _ _ Hsorted Hr' Hdrop).
Qed.

Lemma get_segments_by_state_oldest_witness :
  length (get_segments_by_state UPLOADED 50 Examples.db_51) = 50%nat
  ∧ ∀ s, s ∈ get_segments_by_state UPLOADED 50 Examples.db_51 → state s = UPLOADED.
Proof.
  destruct (get_segments_by_state_oldest UPLOADED 50 Examples.db_51)
    as (_ & Hrows & Hlen & _).
  split.
  - rewrite Hlen. vm_compute. reflexivity.
  - intros s Hs. exact (proj1 (Hrows s Hs)).
Defined.

(** X5. count_by_state and reset_uploading_segments.  counts.get(state, 0)
    is the number of rows in that state, and a state without rows has no
    key.  After reset_uploading_segments the key for UPLOADING is gone,
    the count for CREATED has grown by the number the reset returned, and
    the counts of the other states are unchanged. *)
Theorem count_by_state_reset (db : Database) :
  (∀ st, default 0 (count_by_state db !! st) = Z.of_nat (length (in_state st db)))
  ∧ (∀ st, count_by_state db !! st = None ↔ in_state st db = [])
  ∧ count_by_state (reset_uploading_segments db).2 !! UPLOADING = None
  ∧ default 0 (count_by_state (reset_uploading_segments db).2 !! CREATED)
      = default 0 (count_by_state db !! CREATED) + (reset_uploading_segments db).1
  ∧ (∀ st, st ≠ CREATED → st ≠ UPLOADING →
       count_by_state (reset_uploading_segments db).2 !! st = count_by_state db !! st).
Proof.
  split_and!.
  - apply count_by_state_default.
  - intros st. unfold count_by_state, in_state. rewrite count_fold_lookup.
    destruct (filter _ (rows db)); simpl; split; done.
  - unfold count_by_state. rewrite count_fold_lookup. simpl.
    rewrite filter_none_length; [done|].
    intros r (r0 & -> & _)%list_elem_of_fmap. apply reset_row_state.
  - rewrite !count_by_state_default. unfold in_state. simpl.
    rewrite reset_filter_created. lia.
  - intros st Hc Hu. apply count_by_state_same_length. unfold in_state. simpl.
    by apply reset_filter_other.
Qed.

Lemma count_by_state_reset_witness :
  count_by_state MoreExamples.db_abcd !! FAILED = None
  ∧ count_by_state (reset_uploading_segments MoreExamples.db_abcd).2 !! CLEANED = Some 1
  ∧ default 0 (count_by_state (reset_uploading_segments MoreExamples.db_abcd).2 !! CREATED) = 2.
Proof.
  destruct (count_by_state_reset MoreExamples.db_abcd) as (_ & Hnone & _ & Hcreated & Hother).
  split; [apply (proj2 (Hnone FAILED)); reflexivity|].
  split; [rewrite (Hother CLEANED) by discriminate; reflexivity|].
  rewrite Hcreated. reflexivity.
Defined.

(** X6. get_total_pending_size counts CREATED and UPLOADING rows alike, so
    reset_uploading_segments leaves it unchanged; a successful
    add_segment raises it by the file size of the segment when the
    segment is pending (CREATED or UPLOADING) and leaves it unchanged
    otherwise. *)
Theorem pending_size_accounting (db : Database) (s : Segment) :
  get_total_pending_size (reset_uploading_segments db).2 = get_total_pending_size db
  ∧ ∀ s' db', add_segment s db = Ok (s', db') →
      get_total_pending_size db'
      = get_total_pending_size db + (if is_pending s then file_size s else 0).
Proof.
  split.
  - unfold get_total_pending_size. simpl. apply pending_sum_reset.
  - unfold add_segment. case_bool_decide; [done|]. intros s' db' [= _ <-].
    unfold get_total_pending_size, is_pending. simpl.
    rewrite filter_app. rewrite filter_cons. simpl.
    assert (∀ (l k : list Row),
      foldr (λ r total, row_file_size r + total) 0 (l ++ k)
      = foldr (λ r total, row_file_size r + total) 0 l
        + foldr (λ r total, row_file_size r + total) 0 k) as Hsum.
    { intros l k. induction l as [|x l IH]; simpl; [lia|]. rewrite IH. lia. }
    rewrite Hsum. f_equal.
    destruct (decide _) as [Hp|Hp].
    + rewrite bool_decide_eq_true_2 by done. simpl. lia.
    + rewrite bool_decide_eq_false_2 by done. done.
Qed.

Lemma pending_size_accounting_witness :
  get_total_pending_size Examples.db_abc = 4000
  ∧ get_total_pending_size (reset_uploading_segments Examples.db_abc).2 = 4000
  ∧ get_total_pending_size
      (db_after (add_segment Examples.seg_stray Examples.db_abc) Examples.db_abc) = 4010.
Proof.
  destruct (pending_size_accounting Examples.db_abc Examples.seg_stray) as [Hreset Hadd].
  split; [reflexivity|]. split; [rewrite Hreset; reflexivity|].
  destruct (add_segment Examples.seg_stray Examples.db_abc) as [[s' db']|e] eqn:Heq;
    [|vm_compute in Heq; discriminate Heq].
  simpl. rewrite (Hadd s' db' eq_refl). reflexivity.
Defined.

(** X7. cleanup_old_records removes rows and changes none: what is left
    is a sublist of the rows; a row that is not CLEANED is never removed;
    a negative [days] removes nothing; the number returned is the number
    of rows removed; and a second call at the same time removes nothing.
    created_at is the local wall-clock time of the writer while the
    cutoff is taken on SQLite's UTC clock.  With the local clock
    [utc_offset] ahead of UTC, a row is kept while its age is at most
    [days] days plus utc_offset, and for days >= 0 a CLEANED row is
    removed once its age is at least [days] days plus utc_offset plus
    one second: west of UTC a row is purged before it is [days] days
    old. *)
Theorem cleanup_old_records_only_cleaned (utc_now : datetime) (days : Z) (db : Database) :
  rows (cleanup_old_records utc_now days db).2 `sublist_of` rows db
  ∧ (∀ r, r ∈ rows db → row_state r ≠ CLEANED →
       r ∈ rows (cleanup_old_records utc_now days db).2)
  ∧ (∀ r utc_offset created_utc,
       r ∈ rows db → row_created_at r = created_utc + utc_offset →
       utc_now - created_utc ≤ 86400000000 * days + utc_offset →
       r ∈ rows (cleanup_old_records utc_now days db).2)
  ∧ (∀ r utc_offset created_utc,
       row_state r = CLEANED → 0 ≤ days →
       row_created_at r = created_utc + utc_offset →
       86400000000 * days + utc_offset + 1000000 ≤ utc_now - created_utc →
       r ∉ rows (cleanup_old_records utc_now days db).2)
  ∧ (days < 0 → cleanup_old_records utc_now days db = (0, db))
  ∧ (cleanup_old_records utc_now days db).1
      = Z.of_nat (length (rows db))
        - Z.of_nat (length (rows (cleanup_old_records utc_now days db).2))
  ∧ cleanup_old_records utc_now days (cleanup_old_records utc_now days db).2
      = (0, (cleanup_old_records utc_now days db).2)
  ∧ sqlite_sequence (cleanup_old_records utc_now days db).2 = sqlite_sequence db.
Proof.
  unfold cleanup_old_records. simpl.
  set (stale := λ r : Row,
    bool_decide (row_state r = CLEANED) &&
    (modifier_ok days
     && (sql_datetime (row_created_at r) <? sql_now_minus utc_now (86400 * days)))).
  pose proof (sql_now_minus_bounds utc_now (86400 * days)) as [Hlo Hhi].
  split; [|split; [|split; [|split; [|split; [|split; [|split]]]]]].
  - apply sublist_filter.
  - intros r Hr Hst. apply list_elem_of_filter. split; [|done].
    unfold stale. by rewrite bool_decide_eq_false_2.
  - intros r utc_offset created_utc Hr Hlocal Hrecent.
    apply list_elem_of_filter. split; [|done].
    unfold stale. apply andb_false_iff. right. apply andb_false_iff. right.
    apply Z.ltb_ge. pose proof (sql_datetime_bounds (row_created_at r)). lia.
  - intros r utc_offset created_utc Hst Hdays Hlocal Hold Hin.
    apply list_elem_of_filter in Hin as [Hfresh _]. unfold stale in Hfresh.
    rewrite bool_decide_eq_true_2 in Hfresh by done.
    unfold modifier_ok in Hfresh. rewrite (proj2 (Z.leb_le _ _) Hdays) in Hfresh.
    simpl in Hfresh. apply Z.ltb_ge in Hfresh.
    pose proof (sql_datetime_bounds (row_created_at r)). lia.
  - intros Hneg.
    assert (∀ r, ¬ stale r = true) as Hnone.
    { intros r. unfold stale, modifier_ok. rewrite (proj2 (Z.leb_gt _ _) Hneg).
      simpl. by rewrite andb_false_r. }
    f_equal.
    + rewrite filter_none_length; [done|]. intros r _. apply Hnone.
    + destruct db as [l q]. simpl. f_equal.
      induction l as [|r l IH]; [done|].
      rewrite filter_cons_True by (apply not_true_is_false, Hnone).
      by rewrite IH.
  - pose proof (filter_split_length stale (rows db)) as Hsplit.
    unfold stale in Hsplit. lia.
  - f_equal.
    + rewrite filter_none_length; [done|].
      intros r [Hs _]%list_elem_of_filter. by rewrite Hs.
    + f_equal. rewrite list_filter_filter. apply list_filter_iff. tauto.
  - done.
Qed.

Lemma cleanup_old_records_only_cleaned_witness :
  (cleanup_old_records MoreExamples.eight_days 7 MoreExamples.db_abcd).1 = 1
  ∧ Examples.row_c ∈ rows (cleanup_old_records MoreExamples.eight_days 7 MoreExamples.db_abcd).2
  ∧ MoreExamples.eight_days - MoreExamples.created_utc_w < 86400000000 * 7
  ∧ (MoreExamples.row_w
       ∉ rows (cleanup_old_records MoreExamples.eight_days 7 MoreExamples.db_w).2).
Proof.
  destruct (cleanup_old_records_only_cleaned MoreExamples.eight_days 7 MoreExamples.db_abcd)
    as (_ & Hkeep & _ & _ & _ & Hcount & _).
  destruct (cleanup_old_records_only_cleaned MoreExamples.eight_days 7 MoreExamples.db_w)
    as (_ & _ & _ & Hpurged & _).
  split; [rewrite Hcount; reflexivity|]. split; [|split].
  - apply Hkeep; [do 2 right; left|discriminate].
  - vm_compute. reflexivity.
  - apply (Hpurged MoreExamples.row_w MoreExamples.five_hours_west
             MoreExamples.created_utc_w);
      [reflexivity|vm_compute; discriminate|reflexivity|vm_compute; discriminate].
Defined.

(** X8. get_uploaded_segments, for minutes >= 0 (the modifier
    '-N minutes' is then well formed), returns exactly the UPLOADED rows
    for which SQLite finds datetime(uploaded_at) before the cutoff:
    uploaded_at with its fraction of a second cut off, against now
    rounded to milliseconds, moved back and cut to seconds; oldest
    upload first.  Every segment returned was uploaded more than
    [minutes] minutes less half a millisecond ago (it may be up to that
    much short of [minutes] minutes); an UPLOADED row uploaded at least
    [minutes] minutes and 1.0005 seconds ago is always returned. *)
Theorem get_uploaded_segments_window (now : datetime) (minutes : Z) (db : Database) :
  0 ≤ minutes →
  (∀ s, s ∈ get_uploaded_segments now minutes db →
        state s = UPLOADED
        ∧ ∃ r, r ∈ rows db ∧ id s = Some (row_id r) ∧ row_state r = UPLOADED
               ∧ past_buffer now minutes r)
  ∧ (∀ r, r ∈ rows db → row_state r = UPLOADED → past_buffer now minutes r →
        ∃ s, s ∈ get_uploaded_segments now minutes db ∧ id s = Some (row_id r))
  ∧ StronglySorted (λ a b, default 0 (uploaded_at a) ≤ default 0 (uploaded_at b))
      (get_uploaded_segments now minutes db)
  ∧ (∀ s, s ∈ get_uploaded_segments now minutes db →
        ∃ t, uploaded_at s = Some t ∧ 60000000 * minutes - 500 < now - t)
  ∧ (∀ r t, r ∈ rows db → row_state r = UPLOADED → row_uploaded_at r = Some t →
       60000000 * minutes + 1000500 ≤ now - t →
       ∃ s, s ∈ get_uploaded_segments now minutes db ∧ id s = Some (row_id r)).
Proof.
  intros Hmin.
  pose proof (get_uploaded_segments_past now minutes db) as Hpast.
  pose proof (past_get_uploaded_segments now minutes db) as Hback.
  split; [|split; [|split; [|split]]].
  - intros s (r & Hr & -> & Hst & Hold)%Hpast. split; [done|]. by exists r.
  - intros r Hr Hst Hold. exists (from_dict r). split; [|done]. by apply Hback.
  - unfold get_uploaded_segments.
    apply (fmap_sorted from_dict (ascending (λ r, default 0 (row_uploaded_at r)))); [done|].
    apply order_by_sorted.
  - intros s (r & _ & -> & _ & Hold)%Hpast.
    destruct (past_buffer_age _ _ _ Hold) as (t & Ht & Hage). by exists t.
  - intros r t Hr Hst Ht Hold. exists (from_dict r). split; [|done].
    apply Hback; [done|done|]. split; [done|]. exists t. split; [done|].
    pose proof (sql_datetime_bounds t).
    pose proof (sql_datetime_minus_bounds now (60 * minutes)). lia.
Qed.

Lemma get_uploaded_segments_window_witness :
  0 ≤ 30
  ∧ (∃ s, s ∈ get_uploaded_segments Examples.one_hour 30 Examples.db_abc ∧ id s = Some 3)
  ∧ ∀ s, s ∈ get_uploaded_segments 1000000000 30 Examples.db_abc →
         ∃ t, uploaded_at s = Some t ∧ 60000000 * 30 - 500 < 1000000000 - t.
Proof.
  assert (0 ≤ 30) as Hmin by (vm_compute; discriminate).
  split; [exact Hmin|].
  destruct (get_uploaded_segments_window Examples.one_hour 30 Examples.db_abc Hmin)
    as (_ & _ & _ & _ & Hold).
  destruct (get_uploaded_segments_window 1000000000 30 Examples.db_abc Hmin)
    as (_ & _ & _ & Hyoung & _).
  split.
  - apply (Hold Examples.row_c 400); [do 2 right; left|reflexivity|reflexivity|].
    vm_compute. discriminate.
  - exact Hyoung.
Defined.

(* ===================================================================== *)
(* More about the upload worker                                          *)
(* ===================================================================== *)

Section UploaderMoreFacts.

Context (cfg : S3Config) (s3 : S3).

Ltac attempt_branches :=
  unfold attempt;
  repeat match goal with
         | |- context [match update_segment ?s ?d with _ => _ end] =>
             let H := fresh "Hupd" in destruct (update_segment s d) eqn:H; simpl
         | |- context [match upload_file ?c ?r ?f ?p ?k ?a with _ => _ end] =>
             let H := fresh "Hfile" in
             destruct (upload_file c r f p k a) as [[]|[]] eqn:H; simpl
         | |- context [if ?b then _ else _] => destruct b eqn:?; simpl
         end.

Lemma update_keeps_ids s d d' : update_segment s d = Ok d' → ids d' = ids d.
Proof.
  unfold update_segment, update_segment_on. destruct (id s); [|done]. intros [= <-].
  unfold ids. simpl. apply overwrite_keeps_ids.
Qed.


Lemma attempt_keeps_meta st :
  filename (seg (attempt cfg s3 st).2) = filename (seg st)
  ∧ filepath (seg (attempt cfg s3 st).2) = filepath (seg st)
  ∧ created_at (seg (attempt cfg s3 st).2) = created_at (seg st).
Proof. attempt_branches; done. Qed.

Lemma attempt_keeps_ids st :
  ids (db (world (attempt cfg s3 st).2)) = ids (db (world st)).
Proof.
  attempt_branches;
    repeat match goal with
           | H : update_segment _ _ = Ok _ |- _ => apply update_keeps_ids in H
           end; simpl in *; congruence.
Qed.

Lemma attempt_keeps_errors st :
  error_count (world (attempt cfg s3 st).2) = error_count (world st).
Proof. attempt_branches; done. Qed.

Lemma attempt_uploads st :
  ((attempt cfg s3 st).1 = Return →
     upload_count (world (attempt cfg s3 st).2) = upload_count (world st) + 1
     ∧ s3_key (seg (attempt cfg s3 st).2) = Some (build_s3_key cfg (seg st))
     ∧ s3_bucket (seg (attempt cfg s3 st).2) = Some (bucket cfg)
     ∧ last_error (seg (attempt cfg s3 st).2) = None
     ∧ uploaded_at (seg (attempt cfg s3 st).2) = Some (clock (world st))
     ∧ clock (world (attempt cfg s3 st).2) = clock (world st)
     ∧ ∃ d, update_segment (seg (attempt cfg s3 st).2) d
              = Ok (db (world (attempt cfg s3 st).2))
            ∧ ids d = ids (db (world st)))
  ∧ ((attempt cfg s3 st).1 ≠ Return →
     upload_count (world (attempt cfg s3 st).2) = upload_count (world st)).
Proof.
  attempt_branches; (split; [intros Hflow; try discriminate Hflow|intros Hflow; try done]).
  split_and!; try reflexivity.
  eexists. split; [eassumption|].
  match goal with
  | H : update_segment (mark_uploading _) _ = Ok _ |- _ => by apply update_keeps_ids in H
  end.
Qed.



Lemma run_keeps_errors n st :
  error_count (world (run cfg s3 n st).2) = error_count (world st).
Proof.
  revert st. induction n as [|n IH]; intros st; simpl; [done|].
  destruct (upload_attempts (seg st) <? max_retries cfg); [|done].
  pose proof (attempt_keeps_errors st) as Herr.
  destruct (attempt cfg s3 st) as [[| |e] st'] eqn:Hatt; simpl in *; [|done|done].
  by rewrite IH.
Qed.

Lemma build_s3_key_meta s1 s2 :
  filename s1 = filename s2 → created_at s1 = created_at s2 →
  build_s3_key cfg s1 = build_s3_key cfg s2.
Proof. unfold build_s3_key. by intros -> ->. Qed.

Lemma run_uploads n st :
  ((run cfg s3 n st).1 = Return →
     upload_count (world (run cfg s3 n st).2) = upload_count (world st) + 1
     ∧ s3_key (seg (run cfg s3 n st).2) = Some (build_s3_key cfg (seg st))
     ∧ s3_bucket (seg (run cfg s3 n st).2) = Some (bucket cfg)
     ∧ last_error (seg (run cfg s3 n st).2) = None
     ∧ uploaded_at (seg (run cfg s3 n st).2) = Some (clock (world (run cfg s3 n st).2))
     ∧ ∃ d, update_segment (seg (run cfg s3 n st).2) d
              = Ok (db (world (run cfg s3 n st).2))
            ∧ ids d = ids (db (world st)))
  ∧ ((run cfg s3 n st).1 ≠ Return →
     upload_count (world (run cfg s3 n st).2) = upload_count (world st)).
Proof.
  revert st. induction n as [|n IH]; intros st; simpl; [by split|].
  destruct (upload_attempts (seg st) <? max_retries cfg); [|by split].
  pose proof (attempt_uploads st) as [Hret Hother].
  pose proof (attempt_keeps_meta st) as (Hname & _ & Hcreated).
  pose proof (attempt_keeps_ids st) as Hids.
  destruct (attempt cfg s3 st) as [[| |e] st'] eqn:Hatt; simpl in *.
  - destruct (IH st') as [IHret IHother]. split.
    + intros Hflow. destruct (IHret Hflow) as (Hup & Hkey & Hb & He & Hat & d & Hd & Hdi).
      rewrite Hother in Hup by done.
      split_and!; [done| |done|done|done|].
      * rewrite Hkey. f_equal. by apply build_s3_key_meta.
      * exists d. split; [done|congruence].
    + intros Hflow. rewrite IHother by done. by apply Hother.
  - split; [|done]. intros _.
    destruct (Hret eq_refl) as (Hup & Hkey & Hb & He & Hat & Hclock & d & Hd & Hdi).
    split_and!; [done|done|done|done|congruence|]. by exists d.
  - split; [done|]. intros _. by apply Hother.
Qed.

End UploaderMoreFacts.

Section UploaderClock.

Context (cfg : S3Config) (s3 : S3).

Ltac clock_branches :=
  unfold attempt;
  repeat match goal with
         | |- context [match update_segment ?s ?d with _ => _ end] =>
             destruct (update_segment s d); simpl
         | |- context [match upload_file ?c ?r ?f ?p ?k ?a with _ => _ end] =>
             destruct (upload_file c r f p k a) as [[]|[]]; simpl
         | |- context [if ?a <? ?b then _ else _] => destruct (Z.ltb_spec a b); simpl
         end.

(* One pass sleeps at most once, for the current delay, and only when
   another attempt is left; afterwards the delay is at most 60 or is what
   it was. *)
Lemma attempt_clock st :
  0 ≤ delay st →
  0 ≤ delay (attempt cfg s3 st).2
  ∧ Z.max (delay (attempt cfg s3 st).2) 60 ≤ Z.max (delay st) 60
  ∧ clock (world st) ≤ clock (world (attempt cfg s3 st).2)
  ∧ clock (world (attempt cfg s3 st).2) ≤ clock (world st) + 1000000 * delay st
  ∧ (max_retries cfg ≤ upload_attempts (seg st) + 1 →
     clock (world (attempt cfg s3 st).2) = clock (world st)).
Proof. intros Hd. clock_branches; lia. Qed.

Lemma run_clock n st :
  0 ≤ delay st →
  clock (world st) ≤ clock (world (run cfg s3 n st).2)
  ∧ clock (world (run cfg s3 n st).2)
    ≤ clock (world st)
      + 1000000 * (Z.max (delay st) 60
                   * Z.max 0 (max_retries cfg - upload_attempts (seg st) - 1)).
Proof.
  revert st. induction n as [|n IH]; intros st Hd; simpl.
  - split; [lia|]. nia.
  - destruct (Z.ltb_spec (upload_attempts (seg st)) (max_retries cfg)) as [Hlt|Hge];
      [|simpl; split; [lia|nia]].
    pose proof (attempt_clock st Hd) as (Hd' & Hmax & Hlo & Hhi & Hlast).
    pose proof (attempt_counts cfg s3 st) as Hcount.
    assert (clock (world (attempt cfg s3 st).2)
            ≤ clock (world st)
              + 1000000 * (Z.max (delay st) 60
                           * Z.max 0 (max_retries cfg - upload_attempts (seg st) - 1)))
      as Hone.
    { destruct (Z.le_gt_cases (max_retries cfg) (upload_attempts (seg st) + 1)) as [Hl|Hm].
      - rewrite (Hlast Hl). nia.
      - nia. }
    destruct (attempt cfg s3 st) as [[| |e] st'] eqn:Hatt; simpl in *; [|lia|lia].
    destruct (IH st' Hd') as [IHlo IHhi]. split; [lia|].
    destruct (Z.le_gt_cases (max_retries cfg) (upload_attempts (seg st) + 1)) as [Hl|Hm].
    + rewrite (Hlast Hl) in *. nia.
    + nia.
Qed.

(* A pass whose transfer ends in an error of botocore goes round the loop
   again. *)
Lemma attempt_refused st i size msg :
  id (seg st) = Some i →
  disk (world st) !! filepath (seg st) = Some size →
  s3 (build_s3_key cfg (seg st)) (upload_attempts (seg st) + 1)
     (multipart_threshold cfg <? size) = Some (Botocore msg) →
  (attempt cfg s3 st).1 = Continue
  ∧ seg (attempt cfg s3 st).2 = mark_uploading (seg st)
  ∧ disk (world (attempt cfg s3 st).2) = disk (world st).
Proof.
  intros Hid Hfile Hs3. unfold attempt.
  rewrite (update_segment_ok (mark_uploading (seg st)) _ i) by done. simpl.
  unfold upload_file. simpl. rewrite Hfile.
  replace (build_s3_key cfg (mark_uploading (seg st))) with (build_s3_key cfg (seg st))
    by done.
  rewrite Hs3. by destruct (upload_attempts (seg st) + 1 <? max_retries cfg).
Qed.

(* A pass whose transfer is accepted returns. *)
Lemma attempt_accepted st i size :
  id (seg st) = Some i →
  disk (world st) !! filepath (seg st) = Some size →
  s3 (build_s3_key cfg (seg st)) (upload_attempts (seg st) + 1)
     (multipart_threshold cfg <? size) = None →
  (attempt cfg s3 st).1 = Return
  ∧ upload_attempts (seg (attempt cfg s3 st).2) = upload_attempts (seg st) + 1.
Proof.
  intros Hid Hfile Hs3. unfold attempt.
  rewrite (update_segment_ok (mark_uploading (seg st)) _ i) by done. simpl.
  unfold upload_file. simpl. rewrite Hfile.
  replace (build_s3_key cfg (mark_uploading (seg st))) with (build_s3_key cfg (seg st))
    by done.
  rewrite Hs3. unfold update_segment, update_segment_on. simpl. by rewrite Hid.
Qed.

Lemma run_refused_then_accepted (j : nat) :
  ∀ (n : nat) (st : Loop) (i size : Z),
    (j < n)%nat →
    id (seg st) = Some i →
    disk (world st) !! filepath (seg st) = Some size →
    upload_attempts (seg st) + Z.of_nat j + 1 ≤ max_retries cfg →
    (∀ a, upload_attempts (seg st) < a ≤ upload_attempts (seg st) + Z.of_nat j →
          ∃ msg, s3 (build_s3_key cfg (seg st)) a (multipart_threshold cfg <? size)
                 = Some (Botocore msg)) →
    s3 (build_s3_key cfg (seg st)) (upload_attempts (seg st) + Z.of_nat j + 1)
       (multipart_threshold cfg <? size) = None →
    (run cfg s3 n st).1 = Return
    ∧ upload_attempts (seg (run cfg s3 n st).2) = upload_attempts (seg st) + Z.of_nat j + 1.
Proof.
  induction j as [|j IH]; intros n st i size Hn Hid Hfile Hroom Hdown Hup;
    (destruct n as [|n]; [lia|]); simpl;
    rewrite (proj2 (Z.ltb_lt _ _)) by lia.
  - replace (upload_attempts (seg st) + Z.of_nat 0 + 1) with (upload_attempts (seg st) + 1)
      in * by lia.
    destruct (attempt_accepted st i size Hid Hfile Hup) as [Hflow Hatt].
    destruct (attempt cfg s3 st) as [f st'] eqn:Heq. simpl in *. subst f.
    simpl. split; [done|]. lia.
  - destruct (Hdown (upload_attempts (seg st) + 1)) as [msg Hmsg]; [lia|].
    destruct (attempt_refused st i size msg Hid Hfile Hmsg) as (Hflow & Hseg & Hdisk).
    destruct (attempt cfg s3 st) as [f st'] eqn:Heq. simpl in *. subst f. simpl.
    assert (upload_attempts (seg st') = upload_attempts (seg st) + 1) as Hatt
      by (rewrite Hseg; done).
    assert (build_s3_key cfg (seg st') = build_s3_key cfg (seg st)) as Hkey
      by (rewrite Hseg; done).
    destruct (IH n st' i size) as [Hret Hfinal].
    + lia.
    + rewrite Hseg. done.
    + rewrite Hdisk, Hseg. done.
    + lia.
    + intros a Ha. rewrite Hkey. apply Hdown. lia.
    + rewrite Hkey, Hatt.
      replace (upload_attempts (seg st) + 1 + Z.of_nat j + 1)
        with (upload_attempts (seg st) + Z.of_nat (S j) + 1) by lia. done.
    + split; [done|]. lia.
Qed.

End UploaderClock.





(** X11. Backoff is bounded.  With a non-negative retry_delay, the clock
    of the worker only moves forward while it handles a segment, and by
    no more than max(retry_delay, 60) seconds for each attempt that is
    left after the first one: at most
    max(retry_delay, 60) * max(0, max_retries - upload_attempts - 1)
    seconds in all.  No sleep follows the last attempt. *)
Theorem backoff_bounded (cfg : S3Config) (s3 : S3) (s : Segment) (w : World) (i : Z) :
  id s = Some i →
  0 ≤ retry_delay cfg →
  ∃ s' w',
    process_segment cfg s3 s w = Ok (s', w')
    ∧ clock w ≤ clock w'
    ∧ clock w' ≤ clock w
                 + 1000000 * (Z.max (retry_delay cfg) 60
                              * Z.max 0 (max_retries cfg - upload_attempts s - 1)).
Proof.
  intros Hid Hdelay.
  set (st0 := {| seg := s; world := w; delay := retry_delay cfg |}).
  unfold process_segment, upload_with_retry. fold st0.
  set (fuel := S (Z.to_nat (max_retries cfg - upload_attempts s))).
  pose proof (run_clock cfg s3 fuel st0 Hdelay) as Hclock.
  pose proof (run_keeps_id cfg s3 fuel st0) as Hkeep.
  revert Hclock Hkeep.
  destruct (run cfg s3 fuel st0) as [[| |e] st] eqn:Hrun; simpl; intros Hclock Hkeep.
  - by eexists _, _.
  - by eexists _, _.
  - destruct (update_segment_with_id (mark_failed (str e) (seg st)) (db (world st)))
      as [d' Hupd]; [simpl; rewrite Hkeep, Hid; by eexists|].
    rewrite Hupd. by eexists _, _.
Qed.

Lemma backoff_bounded_witness :
  0 ≤ retry_delay Examples.s3_cfg
  ∧ ∃ s' w',
      process_segment Examples.s3_cfg Examples.s3_always_down
        (from_dict Examples.row_a) (Examples.world_with Examples.disk_abc) = Ok (s', w')
      ∧ clock w' = 500 + 1000000 * (5 + 10 + 20 + 40)
      ∧ clock w' ≤ 500 + 1000000 * (60 * 4).
Proof.
  assert (0 ≤ retry_delay Examples.s3_cfg) as Hd by (vm_compute; discriminate).
  split; [exact Hd|].
  destruct (backoff_bounded Examples.s3_cfg Examples.s3_always_down
              (from_dict Examples.row_a) (Examples.world_with Examples.disk_abc) 1
              eq_refl Hd)
    as (s' & w' & Hproc & _ & Hhi).
  exists s', w'. split; [exact Hproc|]. split; [|exact Hhi].
  vm_compute in Hproc. injection Hproc as <- <-. reflexivity.
Defined.

(** X12. Retry until the transfer goes through.  If the local file
    exists, the next j attempts end in an error that the retry clause
    catches (a BotoCoreError such as a refused or timed-out connection,
    or a bare ClientError; not the S3UploadFailedError into which boto3
    wraps a refusal of the service), the attempt after them succeeds and
    is still within max_retries, then the worker ends with the segment
    UPLOADED after exactly j + 1 further attempts, counts one upload and
    no error. *)
Theorem retry_until_accepted
    (cfg : S3Config) (s3 : S3) (s : Segment) (w : World) (i size : Z) (j : nat) :
  id s = Some i →
  disk w !! filepath s = Some size →
  upload_attempts s + Z.of_nat j + 1 ≤ max_retries cfg →
  (∀ a, upload_attempts s < a ≤ upload_attempts s + Z.of_nat j →
        ∃ msg, s3 (build_s3_key cfg s) a (multipart_threshold cfg <? size)
               = Some (Botocore msg)) →
  s3 (build_s3_key cfg s) (upload_attempts s + Z.of_nat j + 1)
     (multipart_threshold cfg <? size) = None →
  ∃ s' w',
    process_segment cfg s3 s w = Ok (s', w')
    ∧ state s' = UPLOADED
    ∧ upload_attempts s' = upload_attempts s + Z.of_nat j + 1
    ∧ last_error s' = None
    ∧ upload_count w' = upload_count w + 1
    ∧ error_count w' = error_count w.
Proof.
  intros Hid Hfile Hroom Hdown Hup.
  set (st0 := {| seg := s; world := w; delay := retry_delay cfg |}).
  unfold process_segment, upload_with_retry. fold st0.
  set (fuel := S (Z.to_nat (max_retries cfg - upload_attempts s))).
  destruct (run_refused_then_accepted cfg s3 j fuel st0 i size) as [Hflow Hatt];
    [unfold fuel; lia|done|done|done|done|done|].
  pose proof (run_return cfg s3 fuel st0) as Hret.
  pose proof (run_uploads cfg s3 fuel st0) as [Hcount _].
  pose proof (run_keeps_errors cfg s3 fuel st0) as Herr.
  revert Hflow Hatt Hret Hcount Herr.
  destruct (run cfg s3 fuel st0) as [f st] eqn:Hrun; simpl.
  intros -> Hatt Hret Hcount Herr.
  destruct (Hcount eq_refl) as (Hup1 & _ & _ & Hlast & _).
  eexists _, _. split; [reflexivity|].
  split_and!; [by apply Hret|done|done|done|done].
Qed.

Lemma retry_until_accepted_witness :
  disk (Examples.world_with Examples.disk_abc) !! filepath (from_dict Examples.row_a)
    = Some 1000
  ∧ ∃ s' w',
      process_segment Examples.s3_cfg MoreExamples.s3_third_time
        (from_dict Examples.row_a) (Examples.world_with Examples.disk_abc) = Ok (s', w')
      ∧ state s' = UPLOADED
      ∧ upload_attempts s' = 3.
Proof.
  split; [reflexivity|].
  destruct (retry_until_accepted Examples.s3_cfg MoreExamples.s3_third_time
              (from_dict Examples.row_a) (Examples.world_with Examples.disk_abc)
              1 1000 2 eq_refl eq_refl)
    as (s' & w' & Hproc & Hst & Hatt & _).
  - vm_compute. discriminate.
  - intros a Ha. unfold MoreExamples.s3_third_time.
    assert ((a <? 3) = true) as -> by (apply Z.ltb_lt; simpl in Ha; lia). by eexists.
  - reflexivity.
  - exists s', w'. split; [exact Hproc|]. split; [exact Hst|exact Hatt].
Defined.

(* ===================================================================== *)
(* Registration of new files                                             *)
(* ===================================================================== *)

Section IngestFacts.

Implicit Types (w : Watcher) (fs : FS) (p : string).

Lemma get_segment_by_filename_None nm d :
  get_segment_by_filename nm d = None ↔ nm ∉ filenames d.
Proof.
  unfold get_segment_by_filename, filenames. split.
  - intros Hnone (r & Heq & Hr)%list_elem_of_fmap.
    destruct (filter (λ r, row_filename r = nm) (rows d)) as [|x xs] eqn:Hf; [|done].
    by apply (filter_nil_not_elem_of _ _ r Hf).
  - intros Hout. rewrite filter_none_length; [done|].
    intros r Hr Heq. apply Hout. rewrite <- Heq. by apply list_elem_of_fmap_2.
Qed.

Lemma add_segment_new_row s d s' d' :
  add_segment s d = Ok (s', d') →
  ∃ r, rows d' = rows d ++ [r]
    ∧ row_filename r = filename s
    ∧ state s' = state s
    ∧ filename s' = filename s
    ∧ filepath s' = filepath s
    ∧ upload_attempts s' = upload_attempts s
    ∧ is_Some (id s').
Proof.
  unfold add_segment. case_bool_decide; [done|]. intros [= <- <-].
  eexists. simpl. split_and!; try reflexivity. by eexists.
Qed.

(* The two cases of _handle_new_segment. *)
Lemma handle_tracked now fs w p :
  name p ∈ filenames (store w) → handle_new_segment now fs w p = w.
Proof.
  intros Hin. unfold handle_new_segment.
  destruct (get_segment_by_filename (name p) (store w)) eqn:Hget; [done|].
  by apply get_segment_by_filename_None in Hget.
Qed.

Lemma handle_untracked now fs w p :
  name p ∉ filenames (store w) →
  ∃ seg' db',
    add_segment (from_path now fs p) (store w) = Ok (seg', db')
    ∧ handle_new_segment now fs w p
      = {| store := db'; segments_processed := segments_processed w + 1;
           queue := queue w ++ [seg'] |}.
Proof.
  intros Hout. unfold handle_new_segment.
  rewrite (proj2 (get_segment_by_filename_None _ _) Hout).
  destruct (add_segment_fresh (from_path now fs p) (store w)) as (seg' & db' & Hadd & _);
    [done|].
  rewrite Hadd. by exists seg', db'.
Qed.

(* What a scan keeps true: the store only grows at its end, the queue
   only grows at its end, in the order of the listing, by segments that
   were not tracked before, and the counter follows the queue. *)
Lemma process_existing_grows fs files w :
  ∃ new_rows new_segs,
    rows (store (process_existing_segments fs files w)) = rows (store w) ++ new_rows
    ∧ queue (process_existing_segments fs files w) = queue w ++ new_segs
    ∧ segments_processed (process_existing_segments fs files w)
      = segments_processed w + Z.of_nat (length new_segs)
    ∧ length new_rows = length new_segs
    ∧ row_filename <$> new_rows = filename <$> new_segs
    ∧ filepath <$> new_segs `sublist_of` files.*2
    ∧ (∀ s, s ∈ new_segs →
         state s = CREATED ∧ is_Some (id s) ∧ upload_attempts s = 0
         ∧ (filename s ∉ filenames (store w))
         ∧ (filename s ∈ filenames (store (process_existing_segments fs files w)))
         ∧ ∃ p, p ∈ files.*2 ∧ filename s = name p ∧ filepath s = p)
    ∧ NoDup (filename <$> new_segs)
    ∧ (∀ p, p ∈ files.*2 →
         name p ∈ filenames (store (process_existing_segments fs files w))).
Proof.
  revert w. induction files as [|[now p] files IH]; intros w.
  - exists [], []. simpl. rewrite !app_nil_r.
    split_and!; [done|done|lia|done|done|done| | |].
    + by intros s ?%elem_of_nil.
    + constructor.
    + by intros q ?%elem_of_nil.
  - unfold process_existing_segments in *. simpl.
    destruct (IH (handle_new_segment now fs w p))
      as (rows2 & segs2 & Hrows & Hqueue & Hcount & Hlen & Hsame & Hsub & Hnew & Hnd & Hall).
    assert (∀ x d1 d2 extra, rows d2 = rows d1 ++ extra →
            x ∈ filenames d1 → x ∈ filenames d2) as Hmono.
    { intros x d1 d2 extra Heq. unfold filenames. rewrite Heq, fmap_app, elem_of_app. tauto. }
    destruct (decide (name p ∈ filenames (store w))) as [Hin|Hout].
    + rewrite (handle_tracked now fs w p Hin) in *.
      exists rows2, segs2.
      split_and!; [done|done|done|done|done|by apply sublist_cons| |done|].
      * intros s Hs. destruct (Hnew s Hs) as (? & ? & ? & ? & ? & q & ? & ? & ?).
        split_and!; [done|done|done|done|done|]. exists q. split_and!; [by right|done|done].
      * intros q [->|Hq]%elem_of_cons; [|by apply Hall]. by eapply Hmono.
    + destruct (handle_untracked now fs w p Hout) as (seg' & db' & Hadd & Hhandle).
      rewrite Hhandle in *. simpl in *.
      destruct (add_segment_new_row _ _ _ _ Hadd)
        as (r & Hdb & Hrname & Hst & Hname & Hpath & Hatt & Hsid).
      simpl in Hrname, Hst, Hname, Hpath, Hatt.
      assert (filenames db' = filenames (store w) ++ [name p]) as Hnames.
      { unfold filenames. rewrite Hdb, fmap_app. simpl. by rewrite Hrname. }
      exists ([r] ++ rows2), ([seg'] ++ segs2).
      split_and!.
      * rewrite Hrows, Hdb. by rewrite <- app_assoc.
      * rewrite Hqueue. by rewrite <- app_assoc.
      * rewrite Hcount, length_app. simpl. lia.
      * rewrite !length_app, Hlen. done.
      * rewrite !fmap_app, Hsame. simpl. by rewrite Hrname, Hname.
      * simpl. rewrite Hpath. by apply sublist_skip.
      * intros s [->%list_elem_of_singleton|Hs]%elem_of_app.
        -- split_and!; [done|done|done|by rewrite Hname| |].
           ++ eapply Hmono; [exact Hrows|]. rewrite Hnames, elem_of_app, Hname.
              right. by left.
           ++ exists p. split_and!; [by left|done|done].
        -- destruct (Hnew s Hs) as (? & ? & ? & Hfresh & ? & q & ? & ? & ?).
           split_and!; [done|done|done| |done|].
           ++ intros Hin. apply Hfresh. rewrite Hnames, elem_of_app. by left.
           ++ exists q. split_and!; [by right|done|done].
      * simpl. apply NoDup_cons. split; [|done].
        intros (s & Heq & Hs)%list_elem_of_fmap.
        destruct (Hnew s Hs) as (_ & _ & _ & Hfresh & _). apply Hfresh.
        rewrite Hnames, elem_of_app. right. rewrite <- Heq, Hname. by left.
      * intros q [->|Hq]%elem_of_cons; [|by apply Hall].
        eapply Hmono; [exact Hrows|]. rewrite Hnames, elem_of_app. right. by left.
Qed.

End IngestFacts.

Section StartupFacts.

Lemma process_existing_all_tracked fs files w :
  (∀ p, p ∈ files.*2 → name p ∈ filenames (store w)) →
  process_existing_segments fs files w = w.
Proof.
  induction files as [|[now p] files IH]; intros Hall; [done|].
  unfold process_existing_segments in *. simpl.
  rewrite handle_tracked by (apply Hall; left).
  apply IH. intros q Hq. apply Hall. by right.
Qed.

End StartupFacts.

(** X13. _handle_new_segment registers a file once.  A path whose name is
    already in the store changes nothing.  A path whose name is not yet
    in the store adds one CREATED segment with that name, path and the
    size of the file on disk (0 when the file is gone), gives it an id,
    raises segments_processed by one and hands exactly that segment to
    the upload queue.  Either way the name is tracked afterwards, so a
    second notification for the same path, at any later time, changes
    nothing. *)
Theorem handle_new_segment_once
    (now now' : datetime) (fs fs' : FS) (w : Watcher) (p : string) :
  (name p ∈ filenames (store w) → handle_new_segment now fs w p = w)
  ∧ (name p ∉ filenames (store w) →
     ∃ seg',
       queue (handle_new_segment now fs w p) = queue w ++ [seg']
       ∧ segments_processed (handle_new_segment now fs w p) = segments_processed w + 1
       ∧ length (rows (store (handle_new_segment now fs w p)))
         = S (length (rows (store w)))
       ∧ state seg' = CREATED
       ∧ filename seg' = name p
       ∧ filepath seg' = p
       ∧ file_size seg' = default 0 (fs !! p)
       ∧ created_at seg' = now
       ∧ is_Some (id seg'))
  ∧ (name p ∈ filenames (store (handle_new_segment now fs w p)))
  ∧ handle_new_segment now' fs' (handle_new_segment now fs w p) p
    = handle_new_segment now fs w p.
Proof.
  assert (name p ∈ filenames (store (handle_new_segment now fs w p))) as Htracked.
  { destruct (decide (name p ∈ filenames (store w))) as [Hin|Hout].
    - by rewrite handle_tracked.
    - destruct (handle_untracked now fs w p Hout) as (seg' & db' & Hadd & ->). simpl.
      destruct (add_segment_new_row _ _ _ _ Hadd) as (r & Hrows & Hname & _).
      unfold filenames. rewrite Hrows, fmap_app, elem_of_app. right.
      simpl. rewrite Hname. by left. }
  split_and!.
  - apply handle_tracked.
  - intros Hout.
    destruct (handle_untracked now fs w p Hout) as (seg' & db' & Hadd & ->). simpl.
    destruct (add_segment_new_row _ _ _ _ Hadd)
      as (r & Hrows & _ & Hst & Hname & Hpath & _ & Hid).
    exists seg'. split_and!; [done|done| |done|done|done| | |done].
    + rewrite Hrows, length_app. simpl. lia.
    + unfold add_segment in Hadd. case_bool_decide; [done|]. by injection Hadd as <- _.
    + unfold add_segment in Hadd. case_bool_decide; [done|]. by injection Hadd as <- _.
  - done.
  - by apply handle_tracked.
Qed.

Lemma handle_new_segment_once_witness :
  (name "/buf/new.ts" ∉ filenames (store MoreExamples.watcher_abc))
  ∧ ∃ seg',
      queue (handle_new_segment 900 Examples.disk_abc MoreExamples.watcher_abc "/buf/new.ts")
        = [seg']
      ∧ filename seg' = "new.ts"
      ∧ file_size seg' = 0
      ∧ handle_new_segment 900 Examples.disk_abc MoreExamples.watcher_abc "/buf/a.ts"
        = MoreExamples.watcher_abc.
Proof.
  assert (name "/buf/new.ts" ∉ filenames (store MoreExamples.watcher_abc)) as Hout.
  { vm_compute. intros H.
    repeat (apply elem_of_cons in H as [H|H]; [discriminate H|]). by apply elem_of_nil in H. }
  split; [exact Hout|].
  destruct (handle_new_segment_once 900 900 Examples.disk_abc Examples.disk_abc
              MoreExamples.watcher_abc "/buf/new.ts")
    as (_ & Hnew & _).
  destruct (handle_new_segment_once 900 900 Examples.disk_abc Examples.disk_abc
              MoreExamples.watcher_abc "/buf/a.ts")
    as (Hsame & _).
  destruct (Hnew Hout) as (seg' & Hq & _ & _ & _ & Hname & _ & Hsize & _).
  exists seg'. split; [exact Hq|]. split; [exact Hname|]. split; [exact Hsize|].
  apply Hsame. vm_compute. left.
Defined.

(** X14. _process_existing_segments, the scan of the directory at
    startup.  Afterwards the name of every file listed is tracked.  The
    rows that were there are untouched and new rows are only appended;
    the queue keeps what it held and receives one segment for each new
    row, with the filename of that row and in the same order;
    segments_processed grows by that number.  The paths of the segments
    queued follow the order of the listing (they are a subsequence of
    it), and every file listed whose name was not tracked before has its
    name queued.  Every segment queued is CREATED with no attempt made,
    has an id, was not tracked before, and no filename is queued twice. *)
Theorem process_existing_segments_registers
    (fs : FS) (files : list (datetime * string)) (w : Watcher) :
  ∃ new_rows new_segs,
    rows (store (process_existing_segments fs files w)) = rows (store w) ++ new_rows
    ∧ queue (process_existing_segments fs files w) = queue w ++ new_segs
    ∧ segments_processed (process_existing_segments fs files w)
      = segments_processed w + Z.of_nat (length new_segs)
    ∧ length new_rows = length new_segs
    ∧ row_filename <$> new_rows = filename <$> new_segs
    ∧ filepath <$> new_segs `sublist_of` files.*2
    ∧ (∀ p, p ∈ files.*2 → name p ∉ filenames (store w) →
         name p ∈ filename <$> new_segs)
    ∧ (∀ s, s ∈ new_segs →
         state s = CREATED ∧ is_Some (id s) ∧ upload_attempts s = 0
         ∧ (filename s ∉ filenames (store w))
         ∧ (filename s ∈ filenames (store (process_existing_segments fs files w)))
         ∧ ∃ p, p ∈ files.*2 ∧ filename s = name p ∧ filepath s = p)
    ∧ NoDup (filename <$> new_segs)
    ∧ (∀ p, p ∈ files.*2 →
         name p ∈ filenames (store (process_existing_segments fs files w))).
Proof.
  destruct (process_existing_grows fs files w)
    as (new_rows & new_segs & Hrows & Hqueue & Hcount & Hlen & Hsame & Hsub
        & Hnew & Hnd & Hall).
  exists new_rows, new_segs.
  split_and!; [done|done|done|done|done|done| | |done|done].
  - intros p Hp Hout. specialize (Hall p Hp).
    unfold filenames in Hall. rewrite Hrows, fmap_app, elem_of_app in Hall.
    destruct Hall as [Hold|Hin]; [done|]. by rewrite <- Hsame.
  - intros s Hs. by apply Hnew.
Qed.

Lemma process_existing_segments_registers_witness :
  ∃ new_segs,
    queue (process_existing_segments Examples.disk_abc
             [(900, "/buf/a.ts"); (901, "/buf/new.ts"); (902, "/buf/new.ts")]
             MoreExamples.watcher_abc)
      = new_segs
    ∧ length new_segs = 1%nat
    ∧ ("new.ts" ∈ filenames (store (process_existing_segments Examples.disk_abc
                                      [(900, "/buf/a.ts"); (901, "/buf/new.ts");
                                       (902, "/buf/new.ts")]
                                      MoreExamples.watcher_abc))).
Proof.
  destruct (process_existing_segments_registers Examples.disk_abc
              [(900, "/buf/a.ts"); (901, "/buf/new.ts"); (902, "/buf/new.ts")]
              MoreExamples.watcher_abc)
    as (new_rows & new_segs & _ & Hq & _ & _ & _ & _ & _ & _ & _ & Hall).
  eexists. split; [reflexivity|]. split; [reflexivity|].
  apply (Hall "/buf/new.ts"). right. left.
Defined.

(** X15. Startup does not hand tracked segments to the uploader.  After
    reset_uploading_segments and the scan of the directory, every segment
    in the upload queue has a filename the store did not know before; a
    row that was UPLOADING is now CREATED and is not in the queue; and
    when every file in the directory is already tracked, the queue is
    empty and the store is just the reset store. *)
Theorem startup_queues_only_new
    (fs : FS) (files : list (datetime * string)) (db : Database) :
  (∀ s, s ∈ queue (startup fs files db) → filename s ∉ filenames db)
  ∧ (∀ r, r ∈ rows db → row_state r = UPLOADING →
       (∃ r', r' ∈ rows (store (startup fs files db))
              ∧ row_id r' = row_id r
              ∧ row_filename r' = row_filename r
              ∧ row_state r' = CREATED)
       ∧ ∀ s, s ∈ queue (startup fs files db) → filename s ≠ row_filename r)
  ∧ ((∀ p, p ∈ files.*2 → name p ∈ filenames db) →
     startup fs files db
     = {| store := (reset_uploading_segments db).2; segments_processed := 0; queue := [] |}).
Proof.
  unfold startup.
  set (w0 := {| store := (reset_uploading_segments db).2;
                segments_processed := 0; queue := [] |}).
  assert (filenames (store w0) = filenames db) as Hnames
    by (unfold filenames; simpl; apply reset_keeps_filenames).
  destruct (process_existing_grows fs files w0)
    as (new_rows & new_segs & Hrows & Hqueue & _ & _ & _ & _ & Hnew & _ & _).
  simpl in Hqueue.
  assert (∀ s, s ∈ queue (process_existing_segments fs files w0) →
               filename s ∉ filenames db) as Hfresh.
  { intros s Hs. rewrite Hqueue in Hs. destruct (Hnew s Hs) as (_ & _ & _ & Hout & _).
    by rewrite <- Hnames. }
  split_and!.
  - done.
  - intros r Hr Hup. split.
    + exists (reset_row r). split_and!.
      * rewrite Hrows. apply elem_of_app. left. simpl. by apply list_elem_of_fmap_2.
      * unfold reset_row. by case_bool_decide.
      * unfold reset_row. by case_bool_decide.
      * unfold reset_row. by rewrite bool_decide_eq_true_2.
    + intros s Hs Heq. apply (Hfresh s Hs). rewrite Heq. by apply list_elem_of_fmap_2.
  - intros Hall. apply process_existing_all_tracked. intros p Hp.
    rewrite Hnames. by apply Hall.
Qed.

Lemma startup_queues_only_new_witness :
  Examples.row_b ∈ rows Examples.db_abc
  ∧ row_state Examples.row_b = UPLOADING
  ∧ startup Examples.disk_abc [(900, "/buf/a.ts"); (901, "/buf/b.ts"); (902, "/buf/c.ts")]
      Examples.db_abc
    = {| store := (reset_uploading_segments Examples.db_abc).2;
         segments_processed := 0; queue := [] |}.
Proof.
  split; [right; left|]. split; [reflexivity|].
  apply (startup_queues_only_new Examples.disk_abc
           [(900, "/buf/a.ts"); (901, "/buf/b.ts"); (902, "/buf/c.ts")] Examples.db_abc).
  intros p Hp.
  repeat (apply elem_of_cons in Hp as [->|Hp];
          [vm_compute; first [left|right; left|right; right; left]|]).
  by apply elem_of_nil in Hp.
Defined.

(* ===================================================================== *)
(* More about retention                                                  *)
(* ===================================================================== *)

Section BufferMoreFacts.

Implicit Types (cfg : StorageConfig) (fs : FS) (d : Database) (st : FS * Database).

Lemma disk_usage_delete cfg fs p size :
  fs !! p = Some size →
  disk_usage_bytes cfg fs
  = disk_usage_bytes cfg (delete p fs)
    + (if bool_decide (parent p = segments_dir cfg) then size else 0).
Proof.
  intros Hp. unfold disk_usage_bytes.
  rewrite (map_fold_delete_L _ _ p size fs); [|intros; repeat case_bool_decide; lia|done].
  case_bool_decide; lia.
Qed.

Lemma disk_usage_unlink_le cfg fs p :
  (∀ q sz, fs !! q = Some sz → 0 ≤ sz) →
  disk_usage_bytes cfg (unlink fs p) ≤ disk_usage_bytes cfg fs.
Proof.
  intros Hpos. unfold unlink. destruct (fs !! p) as [size|] eqn:Hp.
  - rewrite (disk_usage_delete cfg fs p size Hp). specialize (Hpos p size Hp).
    case_bool_decide; lia.
  - by rewrite delete_id.
Qed.

Lemma without_files_usage_le cfg segs fs :
  (∀ q sz, fs !! q = Some sz → 0 ≤ sz) →
  disk_usage_bytes cfg (without_files segs fs) ≤ disk_usage_bytes cfg fs.
Proof.
  revert fs. induction segs as [|s segs IH]; intros fs Hpos; [done|].
  unfold without_files in *. simpl.
  etrans; [apply IH|by apply disk_usage_unlink_le].
  intros q sz Hq. unfold unlink in Hq. apply lookup_delete_Some in Hq as [_ Hq].
  by eapply Hpos.
Qed.





End BufferMoreFacts.

(** X16. get_disk_usage counts the files directly in segments_dir and
    nothing else: an empty disk has usage 0; deleting a file that lies
    directly in segments_dir lowers the usage by exactly its size;
    deleting a file anywhere else, or a path that has no file, leaves the
    usage as it was. *)
Theorem disk_usage_unlink (cfg : StorageConfig) (fs : FS) (p : string) :
  disk_usage_bytes cfg ∅ = 0
  ∧ (∀ size, fs !! p = Some size → parent p = segments_dir cfg →
       disk_usage_bytes cfg (unlink fs p) = disk_usage_bytes cfg fs - size)
  ∧ (parent p ≠ segments_dir cfg →
       disk_usage_bytes cfg (unlink fs p) = disk_usage_bytes cfg fs)
  ∧ (fs !! p = None → disk_usage_bytes cfg (unlink fs p) = disk_usage_bytes cfg fs).
Proof.
  split_and!.
  - unfold disk_usage_bytes. apply map_fold_empty.
  - intros size Hp Hdir. unfold unlink.
    rewrite (disk_usage_delete cfg fs p size Hp).
    rewrite bool_decide_eq_true_2 by done. lia.
  - intros Hdir. unfold unlink. destruct (fs !! p) as [size|] eqn:Hp.
    + rewrite (disk_usage_delete cfg fs p size Hp).
      rewrite bool_decide_eq_false_2 by done. lia.
    + by rewrite delete_id.
  - intros Hp. unfold unlink. by rewrite delete_id.
Qed.

Lemma disk_usage_unlink_witness :
  disk_usage_bytes Examples.buf_cfg Examples.disk_abc = 9200
  ∧ disk_usage_bytes Examples.buf_cfg (unlink Examples.disk_abc "/buf/c.ts") = 9200 - 5000
  ∧ disk_usage_bytes Examples.buf_cfg
      (unlink (<["/buf/old/x.ts" := 77]> Examples.disk_abc) "/buf/old/x.ts")
    = disk_usage_bytes Examples.buf_cfg (<["/buf/old/x.ts" := 77]> Examples.disk_abc).
Proof.
  destruct (disk_usage_unlink Examples.buf_cfg Examples.disk_abc "/buf/c.ts")
    as (_ & Hin & _).
  destruct (disk_usage_unlink Examples.buf_cfg
              (<["/buf/old/x.ts" := 77]> Examples.disk_abc) "/buf/old/x.ts")
    as (_ & _ & Hout & _).
  split; [reflexivity|]. split.
  - rewrite (Hin 5000) by reflexivity. reflexivity.
  - apply Hout. vm_compute. discriminate.
Defined.

(** X17. The buffer window.  When no file has a negative size and the
    directory is not over its limit, one pass of _perform_cleanup removes
    only files of UPLOADED segments that get_uploaded_segments takes for
    past the buffer: whose uploaded_at lies more than
    local_buffer_minutes minutes less half a millisecond before now
    (SQLite cuts uploaded_at to whole seconds and rounds now to
    milliseconds, so a file can go up to half a millisecond early);
    every other path keeps its file. *)
Theorem perform_cleanup_respects_buffer
    (cfg : StorageConfig) (now utc_now : datetime) (fs : FS) (d : Database) (p : string) :
  (∀ q sz, fs !! q = Some sz → 0 ≤ sz) →
  over_limit cfg fs = false →
  (perform_cleanup cfg now utc_now (fs, d)).1 !! p = fs !! p
  ∨ ((perform_cleanup cfg now utc_now (fs, d)).1 !! p = None
     ∧ ∃ r t, r ∈ rows d ∧ row_filepath r = p ∧ row_state r = UPLOADED
              ∧ past_buffer now (local_buffer_minutes cfg) r
              ∧ row_uploaded_at r = Some t
              ∧ 60000000 * local_buffer_minutes cfg - 500 < now - t).
Proof.
  intros Hpos Hunder. unfold perform_cleanup. simpl.
  set (segs := get_uploaded_segments now (local_buffer_minutes cfg) d).
  assert (check_disk_usage cfg (foldl cleanup_one (fs, d) segs)
          = foldl cleanup_one (fs, d) segs) as ->.
  { unfold check_disk_usage. rewrite cleanup_all_disk. simpl.
    pose proof (without_files_usage_le cfg segs fs Hpos) as Hle.
    unfold over_limit in *. apply Z.ltb_ge in Hunder.
    by rewrite (proj2 (Z.ltb_ge _ _)) by lia. }
  rewrite cleanup_all_disk. simpl.
  destruct (without_files_lookup segs fs p) as [Hkeep|[Hgone Hin]]; [by left|right].
  split; [done|].
  apply list_elem_of_fmap in Hin as (s & -> & Hs).
  apply get_uploaded_segments_past in Hs as (r & Hr & -> & Hst & Hpast).
  destruct (past_buffer_age _ _ _ Hpast) as (t & Ht & Hage).
  by exists r, t.
Qed.

Lemma perform_cleanup_respects_buffer_witness :
  over_limit Examples.buf_cfg Examples.disk_abc = false
  ∧ (perform_cleanup Examples.buf_cfg 1000000000 1000000000
       (Examples.disk_abc, Examples.db_abc)).1 !! "/buf/c.ts" = Some 5000.
Proof.
  assert (over_limit Examples.buf_cfg Examples.disk_abc = false) as Hunder by reflexivity.
  split; [exact Hunder|].
  destruct (perform_cleanup_respects_buffer Examples.buf_cfg 1000000000 1000000000
              Examples.disk_abc Examples.db_abc "/buf/c.ts")
    as [Hkeep|[_ (r & t & Hr & Hp & _ & _ & Ht & Hage)]].
  - intros q sz Hq.
    destruct (decide (q = "/buf/a.ts")) as [->|?]; [vm_compute in Hq; by injection Hq as <-|].
    destruct (decide (q = "/buf/b.ts")) as [->|?]; [vm_compute in Hq; by injection Hq as <-|].
    destruct (decide (q = "/buf/c.ts")) as [->|?]; [vm_compute in Hq; by injection Hq as <-|].
    destruct (decide (q = "/buf/live.m3u8")) as [->|?];
      [vm_compute in Hq; by injection Hq as <-|].
    unfold Examples.disk_abc in Hq. by simplify_map_eq.
  - exact Hunder.
  - rewrite Hkeep. reflexivity.
  - exfalso. vm_compute in Hr.
    repeat (apply elem_of_cons in Hr as [->|Hr];
            [first [discriminate Hp|discriminate Ht|
                    injection Ht as <-; vm_compute in Hage; discriminate Hage]|]).
    by apply elem_of_nil in Hr.
Defined.



(* ===================================================================== *)
(* More about the restart quota                                          *)
(* ===================================================================== *)

Section MonitorMoreFacts.

Context (cfg : HealthConfig).

Lemma filter_after_all (bound : Z) (l : list Z) :
  (∀ t, t ∈ l → t < bound) → filter (λ t, bound ≤ t) l = [].
Proof.
  intros Hall. apply filter_none_length. intros t Ht Hle. specialize (Hall t Ht). lia.
Qed.

Lemma iteration_keeps_quota m p :
  0 ≤ max_restarts cfg → quota_kept cfg m → quota_kept cfg (iteration cfg m p).
Proof.
  intros Hmax Hm. pose proof Hm as (Hcount & Hrange & Hwin & Hpast).
  unfold iteration. destruct (should_run m); simpl; [|done].
  unfold quota_kept, restarts_in_window in *.
  destruct (stopped p); simpl.
  { (split; [|split; [|split]]); [done|done|lia|]. intros t Ht. specialize (Hpast t Ht). lia. }
  assert (filter (λ t, now m + 5 ≤ t) (restarts m) = []) as Hnone.
  { apply filter_after_all. intros t Ht. specialize (Hpast t Ht). lia. }
  assert (∀ t, t ∈ restarts m → t ≤ now m + 5) as Hpast5.
  { intros t Ht. specialize (Hpast t Ht). lia. }
  assert (∀ t later, now m + 5 ≤ later → t ∈ (now m + 5) :: restarts m → t ≤ later)
    as Hpast_new.
  { intros t later Hl [->|Ht]%elem_of_cons; [done|]. specialize (Hpast t Ht). lia. }
  destruct (Z.ltb_spec (restart_window cfg) (now m + 5 - window_start m)) as [Hexp|Hin];
    destruct (is_running p); simpl.
  - rewrite Hnone. simpl. (split; [|split; [|split]]); [done|lia|lia|done].
  - destruct (Z.leb_spec (max_restarts cfg) 0) as [Hfull|Hroom]; simpl.
    + rewrite Hnone. simpl. (split; [|split; [|split]]); [done|lia|lia|done].
    + rewrite filter_cons_True by lia. rewrite Hnone. simpl.
      (split; [|split; [|split]]); [done|lia|destruct (start_raises p); lia|].
      intros t Ht. apply (Hpast_new t); [destruct (start_raises p); lia|done].
  - (split; [|split; [|split]]); [done|lia|lia|done].
  - destruct (Z.leb_spec (max_restarts cfg) (restart_count m)) as [Hfull|Hroom]; simpl.
    + (split; [|split; [|split]]); [done|lia|lia|done].
    + rewrite filter_cons_True by lia. simpl.
      (split; [|split; [|split]]); [lia|lia|destruct (start_raises p); lia|].
      intros t Ht. apply (Hpast_new t); [destruct (start_raises p); lia|done].
Qed.

Lemma monitor_loop_keeps_quota polls m :
  0 ≤ max_restarts cfg → quota_kept cfg m → quota_kept cfg (monitor_loop cfg polls m).
Proof.
  intros Hmax. revert m. induction polls as [|p polls IH]; intros m Hm; [done|].
  unfold monitor_loop in *. simpl. by apply IH, iteration_keeps_quota.
Qed.

Lemma start_keeps_quota t0 : 0 ≤ max_restarts cfg → quota_kept cfg (start t0).
Proof.
  intros Hmax. unfold quota_kept, restarts_in_window, start. simpl.
  (split; [|split; [|split]]); [done|lia|lia|]. by intros t ?%elem_of_nil.
Qed.

End MonitorMoreFacts.

Section MonitorRuns.

Context (cfg : HealthConfig).

Lemma monitor_loop_one m p : monitor_loop cfg [p] m = iteration cfg m p.
Proof. done. Qed.

(* A poll that finds the process dead after the window has run out. *)
Lemma iteration_dead_expired m :
  should_run m = true →
  restart_window cfg < now m + 5 - window_start m →
  0 < max_restarts cfg →
  iteration cfg m dies_at_once =
    {| should_run := true; restart_count := 1; window_start := now m + 5;
       now := now m + 5; restarts := (now m + 5) :: restarts m |}.
Proof.
  intros Hon Hexp Hmax. unfold iteration. rewrite Hon. simpl.
  rewrite (proj2 (Z.ltb_lt _ _) Hexp). simpl.
  by rewrite (proj2 (Z.leb_gt _ _) Hmax).
Qed.

(* The first polls of a process that dies at once, while the quota lasts
   and the window has not run out. *)
Lemma polls_within_quota (n : nat) (t0 : Z) :
  Z.of_nat n ≤ max_restarts cfg →
  5 * Z.of_nat n ≤ restart_window cfg →
  should_run (monitor_loop cfg (replicate n dies_at_once) (start t0)) = true
  ∧ restart_count (monitor_loop cfg (replicate n dies_at_once) (start t0)) = Z.of_nat n
  ∧ window_start (monitor_loop cfg (replicate n dies_at_once) (start t0)) = t0
  ∧ now (monitor_loop cfg (replicate n dies_at_once) (start t0)) = t0 + 5 * Z.of_nat n
  ∧ length (restarts (monitor_loop cfg (replicate n dies_at_once) (start t0))) = n.
Proof.
  induction n as [|n IH]; intros Hquota Hwin.
  - simpl. split_and!; [done|done|done|lia|done].
  - destruct IH as (Hon & Hcount & Hstart & Hnow & Hlen); [lia|lia|].
    rewrite replicate_S_end, monitor_loop_app, monitor_loop_one.
    rewrite iteration_dead_in_window by (first [done|lia]).
    rewrite (proj2 (Z.leb_gt _ _)) by lia. simpl.
    split_and!; [done|lia|done|lia|by rewrite Hlen].
Qed.

End MonitorRuns.

(** X19. The restart quota for any max_restarts = k.  With a window that
    covers the first k + 1 polls and a process that exits at once on
    every start, each of the first k polls restarts it; the next poll
    finds the quota used up, stops the monitor loop and leaves capture
    down; whatever is polled afterwards, the number of restarts stays k. *)
Theorem restart_quota_general (k : nat) (w t0 : Z) (later : list Poll) :
  5 * (Z.of_nat k + 1) ≤ w →
  (∀ n : nat, (n ≤ k)%nat →
     should_run (monitor_loop {| max_restarts := Z.of_nat k; restart_window := w |}
                   (replicate n dies_at_once) (start t0)) = true
     ∧ length (restarts (monitor_loop {| max_restarts := Z.of_nat k; restart_window := w |}
                           (replicate n dies_at_once) (start t0))) = n)
  ∧ should_run (monitor_loop {| max_restarts := Z.of_nat k; restart_window := w |}
                  (replicate (S k) dies_at_once ++ later) (start t0)) = false
  ∧ length (restarts (monitor_loop {| max_restarts := Z.of_nat k; restart_window := w |}
                        (replicate (S k) dies_at_once ++ later) (start t0))) = k.
Proof.
  intros Hw.
  set (cfg := {| max_restarts := Z.of_nat k; restart_window := w |}).
  split.
  - intros n Hn.
    destruct (polls_within_quota cfg n t0) as (Hon & _ & _ & _ & Hlen);
      [simpl; lia|simpl; lia|].
    by split.
  - destruct (polls_within_quota cfg k t0) as (Hon & Hcount & Hstart & Hnow & Hlen);
      [simpl; lia|simpl; lia|].
    rewrite monitor_loop_app, replicate_S_end, monitor_loop_app, monitor_loop_one.
    rewrite iteration_dead_in_window by (simpl; first [done|lia]).
    simpl. rewrite (proj2 (Z.leb_le _ _)) by lia.
    rewrite monitor_loop_after_exit by done. simpl. by split.
Qed.

Lemma restart_quota_general_witness :
  5 * (Z.of_nat 10 + 1) ≤ 300
  ∧ should_run (monitor_loop {| max_restarts := Z.of_nat 10; restart_window := 300 |}
                  (replicate 11 dies_at_once ++ replicate 80 dies_at_once) (start 0)) = false
  ∧ length (restarts (monitor_loop {| max_restarts := Z.of_nat 10; restart_window := 300 |}
                        (replicate 11 dies_at_once ++ replicate 80 dies_at_once) (start 0)))
    = 10%nat.
Proof.
  assert (5 * (Z.of_nat 10 + 1) ≤ 300) as Hw by (vm_compute; discriminate).
  split; [exact Hw|].
  exact (proj2 (restart_quota_general 10 300 0 (replicate 80 dies_at_once) Hw)).
Defined.

(** X20. The quota holds for every run of the monitor loop.  With
    max_restarts >= 0, whatever the polls find (process running or dead,
    starts that succeed or raise, stop() called), restart_count is the
    number of restarts made since the current window began, it never
    exceeds max_restarts, and no restart is dated after the loop's own
    clock. *)
Theorem restart_quota_kept (cfg : HealthConfig) (polls : list Poll) (t0 : Z) :
  0 ≤ max_restarts cfg →
  restart_count (monitor_loop cfg polls (start t0))
    = Z.of_nat (length (restarts_in_window (monitor_loop cfg polls (start t0))))
  ∧ 0 ≤ restart_count (monitor_loop cfg polls (start t0)) ≤ max_restarts cfg
  ∧ Z.of_nat (length (restarts_in_window (monitor_loop cfg polls (start t0))))
    ≤ max_restarts cfg
  ∧ ∀ t, t ∈ restarts (monitor_loop cfg polls (start t0)) →
         t ≤ now (monitor_loop cfg polls (start t0)).
Proof.
  intros Hmax.
  destruct (monitor_loop_keeps_quota cfg polls (start t0) Hmax (start_keeps_quota cfg t0 Hmax))
    as (Hcount & Hrange & _ & Hpast).
  split; [done|]. split; [done|]. split; [lia|done].
Qed.

Lemma restart_quota_kept_witness :
  0 ≤ max_restarts Examples.quota_cfg
  ∧ restart_count (monitor_loop Examples.quota_cfg
                     [dies_at_once; mkPoll false true false; mkPoll false false true;
                      dies_at_once; dies_at_once; dies_at_once]
                     (start 0)) ≤ 3.
Proof.
  assert (0 ≤ max_restarts Examples.quota_cfg) as Hmax by (vm_compute; discriminate).
  split; [exact Hmax|].
  exact (proj2 (proj1 (proj2 (restart_quota_kept Examples.quota_cfg
           [dies_at_once; mkPoll false true false; mkPoll false false true;
            dies_at_once; dies_at_once; dies_at_once] 0 Hmax)))).
Defined.

(** X21. A window shorter than the poll interval switches the quota off.
    With restart_window < 5 seconds and max_restarts >= 1, the counter is
    cleared at every poll: a process that exits at once on every start is
    restarted at each of n polls, for every n, and the monitor loop never
    stops. *)
Theorem short_window_never_stops (cfg : HealthConfig) (n : nat) (t0 : Z) :
  restart_window cfg < 5 →
  1 ≤ max_restarts cfg →
  should_run (monitor_loop cfg (replicate n dies_at_once) (start t0)) = true
  ∧ length (restarts (monitor_loop cfg (replicate n dies_at_once) (start t0))) = n
  ∧ restart_count (monitor_loop cfg (replicate n dies_at_once) (start t0)) ≤ 1.
Proof.
  intros Hw Hmax.
  assert (should_run (monitor_loop cfg (replicate n dies_at_once) (start t0)) = true
          ∧ length (restarts (monitor_loop cfg (replicate n dies_at_once) (start t0))) = n
          ∧ restart_count (monitor_loop cfg (replicate n dies_at_once) (start t0)) ≤ 1
          ∧ window_start (monitor_loop cfg (replicate n dies_at_once) (start t0))
            = now (monitor_loop cfg (replicate n dies_at_once) (start t0))) as Hall.
  { induction n as [|n IH]; [simpl; split_and!; done|].
    destruct IH as (Hon & Hlen & Hcount & Hsame).
    rewrite replicate_S_end, monitor_loop_app, monitor_loop_one.
    rewrite iteration_dead_expired by (first [done|lia]). simpl.
    split_and!; [done|by rewrite Hlen|lia|done]. }
  destruct Hall as (Hon & Hlen & Hcount & _). by split_and!.
Qed.

Lemma short_window_never_stops_witness :
  restart_window {| max_restarts := 3; restart_window := 4 |} < 5
  ∧ length (restarts (monitor_loop {| max_restarts := 3; restart_window := 4 |}
                        (replicate 50 dies_at_once) (start 0))) = 50%nat.
Proof.
  assert (restart_window {| max_restarts := 3; restart_window := 4 |} < 5) as Hw
    by (vm_compute; reflexivity).
  split; [exact Hw|].
  refine (proj1 (proj2 (short_window_never_stops {| max_restarts := 3; restart_window := 4 |}
                          50 0 Hw _))).
  vm_compute. discriminate.
Defined.

Section HealthFacts.

Import Health.

Lemma foldl_max_assoc (a t : Z) (rest : list Z) :
  foldl Z.max (Z.max a t) rest = Z.max a (foldl Z.max t rest).
Proof.
  revert a t. induction rest as [|x rest IH]; intros a t; simpl; [done|].
  by rewrite <- IH, Z.max_assoc.
Qed.

Lemma newest_of_app (seen files : list datetime) :
  newest_of (seen ++ files) =
    match newest_of seen, newest_of files with
    | None, o => o
    | Some a, None => Some a
    | Some a, Some b => Some (Z.max a b)
    end.
Proof.
  destruct seen as [|s ss]; simpl; [by destruct (newest_of files)|].
  destruct files as [|t rest]; simpl; [by rewrite app_nil_r|].
  by rewrite foldl_app; simpl; rewrite foldl_max_assoc.
Qed.

Lemma report_issue_fields (msg : string) (h : HealthChecker) :
  last_segment_time (report_issue msg h) = last_segment_time h
  ∧ status_last_segment_time (report_issue msg h) = status_last_segment_time h
  ∧ stale_threshold (report_issue msg h) = stale_threshold h.
Proof. done. Qed.

(* One call of _check_segments, on a checker that holds the newest mtime
   of [seen] in both places. *)
Lemma check_segments_newest (p : Probe) (h : HealthChecker) (seen : list datetime) :
  last_segment_time h = newest_of seen →
  status_last_segment_time h = newest_of seen →
  last_segment_time (check_segments p h) = newest_of (seen ++ default [] (ts_mtimes p))
  ∧ status_last_segment_time (check_segments p h)
    = newest_of (seen ++ default [] (ts_mtimes p))
  ∧ stale_threshold (check_segments p h) = stale_threshold h
  ∧ capture_running (check_segments p h) = capture_running h
  ∧ issues (check_segments p h) = issues h.
Proof.
  intros Hlast Hstatus. unfold check_segments.
  destruct (ts_mtimes p) as [files|]; simpl; [|by rewrite app_nil_r].
  destruct files as [|t rest]; simpl; [by rewrite app_nil_r|].
  rewrite newest_of_app. simpl. unfold newest_mtime.
  rewrite Hlast, Hstatus.
  destruct (newest_of seen) as [a|]; simpl; [|done].
  destruct (Z.ltb_spec a (foldl Z.max t rest)); simpl.
  - by rewrite Z.max_r by lia.
  - by rewrite Z.max_l by lia.
Qed.

Lemma perform_check_step (p : Probe) (h : HealthChecker) (seen : list datetime) :
  last_segment_time h = newest_of seen →
  status_last_segment_time h = newest_of seen →
  last_segment_time (perform_check h p) = newest_of (seen ++ default [] (ts_mtimes p))
  ∧ status_last_segment_time (perform_check h p)
    = newest_of (seen ++ default [] (ts_mtimes p))
  ∧ stale_threshold (perform_check h p) = stale_threshold h
  ∧ issues (perform_check h p)
    = issues h ++ issue_of (stale_threshold h) p
                    (newest_of (seen ++ default [] (ts_mtimes p))).
Proof.
  intros Hlast Hstatus. unfold perform_check.
  set (h1 := mkHealthChecker _ _ _ _ _ _ _).
  destruct (check_segments_newest p h1 seen Hlast Hstatus)
    as (Hl & Hs & Hth & Hrun & Hiss).
  change (stale_threshold h1) with (stale_threshold h) in Hth.
  change (capture_running h1) with (segmenter_is_running p) in Hrun.
  change (issues h1) with (issues h) in Hiss.
  unfold issue_of. rewrite Hrun.
  destruct (segmenter_is_running p); simpl.
  - unfold is_stale. rewrite Hl, Hth.
    destruct (newest_of (seen ++ default [] (ts_mtimes p))) as [t|]; simpl.
    + destruct (1000000 * stale_threshold h <? probed_at p - t); simpl.
      * by rewrite Hl, Hs, Hth, Hiss.
      * by rewrite Hl, Hs, Hth, Hiss, app_nil_r.
    + by rewrite Hl, Hs, Hth, Hiss, app_nil_r.
  - by rewrite Hl, Hs, Hth, Hiss.
Qed.

Lemma mtimes_seen_app (probes later : list Probe) :
  mtimes_seen (probes ++ later) = mtimes_seen probes ++ mtimes_seen later.
Proof. unfold mtimes_seen. by rewrite fmap_app, concat_app. Qed.

Lemma mtimes_seen_snoc (probes : list Probe) (p : Probe) :
  mtimes_seen (probes ++ [p]) = mtimes_seen probes ++ default [] (ts_mtimes p).
Proof. rewrite mtimes_seen_app. unfold mtimes_seen. simpl. by rewrite app_nil_r. Qed.

Lemma check_loop_state (threshold : Z) (probes : list Probe) :
  last_segment_time (check_loop probes (new_checker threshold))
    = newest_of (mtimes_seen probes)
  ∧ status_last_segment_time (check_loop probes (new_checker threshold))
    = newest_of (mtimes_seen probes)
  ∧ stale_threshold (check_loop probes (new_checker threshold)) = threshold.
Proof.
  induction probes as [|p probes IH] using rev_ind; [done|].
  destruct IH as (Hl & Hs & Hth).
  unfold check_loop in *. rewrite foldl_snoc, mtimes_seen_snoc.
  destruct (perform_check_step p _ _ Hl Hs) as (Hl' & Hs' & Hth' & _).
  by rewrite Hl', Hs', Hth', Hth.
Qed.

Lemma check_loop_issues (threshold : Z) (probes : list Probe) (p : Probe) :
  issues (check_loop (probes ++ [p]) (new_checker threshold))
  = issues (check_loop probes (new_checker threshold))
    ++ issue_of threshold p (newest_of (mtimes_seen (probes ++ [p]))).
Proof.
  destruct (check_loop_state threshold probes) as (Hl & Hs & Hth).
  unfold check_loop in *. rewrite foldl_snoc, mtimes_seen_snoc.
  destruct (perform_check_step p _ _ Hl Hs) as (_ & _ & _ & Hiss).
  by rewrite Hiss, Hth.
Qed.

Lemma mtimes_seen_none (probes : list Probe) :
  Forall (λ p, default [] (ts_mtimes p) = []) probes → mtimes_seen probes = [].
Proof.
  induction 1 as [|p probes Hp _ IH]; [done|].
  change (mtimes_seen (p :: probes))
    with (default [] (ts_mtimes p) ++ mtimes_seen probes).
  by rewrite Hp, IH.
Qed.

End HealthFacts.

(** X22. The health checker remembers the newest segment it has ever
    seen.  After any run of checks, last_segment_time and the status
    field of the same name both hold the largest mtime of all the *.ts
    files met by this or any earlier check (None while no file has been
    met): a later check that finds only older files, no file, or no
    directory, does not move it back. *)
Theorem check_loop_tracks_newest (threshold : Z) (probes : list Health.Probe) :
  Health.last_segment_time (Health.check_loop probes (Health.new_checker threshold))
    = newest_of (mtimes_seen probes)
  ∧ Health.status_last_segment_time
      (Health.check_loop probes (Health.new_checker threshold))
    = newest_of (mtimes_seen probes)
  ∧ ∀ later,
      Forall (λ p, default [] (Health.ts_mtimes p) = []) later →
      Health.last_segment_time
        (Health.check_loop (probes ++ later) (Health.new_checker threshold))
      = Health.last_segment_time (Health.check_loop probes (Health.new_checker threshold)).
Proof.
  destruct (check_loop_state threshold probes) as (Hl & Hs & _).
  split; [done|]. split; [done|]. intros later Hlater.
  destruct (check_loop_state threshold (probes ++ later)) as (Hl' & _ & _).
  rewrite Hl', Hl, mtimes_seen_app.
  by rewrite (mtimes_seen_none later Hlater), app_nil_r.
Qed.

Lemma check_loop_tracks_newest_witness :
  Health.last_segment_time
    (Health.check_loop [MoreExamples.probe_fresh; MoreExamples.probe_quiet]
       (Health.new_checker 30)) = Some 25000000.
Proof.
  exact (eq_trans
           (proj1 (check_loop_tracks_newest 30
                     [MoreExamples.probe_fresh; MoreExamples.probe_quiet]))
           eq_refl).
Defined.

(** X23. What a health check reports.  Each check passes at most one
    message to on_health_issue: Capture process not running when the
    segmenter manager is not running, whatever the age of the segments;
    otherwise the stale message, exactly when the newest mtime met by
    this or any earlier check lies more than stale_threshold seconds
    before the time of the check; otherwise nothing. *)
Theorem perform_check_reports (threshold : Z) (probes : list Health.Probe)
    (p : Health.Probe) :
  Health.issues (Health.check_loop (probes ++ [p]) (Health.new_checker threshold))
  = Health.issues (Health.check_loop probes (Health.new_checker threshold))
    ++ (if negb (Health.segmenter_is_running p) then [Health.not_running_message]
        else match newest_of (mtimes_seen (probes ++ [p])) with
             | Some t => if 1000000 * threshold <? Health.probed_at p - t
                         then [Health.stale_message threshold] else []
             | None => []
             end).
Proof.
  rewrite check_loop_issues. reflexivity.
Qed.

(** X24. A capture that never writes a segment is never reported stale.
    While the segmenter manager counts as running and no check has met a
    *.ts file (the directory is missing or holds none), no check reports
    anything, however many checks are made and however much time
    passes. *)
Theorem no_segment_never_stale (threshold : Z) (probes : list Health.Probe) :
  Forall (λ p, Health.segmenter_is_running p = true
               ∧ default [] (Health.ts_mtimes p) = []) probes →
  Health.issues (Health.check_loop probes (Health.new_checker threshold)) = [].
Proof.
  induction probes as [|p probes IH] using rev_ind; intros Hall; [done|].
  apply Forall_app in Hall as [Hbefore Hp].
  apply Forall_singleton in Hp as [Hrun Hnone].
  rewrite check_loop_issues, (IH Hbefore). simpl.
  rewrite mtimes_seen_snoc, Hnone, app_nil_r.
  rewrite (mtimes_seen_none probes); [|by eapply Forall_impl; [done|intros ? []]].
  unfold issue_of. by rewrite Hrun.
Qed.

Lemma no_segment_never_stale_witness :
  Health.issues
    (Health.check_loop
       [Health.mkProbe true 0 None 0; Health.mkProbe true 0 (Some []) 3600000000;
        Health.mkProbe true 2 (Some []) 86400000000]
       (Health.new_checker 30)) = [].
Proof.
  apply (no_segment_never_stale 30).
  repeat (apply Forall_cons; split; [by split|]). apply Forall_nil_2.
Defined.

Section CaptureFacts.

Import Capture.

(* _running is set exactly while a process handle is held. *)
Lemma after_call_handle (s : Segmenter) (c : SegmenterCall) :
  running s = bool_decide (is_Some (process s)) →
  running (after_call s c) = bool_decide (is_Some (process (after_call s c))).
Proof.
  intros Hs. destruct c as [popen|]; simpl.
  - unfold start. destruct (running s) eqn:Hrun; [by rewrite Hrun|].
    destruct popen; simpl; [done|by rewrite Hrun..].
  - unfold stop. rewrite <- Hs. destruct (running s) eqn:Hrun; simpl; [done|].
    by rewrite Hrun.
Qed.

Lemma calls_handle (calls : list SegmenterCall) :
  running (foldl after_call new_segmenter calls)
  = bool_decide (is_Some (process (foldl after_call new_segmenter calls))).
Proof.
  induction calls as [|c calls IH] using rev_ind; [done|].
  rewrite foldl_snoc. by apply after_call_handle.
Qed.

Lemma stop_clears (s : Segmenter) :
  running s = bool_decide (is_Some (process s)) →
  running (stop s) = false ∧ process (stop s) = None.
Proof.
  intros Hs. unfold stop. rewrite <- Hs.
  destruct (running s) eqn:Hrun; simpl; [done|].
  split; [done|]. symmetry in Hs.
  apply bool_decide_eq_false in Hs. by apply eq_None_not_Some.
Qed.

End CaptureFacts.

(** X25. A segmenter can always be started again after stop(), and only
    then.  Whatever calls of start() and stop() were made on a Segmenter
    before, with whatever outcome: stop() leaves it without a process
    handle and a following start() whose Popen succeeds holds the new
    process; but while _running is set, start() raises Segmenter already
    running even if the FFmpeg process has exited by itself, so that
    is_running is False. *)
Theorem segmenter_restart_needs_stop (calls : list SegmenterCall) (pid : Z)
    (popen : Capture.Popen) :
  Capture.start (Capture.Spawned pid)
    (Capture.stop (foldl after_call Capture.new_segmenter calls))
    = inr {| Capture.process := Some pid; Capture.running := true |}
  ∧ Capture.process (Capture.stop (foldl after_call Capture.new_segmenter calls)) = None
  ∧ (Capture.running (foldl after_call Capture.new_segmenter calls) = true →
     Capture.is_running true (foldl after_call Capture.new_segmenter calls) = false
     ∧ Capture.start popen (foldl after_call Capture.new_segmenter calls)
       = inl (Capture.SegmentationError "Segmenter already running")).
Proof.
  destruct (stop_clears _ (calls_handle calls)) as [Hrun Hproc].
  split; [|split].
  - unfold Capture.start. by rewrite Hrun.
  - done.
  - intros Hon. split.
    + unfold Capture.is_running. by rewrite andb_false_r.
    + unfold Capture.start. by rewrite Hon.
Qed.

Lemma segmenter_restart_needs_stop_witness :
  Capture.running
    (foldl after_call Capture.new_segmenter
       [CallStart Capture.NoSuchFile; CallStart (Capture.Spawned 41); CallStop;
        CallStart (Capture.Spawned 42)]) = true
  ∧ Capture.start (Capture.Spawned 43)
      (foldl after_call Capture.new_segmenter
         [CallStart Capture.NoSuchFile; CallStart (Capture.Spawned 41); CallStop;
          CallStart (Capture.Spawned 42)])
    = inl (Capture.SegmentationError "Segmenter already running").
Proof.
  assert (Capture.running
            (foldl after_call Capture.new_segmenter
               [CallStart Capture.NoSuchFile; CallStart (Capture.Spawned 41); CallStop;
                CallStart (Capture.Spawned 42)]) = true) as Hon by reflexivity.
  split; [exact Hon|].
  exact (proj2 (proj2 (proj2 (segmenter_restart_needs_stop
           [CallStart Capture.NoSuchFile; CallStart (Capture.Spawned 41); CallStop;
            CallStart (Capture.Spawned 42)] 0 (Capture.Spawned 43))) Hon)).
Defined.

Section ManifestFacts.

Import Manifest.

Lemma last_slice_recent {A} (n : Z) (older recent : list A) :
  0 < n → Z.of_nat (length recent) = n → last_slice n (older ++ recent) = recent.
Proof.
  intros Hn Hlen. unfold last_slice. rewrite (proj2 (Z.ltb_lt _ _) Hn).
  rewrite length_app.
  replace (length older + length recent - Z.to_nat n)%nat with (length older) by lia.
  apply drop_app_length.
Qed.

Lemma last_slice_zero {A} (l : list A) : last_slice 0 l = l.
Proof. done. Qed.

(* sorted() keeps every item *)
Lemma insert_sorted_perm (s : Segment) (l : list Segment) :
  insert_sorted s l ≡ₚ s :: l.
Proof.
  induction l as [|x l IH]; simpl; [done|].
  destruct (created_at s <=? created_at x); [done|].
  by rewrite IH, Permutation_swap.
Qed.

Lemma sorted_by_created_at_perm (l : list Segment) : sorted_by_created_at l ≡ₚ l.
Proof.
  induction l as [|s l IH]; simpl; [done|].
  by rewrite insert_sorted_perm, IH.
Qed.

Lemma insert_sorted_strict (s : Segment) (l : list Segment) :
  created_at s ∉ created_at <$> l →
  StronglySorted older_than l →
  StronglySorted older_than (insert_sorted s l).
Proof.
  intros Hnew Hl. induction Hl as [|x l Hl IH Hx]; simpl.
  - repeat constructor.
  - rewrite fmap_cons, not_elem_of_cons in Hnew. destruct Hnew as [Hne Hnew].
    destruct (Z.leb_spec (created_at s) (created_at x)).
    + constructor; [by constructor|].
      constructor; [unfold older_than; lia|].
      eapply Forall_impl; [exact Hx|]. unfold older_than. intros y Hy. simpl in *. lia.
    + constructor; [by apply IH|].
      rewrite insert_sorted_perm. constructor; [unfold older_than; lia|done].
Qed.

Lemma sorted_by_created_at_strict (l : list Segment) :
  NoDup (created_at <$> l) → StronglySorted older_than (sorted_by_created_at l).
Proof.
  induction l as [|s l IH]; simpl; intros Hnd; [constructor|].
  apply NoDup_cons in Hnd as [Hnew Hnd].
  apply insert_sorted_strict; [|by apply IH].
  by rewrite sorted_by_created_at_perm.
Qed.

Lemma sorted_by_created_at_unique (l1 l2 : list Segment) :
  l1 ≡ₚ l2 → NoDup (created_at <$> l1) →
  sorted_by_created_at l1 = sorted_by_created_at l2.
Proof.
  intros Hperm Hnd.
  apply (StronglySorted_unique_strong older_than).
  - unfold older_than. intros x1 x2 _ _ H1 H2. lia.
  - by apply sorted_by_created_at_strict.
  - apply sorted_by_created_at_strict. by rewrite <- Hperm.
  - by rewrite !sorted_by_created_at_perm.
Qed.

End ManifestFacts.

(** X26. The live playlist is a rolling window.  With playlist_segments
    = n > 0, the playlist made from a list of segment names depends only
    on its last n names: whatever older names come before them, the
    playlist is the one made from the last n alone. *)
Theorem live_playlist_rolling_window (cfg : Manifest.ManifestConfig)
    (older recent : list string) (media_sequence : Z) :
  0 < Manifest.playlist_segments cfg →
  Z.of_nat (length recent) = Manifest.playlist_segments cfg →
  Manifest.generate_live_playlist cfg (older ++ recent) media_sequence
  = Manifest.generate_live_playlist cfg recent media_sequence.
Proof.
  intros Hn Hlen. unfold Manifest.generate_live_playlist.
  rewrite (last_slice_recent _ older recent Hn Hlen).
  by rewrite <- (last_slice_recent _ [] recent Hn Hlen) at 1.
Qed.

Lemma live_playlist_rolling_window_witness :
  Manifest.generate_live_playlist MoreExamples.manifest_cfg
    (["s1.ts"; "s2.ts"; "s3.ts"] ++ ["s4.ts"; "s5.ts"]) 0
  = Manifest.generate_live_playlist MoreExamples.manifest_cfg ["s4.ts"; "s5.ts"] 0.
Proof.
  apply live_playlist_rolling_window; [vm_compute; reflexivity|reflexivity].
Defined.

(** X27. A window of 0 segments is no window.  With playlist_segments =
    0 the slice segments[-0:] is the whole list, so the live playlist
    lists every segment it is given: each name added to the list adds an
    entry at the end and drops none. *)
Theorem live_playlist_zero_window (cfg : Manifest.ManifestConfig)
    (segments : list string) (file : string) (media_sequence : Z) :
  Manifest.playlist_segments cfg = 0 →
  Manifest.generate_live_playlist cfg (segments ++ [file]) media_sequence
  = Manifest.generate_live_playlist cfg segments media_sequence
    +:+ Manifest.segment_entry (Manifest.segment_duration cfg) file.
Proof.
  intros Hzero. unfold Manifest.generate_live_playlist.
  rewrite Hzero, !last_slice_zero. by rewrite foldl_snoc.
Qed.

Lemma live_playlist_zero_window_witness :
  Manifest.generate_live_playlist
    {| Manifest.segment_duration := 10; Manifest.playlist_segments := 0 |}
    (["s1.ts"; "s2.ts"; "s3.ts"] ++ ["s4.ts"]) 7
  = Manifest.generate_live_playlist
      {| Manifest.segment_duration := 10; Manifest.playlist_segments := 0 |}
      ["s1.ts"; "s2.ts"; "s3.ts"] 7
    +:+ Manifest.segment_entry 10 "s4.ts".
Proof.
  apply (live_playlist_zero_window
           {| Manifest.segment_duration := 10; Manifest.playlist_segments := 0 |}).
  reflexivity.
Defined.

(** X28. The hourly manifest does not depend on the order in which the
    segments are given, nor on the hour argument.  For segments with
    pairwise different created_at, any reordering of the list gives the
    same manifest text, for whatever hours are passed. *)
Theorem hourly_manifest_order_independent (cfg : Manifest.ManifestConfig)
    (segments segments' : list Segment) (hour hour' : datetime) :
  segments ≡ₚ segments' →
  NoDup (created_at <$> segments) →
  Manifest.generate_hourly_manifest cfg segments hour
  = Manifest.generate_hourly_manifest cfg segments' hour'.
Proof.
  intros Hperm Hnd. unfold Manifest.generate_hourly_manifest.
  by rewrite (sorted_by_created_at_unique segments segments' Hperm Hnd).
Qed.

Lemma hourly_manifest_order_independent_witness :
  Manifest.generate_hourly_manifest MoreExamples.manifest_cfg
    [from_file 100 "/buf/a.ts" "a.ts" 1000; from_file 110 "/buf/b.ts" "b.ts" 900;
     from_file 120 "/buf/c.ts" "c.ts" 800] 0
  = Manifest.generate_hourly_manifest MoreExamples.manifest_cfg
      [from_file 120 "/buf/c.ts" "c.ts" 800; from_file 100 "/buf/a.ts" "a.ts" 1000;
       from_file 110 "/buf/b.ts" "b.ts" 900] 3600000000.
Proof.
  apply hourly_manifest_order_independent.
  - symmetry. apply (Permutation_cons_append [_; _]).
  - apply (bool_decide_unpack _). vm_compute. exact I.
Defined.
